(** * Task Recorder backend: action processor, LLM adapter, prompt parsers
      and documentation generator, embedded in Rocq.

    The development follows the TypeScript sources:
    - [types.ts]                       the shared data model,
    - [services/processor.ts]          metrics and deterministic pre-chunking,
    - [services/llm.ts]                the model fallback chain of [complete],
    - [prompts/chunker.ts], [prompts/analyzer.ts],
      [prompts/markdown-generator.ts]  the response parsers,
    - [services/generator.ts]          the three-stage pipeline.

    Conventions.  Array indices and lengths are [nat]; timestamps and idle
    times (JavaScript numbers holding integral milliseconds) are [Z]; strings
    are [string].  Loops over an array are recursive functions over the
    remaining elements that carry the loop index and the loop's mutable
    variables.  A call that may throw returns an [Outcome]. *)

From Stdlib Require Import List Arith ZArith Lia Bool String Ascii QArith Sorted.
Import ListNotations.

Local Open Scope string_scope.
Local Open Scope nat_scope.

(* ===================================================================== *)
(** ** JavaScript helpers *)
(* ===================================================================== *)

(** The line feed character, written [\n] in the sources. *)
Definition nl : string := String (ascii_of_nat 10) EmptyString.

(** [arr.slice(s, e)] for non-negative integral [s] and [e]. *)
Definition slice {A : Type} (l : list A) (s e : nat) : list A :=
  firstn (e - s) (skipn s l).

(** [arr.join(sep)]. *)
Fixpoint join (sep : string) (l : list string) : string :=
  match l with
  | [] => ""
  | [x] => x
  | x :: rest => x ++ sep ++ join sep rest
  end.

(* ===================================================================== *)
(** ** types.ts *)
(* ===================================================================== *)

Inductive ActionType := click | input | navigation | copy | scroll.

Definition ActionType_eqb (a b : ActionType) : bool :=
  match a, b with
  | click, click | input, input | navigation, navigation
  | copy, copy | scroll, scroll => true
  | _, _ => false
  end.

Record ActionTarget := {
  selector : string;
  text : string;
  role : option string
}.

Record ActionMetadata := {
  pageTitle : string;
  h1 : option string;
  idleTimeBefore : option Z
}.

Record Action := {
  type : ActionType;
  timestamp : Z;
  url : string;
  target : ActionTarget;
  metadata : ActionMetadata
}.

Record PauseInfo := { pause_index : nat; durationMs : Z }.

Record BackForthPattern := { indices : list nat }.

Record RepeatedActionInfo := {
  rep_type : ActionType;
  count : nat;
  rep_indices : list nat
}.

Record ExtractionAction := { index : nat; context : string }.

Record TaskMetrics := {
  totalActions : nat;
  totalDurationMs : Z;
  longPauses : list PauseInfo;
  backForthPatterns : list BackForthPattern;
  repeatedActions : list RepeatedActionInfo;
  extractionActions : list ExtractionAction;
  urlChanges : nat;
  uniqueDomains : list string
}.

(* ===================================================================== *)
(** ** services/processor.ts *)
(* ===================================================================== *)

Definition LONG_PAUSE_THRESHOLD_MS : Z := 10000.
Definition CHUNK_PAUSE_THRESHOLD_MS : Z := 15000.
Definition REPEATED_ACTION_THRESHOLD : nat := 3.

(** *** Pre-chunking *)

Inductive Boundary := url_change | long_pause | mode_change | start.

Record PreChunk := {
  startIndex : nat;
  endIndex : nat;
  actions : list Action;
  boundary : Boundary
}.

Inductive ActionMode := mode_navigation | mode_interaction | mode_extraction.

Definition ActionMode_eqb (a b : ActionMode) : bool :=
  match a, b with
  | mode_navigation, mode_navigation
  | mode_interaction, mode_interaction
  | mode_extraction, mode_extraction => true
  | _, _ => false
  end.

Definition getActionMode (t : ActionType) : ActionMode :=
  match t with
  | navigation | scroll => mode_navigation
  | copy => mode_extraction
  | _ => mode_interaction
  end.

(** The mutable variables of [preChunkActions]. *)
Record ChunkState := {
  chunks : list PreChunk;
  currentChunkStart : nat;
  lastUrl : string;
  lastMode : ActionMode
}.

(** The inner function [createChunk(endIndex, boundary)]. *)
Definition createChunk (acts : list Action) (st : ChunkState)
    (endIdx : nat) (b : Boundary) : ChunkState :=
  if currentChunkStart st <=? endIdx then
    {| chunks := chunks st ++
         [ {| startIndex := currentChunkStart st;
              endIndex := endIdx;
              actions := slice acts (currentChunkStart st) (endIdx + 1);
              boundary := b |} ];
       currentChunkStart := endIdx + 1;
       lastUrl := lastUrl st;
       lastMode := lastMode st |}
  else st.

(** [idleTimeBefore || 0]. *)
Definition idleOrZero (a : Action) : Z :=
  match idleTimeBefore (metadata a) with
  | Some t => t
  | None => 0%Z
  end.

Section Processor.

(** [new URL(s).hostname]: [None] when the constructor throws. *)
Variable hostname : string -> option string.

(** The boundary test of the loop body: the pair
    [(shouldSplit, boundary)] after the [if / else if] chain. *)
Definition splitDecision (lastUrl_ : string) (lastMode_ : ActionMode)
    (action : Action) : bool * Boundary :=
  let idleTime := idleOrZero action in
  let currentMode := getActionMode (type action) in
  if (CHUNK_PAUSE_THRESHOLD_MS <=? idleTime)%Z then (true, long_pause)
  else if negb (url action =? lastUrl_)%string then
    match hostname lastUrl_, hostname (url action) with
    | Some lastDomain, Some currentDomain =>
        if negb (lastDomain =? currentDomain)%string then (true, url_change)
        else (false, start)
    | _, _ => (true, url_change)
    end
  else if negb (ActionMode_eqb currentMode lastMode_) then (true, mode_change)
  else (false, start).

(** The [for (let i = 1; ...)] loop; [rest] holds [actions[i..]]. *)
Fixpoint preChunkLoop (acts : list Action) (i : nat) (rest : list Action)
    (st : ChunkState) : ChunkState :=
  match rest with
  | [] => st
  | action :: rest' =>
      let '(shouldSplit, b) :=
        splitDecision (lastUrl st) (lastMode st) action in
      let st1 := if shouldSplit then createChunk acts st (i - 1) b else st in
      preChunkLoop acts (S i) rest'
        {| chunks := chunks st1;
           currentChunkStart := currentChunkStart st1;
           lastUrl := url action;
           lastMode := getActionMode (type action) |}
  end.

Definition preChunkActions (acts : list Action) : list PreChunk :=
  match acts with
  | [] => []
  | a0 :: rest =>
      let st := preChunkLoop acts 1 rest
        {| chunks := [];
           currentChunkStart := 0;
           lastUrl := url a0;
           lastMode := getActionMode (type a0) |} in
      let st' :=
        if currentChunkStart st <? List.length acts
        then createChunk acts st (List.length acts - 1) start
        else st in
      chunks st'
  end.

End Processor.

(** Chunks [cs] tile the index range from [from] up to (excluding) [to]:
    each chunk is non-empty, starts where the previous one stopped and
    carries the matching slice of [acts]. *)
Fixpoint tiles (acts : list Action) (from : nat) (cs : list PreChunk)
    (to : nat) : Prop :=
  match cs with
  | [] => from = to
  | c :: cs' =>
      startIndex c = from /\ startIndex c <= endIndex c /\
      actions c = slice acts (startIndex c) (endIndex c + 1) /\
      tiles acts (endIndex c + 1) cs' to
  end.

(** *** Observing boundaries in the result

    A boundary "before index [i]" is the closing of a chunk at [i - 1];
    its label is the [boundary] field of that chunk. *)
Definition boundaryBefore (cs : list PreChunk) (i : nat) : option Boundary :=
  option_map boundary (find (fun c => endIndex c =? i - 1) cs).




(** The outcome of the loop body's test at index [k], read off the input. *)
Definition decisionAt (hostname : string -> option string)
    (acts : list Action) (k : nat) : option Boundary :=
  match nth_error acts (k - 1), nth_error acts k with
  | Some prev, Some cur =>
      let '(shouldSplit, b) :=
        splitDecision hostname (url prev) (getActionMode (type prev)) cur in
      if shouldSplit then Some b else None
  | _, _ => None
  end.

(** Loop invariant of [preChunkActions] at index [i]: every chunk closed so
    far ends before [i - 1], and the boundaries before the indices below [i]
    are those decided by the loop body. *)
Definition boundariesDecided (hostname : string -> option string)
    (acts : list Action) (st : ChunkState) (i : nat) : Prop :=
  (forall c, In c (chunks st) -> endIndex c + 1 < i) /\
  (forall k, 1 <= k < i ->
     boundaryBefore (chunks st) k = decisionAt hostname acts k).

(** *** Metrics *)

(** [detectLongPauses]; [idleTime && idleTime >= LONG_PAUSE_THRESHOLD_MS]
    is false for a missing and for a zero idle time. *)
Fixpoint longPausesLoop (i : nat) (rest : list Action)
    (pauses : list PauseInfo) : list PauseInfo :=
  match rest with
  | [] => pauses
  | action :: rest' =>
      let pauses' :=
        match idleTimeBefore (metadata action) with
        | Some idleTime =>
            if negb (idleTime =? 0)%Z &&
               (LONG_PAUSE_THRESHOLD_MS <=? idleTime)%Z
            then (pauses ++ [ {| pause_index := i; durationMs := idleTime |} ])%list
            else pauses
        | None => pauses
        end in
      longPausesLoop (S i) rest' pauses'
  end.

Definition detectLongPauses (acts : list Action) : list PauseInfo :=
  longPausesLoop 0 acts [].

(** Entries of [urlHistory]. *)
Record UrlVisit := { visit_url : string; visit_index : nat }.

(** Entries of [urlHistory] are distinct objects with distinct indices, so
    the identity test [h === previousOccurrence] is equality of the
    records. *)
Definition UrlVisit_eqb (a b : UrlVisit) : bool :=
  (visit_url a =? visit_url b)%string && (visit_index a =? visit_index b).

(** [arr.find((h, idx) => p(h, idx))], scanning from position [idx]. *)
Fixpoint findWithIndex {A : Type} (p : A -> nat -> bool) (l : list A)
    (idx : nat) : option A :=
  match l with
  | [] => None
  | h :: l' => if p h idx then Some h else findWithIndex p l' (S idx)
  end.

(** [arr.findIndex(p)], [-1] when nothing is found. *)
Fixpoint findIndex {A : Type} (p : A -> bool) (l : list A) : Z :=
  match l with
  | [] => (-1)%Z
  | h :: l' =>
      if p h then 0%Z
      else let r := findIndex p l' in
           if (r <? 0)%Z then (-1)%Z else (r + 1)%Z
  end.

(** One round of the loop of [detectBackForthPatterns]: the patterns after
    the test of action [i]. *)
Definition backForthEmit (urlHistory : list UrlVisit) (currentUrl : string)
    (i : nat) (patterns : list BackForthPattern) : list BackForthPattern :=
  let previousOccurrence :=
    findWithIndex
      (fun h idx =>
         (visit_url h =? currentUrl)%string &&
         (Z.of_nat idx <? Z.of_nat (List.length urlHistory) - 1)%Z)
      urlHistory 0 in
  match previousOccurrence with
  | Some prev =>
      if 0 <? List.length urlHistory then
        let intermediateIndices :=
          map visit_index
            (skipn (Z.to_nat (findIndex (UrlVisit_eqb prev) urlHistory + 1))
                   urlHistory) in
        if 0 <? List.length intermediateIndices then
          (patterns ++
           [ {| indices := visit_index prev :: intermediateIndices ++ [i] |} ])%list
        else patterns
      else patterns
  | None => patterns
  end.

(** [urlHistory.push(...)] followed by the [shift()] that keeps ten
    entries. *)
Definition backForthRemember (urlHistory : list UrlVisit)
    (currentUrl : string) (i : nat) : list UrlVisit :=
  let urlHistory1 :=
    (urlHistory ++ [ {| visit_url := currentUrl; visit_index := i |} ])%list in
  if 10 <? List.length urlHistory1 then tl urlHistory1 else urlHistory1.

Fixpoint backForthLoop (i : nat) (rest : list Action)
    (urlHistory : list UrlVisit) (patterns : list BackForthPattern)
    : list BackForthPattern :=
  match rest with
  | [] => patterns
  | action :: rest' =>
      let currentUrl := url action in
      backForthLoop (S i) rest'
        (backForthRemember urlHistory currentUrl i)
        (backForthEmit urlHistory currentUrl i patterns)
  end.

Definition detectBackForthPatterns (acts : list Action)
    : list BackForthPattern :=
  backForthLoop 0 acts [] [].

(** [action.type === currentType], with [currentType] possibly [null]. *)
Definition sameType (t : ActionType) (currentType : option ActionType)
    : bool :=
  match currentType with
  | Some c => ActionType_eqb t c
  | None => false
  end.

(** The test [currentType && currentIndices.length >= 3] and the push it
    guards. *)
Definition saveSequence (result : list RepeatedActionInfo)
    (currentType : option ActionType) (currentIndices : list nat)
    : list RepeatedActionInfo :=
  match currentType with
  | Some t =>
      if REPEATED_ACTION_THRESHOLD <=? List.length currentIndices then
        (result ++ [ {| rep_type := t;
                        count := List.length currentIndices;
                        rep_indices := currentIndices |} ])%list
      else result
  | None => result
  end.

Fixpoint repeatedLoop (i : nat) (rest : list Action)
    (result : list RepeatedActionInfo) (currentType : option ActionType)
    (currentIndices : list nat) : list RepeatedActionInfo :=
  match rest with
  | [] => saveSequence result currentType currentIndices
  | action :: rest' =>
      if sameType (type action) currentType then
        repeatedLoop (S i) rest' result currentType (currentIndices ++ [i])
      else
        repeatedLoop (S i) rest'
          (saveSequence result currentType currentIndices)
          (Some (type action)) [i]
  end.

Definition detectRepeatedActions (acts : list Action)
    : list RepeatedActionInfo :=
  repeatedLoop 0 acts [] None [].

(** [arr.map((action, index) => ({ action, index }))]. *)
Definition withIndex {A : Type} (l : list A) : list (A * nat) :=
  combine l (seq 0 (List.length l)).

Definition detectExtractionActions (acts : list Action)
    : list ExtractionAction :=
  map (fun '(action, idx) =>
         {| index := idx;
            context := pageTitle (metadata action) ++ " - " ++
                       text (target action) |})
      (filter (fun '(action, _) => ActionType_eqb (type action) copy)
              (withIndex acts)).

(** [Set.add] on a set kept in insertion order. *)
Definition setAdd (x : string) (s : list string) : list string :=
  if existsb (String.eqb x) s then s else (s ++ [x])%list.

Section Metrics.

Variable hostname : string -> option string.

(** The loop of [analyzeUrls] over the state
    [(urlChanges, lastUrl, domains)]. *)
Fixpoint analyzeUrlsLoop (rest : list Action) (urlChanges_ : nat)
    (lastUrl_ : string) (domains : list string) : nat * list string :=
  match rest with
  | [] => (urlChanges_, domains)
  | action :: rest' =>
      if negb (url action =? lastUrl_)%string then
        analyzeUrlsLoop rest' (urlChanges_ + 1) (url action)
          match hostname (url action) with
          | Some h => setAdd h domains
          | None => domains
          end
      else analyzeUrlsLoop rest' urlChanges_ lastUrl_ domains
  end.

Definition analyzeUrls (acts : list Action) : nat * list string :=
  analyzeUrlsLoop acts 0 "" [].

Definition emptyMetrics : TaskMetrics :=
  {| totalActions := 0;
     totalDurationMs := 0;
     longPauses := [];
     backForthPatterns := [];
     repeatedActions := [];
     extractionActions := [];
     urlChanges := 0;
     uniqueDomains := [] |}.

Definition calculateMetrics (acts : list Action) : TaskMetrics :=
  match acts with
  | [] => emptyMetrics
  | firstAction :: _ =>
      let lastAction := last acts firstAction in
      let '(urlChanges_, uniqueDomains_) := analyzeUrls acts in
      {| totalActions := List.length acts;
         totalDurationMs := timestamp lastAction - timestamp firstAction;
         longPauses := detectLongPauses acts;
         backForthPatterns := detectBackForthPatterns acts;
         repeatedActions := detectRepeatedActions acts;
         extractionActions := detectExtractionActions acts;
         urlChanges := urlChanges_;
         uniqueDomains := uniqueDomains_ |}
  end.

End Metrics.

(** *** Vocabulary of the statements about the metrics *)

(** A decomposition of a list of action types into runs: [(t, n)] stands
    for [n] consecutive actions of type [t]. *)
Fixpoint expandRuns (runs : list (ActionType * nat)) : list ActionType :=
  match runs with
  | [] => []
  | (t, n) :: runs' => (repeat t n ++ expandRuns runs')%list
  end.

(** The runs are maximal: none is empty and neighbours differ in type. *)
Fixpoint maximalRuns (runs : list (ActionType * nat)) : Prop :=
  match runs with
  | [] => True
  | (t, n) :: runs' =>
      1 <= n /\
      match runs' with
      | [] => True
      | (t', _) :: _ => t <> t'
      end /\
      maximalRuns runs'
  end.

(** One entry for each run of length at least 3, the first run starting at
    index [off]. *)
Fixpoint runEntries (off : nat) (runs : list (ActionType * nat))
    : list RepeatedActionInfo :=
  match runs with
  | [] => []
  | (t, n) :: runs' =>
      ((if 3 <=? n
        then [ {| rep_type := t; count := n; rep_indices := seq off n |} ]
        else []) ++ runEntries (off + n) runs')%list
  end.

(** Number of positions [i >= 1] whose URL differs from the one before. *)
Fixpoint laterChanges (prevUrl : string) (rest : list Action) : nat :=
  match rest with
  | [] => 0
  | a :: rest' =>
      (if (url a =? prevUrl)%string then 0 else 1) + laterChanges (url a) rest'
  end.

(** *** Vocabulary of the statements about back-and-forth patterns *)

(** URL of the action at index [j] (the empty string out of range). *)
Definition urlAt (acts : list Action) (j : nat) : string :=
  match nth_error acts j with
  | Some a => url a
  | None => ""
  end.

(** The entry of [urlHistory] recorded for index [j]. *)
Definition visitAt (acts : list Action) (j : nat) : UrlVisit :=
  {| visit_url := urlAt acts j; visit_index := j |}.

(** The content of [urlHistory] when the loop reaches index [i]: the
    entries of the last ten indices before [i]. *)
Definition windowAt (acts : list Action) (i : nat) : list UrlVisit :=
  map (visitAt acts) (seq (i - 10) (Nat.min i 10)).

(** Index [j] is a qualifying earlier occurrence for index [i]: it is still
    in the ten-entry window, it is not the entry just before [i], and it
    has the URL of [i]. *)
Definition qualifying (acts : list Action) (i j : nat) : Prop :=
  i < List.length acts /\ i - 10 <= j /\ j + 1 < i /\
  urlAt acts j = urlAt acts i.

Definition qualifyingb (acts : list Action) (i j : nat) : bool :=
  (urlAt acts j =? urlAt acts i)%string && (j + 1 <? i).

(** The oldest qualifying occurrence in the window of [i]. *)
Definition oldestQualifying (acts : list Action) (i : nat) : option nat :=
  find (qualifyingb acts i) (seq (i - 10) (Nat.min i 10)).

(** What the round for index [i] emits. *)
Definition emittedAt (acts : list Action) (i : nat)
    : list BackForthPattern :=
  match oldestQualifying acts i with
  | Some j0 => [ {| indices := seq j0 (S (i - j0)) |} ]
  | None => []
  end.

(** Example data for the extraction contexts. *)
Fixpoint filler (n : nat) : string :=
  match n with
  | O => EmptyString
  | S n' => String "x"%char (filler n')
  end.

Definition copyOf (txt : string) : Action :=
  {| type := copy; timestamp := 0%Z; url := "https://a.com/";
     target := {| selector := "#el"; text := txt; role := None |};
     metadata := {| pageTitle := "Page"; h1 := None;
                    idleTimeBefore := None |} |}.

(* ===================================================================== *)
(** ** String searching, as used by the regular expressions *)
(* ===================================================================== *)

(** [s.slice(n)]. *)
Fixpoint drop (n : nat) (s : string) : string :=
  match n, s with
  | O, _ => s
  | S n', String _ s' => drop n' s'
  | S _, EmptyString => EmptyString
  end.

(** Leftmost occurrence of [needle] in [s]: the text before it and the
    text after it. *)
Fixpoint cut (needle s : string) : option (string * string) :=
  if prefix needle s then Some ("", drop (String.length needle) s)
  else match s with
       | EmptyString => None
       | String c s' =>
           match cut needle s' with
           | Some (before, after) => Some (String c before, after)
           | None => None
           end
       end.

(** [/open([\s\S]*?)close/]: the capture group of the leftmost match.  The
    lazy group stops at the first [close] after the first [open]. *)
Definition matchDelimited (open close s : string) : option string :=
  match cut open s with
  | None => None
  | Some (_, rest) =>
      match cut close rest with
      | None => None
      | Some (body, _) => Some body
      end
  end.

(** The lazy group [([\s\S]*?)] followed by a lookahead for one of [stops]
    or the end of the input: the shortest prefix after which one of them
    matches. *)
Fixpoint lazyUntil (stops : list string) (s : string) : string :=
  if existsb (fun stop => prefix stop s) stops then ""
  else match s with
       | EmptyString => ""
       | String c s' => String c (lazyUntil stops s')
       end.

(** [/heading\n([\s\S]*?)(?=stop1|...|$)/]: the capture group of the
    leftmost match, if any. *)
Definition matchSection (heading : string) (stops : list string)
    (s : string) : option string :=
  match cut (heading ++ nl) s with
  | None => None
  | Some (_, rest) => Some (lazyUntil stops rest)
  end.

(** White space removed by [trim] (the ASCII part of it). *)
Definition isSpace (c : ascii) : bool :=
  let n := nat_of_ascii c in
  (n =? 32) || ((9 <=? n) && (n <=? 13)).

Fixpoint trimStart (s : string) : string :=
  match s with
  | String c s' => if isSpace c then trimStart s' else s
  | EmptyString => EmptyString
  end.

Fixpoint trimEnd (s : string) : string :=
  match s with
  | EmptyString => EmptyString
  | String c s' =>
      match trimEnd s' with
      | EmptyString => if isSpace c then EmptyString else String c EmptyString
      | t => String c t
      end
  end.

Definition trim (s : string) : string := trimEnd (trimStart s).

(** A small stand-in for [new URL(s).hostname], used to run the functions
    on examples: the text between [://] and the next [/], [?], [#] or [:];
    no [://] means the constructor throws. *)
Fixpoint hostEnd (s : string) : string :=
  match s with
  | EmptyString => EmptyString
  | String c s' =>
      if existsb (Ascii.eqb c) ["/"; "?"; "#"; ":"]%char then EmptyString
      else String c (hostEnd s')
  end.

Definition simpleHostname (s : string) : option string :=
  match cut "://" s with
  | Some (String _ _, rest) => Some (hostEnd rest)
  | _ => None
  end.

(** Example actions. *)
Definition sampleAction (t : ActionType) (u : string) (idle : option Z)
    : Action :=
  {| type := t; timestamp := 0%Z; url := u;
     target := {| selector := "#el"; text := "label"; role := None |};
     metadata := {| pageTitle := "Page"; h1 := None;
                    idleTimeBefore := idle |} |}.

(* ===================================================================== *)
(** ** services/llm.ts *)
(* ===================================================================== *)

(** Result of a call that may throw an [Error] with a message. *)
Inductive Outcome (A : Type) : Type :=
| Returned (value : A)
| Thrown (message : string).
Arguments Returned {A} value.
Arguments Thrown {A} message.

Inductive LLMProvider := provider_claude | provider_openai.

(** The provider as it is printed by a template literal. *)
Definition providerName (p : LLMProvider) : string :=
  match p with
  | provider_claude => "claude"
  | provider_openai => "openai"
  end.

Definition DEFAULT_MAX_TOKENS : Z := 4096.

(** The value of [getConfig()]; [config_maxTokens] is [None] when
    [parseInt] gives [NaN]. *)
Record LLMConfig := {
  provider : LLMProvider;
  models : list string;
  config_maxTokens : option Z
}.

Record CompletionOptions := {
  systemPrompt : option string;
  maxTokens : option Z;
  temperature : option Q
}.

(** One request sent to a provider by [completeWithClaude] or
    [completeWithOpenAI]. *)
Record ProviderCall := {
  call_provider : LLMProvider;
  call_model : string;
  call_prompt : string;
  call_systemPrompt : option string;
  call_maxTokens : Z;
  call_temperature : Q
}.

(** Computations that talk to the provider: they extend the log of the
    requests made so far and return or throw. *)
Definition IO (A : Type) : Type :=
  list ProviderCall -> Outcome A * list ProviderCall.

Definition ret {A : Type} (a : A) : IO A := fun log => (Returned a, log).

Definition bind {A B : Type} (m : IO A) (k : A -> IO B) : IO B :=
  fun log =>
    match m log with
    | (Returned a, log') => k a log'
    | (Thrown e, log') => (Thrown e, log')
    end.

Notation "x <- m ;; k" := (bind m (fun x => k))
  (at level 61, m at next level, right associativity).

(** A step that talks to nobody: it returns or throws where it stands. *)
Definition settle {A : Type} (o : Outcome A) : IO A := fun log => (o, log).

(** [a || b] on numbers: [b] when [a] is missing or zero. *)
Definition orNumber (a : option Z) (b : Z) : Z :=
  match a with
  | Some v => if (v =? 0)%Z then b else v
  | None => b
  end.

Section LLM.

Variable config : LLMConfig.

(** The provider's answer to a request, given the requests that came
    before: the text returned by [completeWithClaude] /
    [completeWithOpenAI], or the message of the error they throw. *)
Variable callModel : list ProviderCall -> ProviderCall -> Outcome string.

Definition requestFor (prompt : string) (options : CompletionOptions)
    (model : string) : ProviderCall :=
  {| call_provider := provider config;
     call_model := model;
     call_prompt := prompt;
     call_systemPrompt := systemPrompt options;
     call_maxTokens :=
       orNumber (maxTokens options)
                (orNumber (config_maxTokens config) DEFAULT_MAX_TOKENS);
     call_temperature :=
       match temperature options with
       | Some t => t
       | None => (3 # 10)%Q
       end |}.

(** The message of the error thrown after the loop. *)
Definition allFailedMessage (errors : list (string * string)) : string :=
  let errorSummary :=
    join (nl ++ "  ")
         (map (fun e => (fst e ++ ": " ++ snd e)%string) errors) in
  "All " ++ providerName (provider config) ++ " models failed:" ++ nl ++
  "  " ++ errorSummary.

(** The [for (const model of config.models)] loop with its
    [try / catch]; [errors] is the array of the same name. *)
Fixpoint tryModels (prompt : string) (options : CompletionOptions)
    (remaining : list string) (errors : list (string * string))
    : IO string :=
  fun log =>
    match remaining with
    | [] => (Thrown (allFailedMessage errors), log)
    | model :: rest =>
        let request := requestFor prompt options model in
        match callModel log request with
        | Returned result => (Returned result, (log ++ [request])%list)
        | Thrown errorMessage =>
            tryModels prompt options rest
              (errors ++ [(model, errorMessage)])%list
              (log ++ [request])%list
        end
    end.

Definition complete (prompt : string) (options : CompletionOptions)
    : IO string :=
  tryModels prompt options (models config) [].

(** Every model of [ms] throws when tried in turn from the log [log];
    [msgs] are the messages, in order. *)
Fixpoint allThrow (prompt : string) (options : CompletionOptions)
    (log : list ProviderCall) (ms : list string) (msgs : list string)
    : Prop :=
  match ms, msgs with
  | [], [] => True
  | m :: ms', e :: msgs' =>
      callModel log (requestFor prompt options m) = Thrown e /\
      allThrow prompt options
        (log ++ [requestFor prompt options m])%list ms' msgs'
  | _, _ => False
  end.

End LLM.

(* ===================================================================== *)
(** ** prompts/chunker.ts, prompts/analyzer.ts, prompts/markdown-generator.ts *)
(* ===================================================================== *)

(** A value handed back by [JSON.parse], as far as the generator looks
    into it.  [generateDocumentation] calls [.map] on such a value and reads
    properties of every element: only an array has a [map] method, and no
    property of [null] can be read.  [json_other] stands for a boolean, a
    number, a string or an object; in [json_array] a [null] element is
    [None], and an element other than [null] is taken at the type [A] its
    parser declares for it. *)
Inductive JsonValue (A : Type) : Type :=
| json_undefined
| json_null
| json_other
| json_array (elements : list (option A)).
Arguments json_undefined {A}.
Arguments json_null {A}.
Arguments json_other {A}.
Arguments json_array {A} elements.

(** A value that may be [null] and is otherwise read through its
    properties. *)
Inductive Nullable (A : Type) : Type :=
| is_null
| non_null (value : A).
Arguments is_null {A}.
Arguments non_null {A} value.

(** Elements of [ChunkerResponse['chunks']]. *)
Record ChunkJson := {
  cj_phase : string;
  cj_startIndex : Z;
  cj_endIndex : Z;
  cj_patterns : list string;
  cj_inferredIntent : string
}.

Record ChunkerResponse := {
  chunker_analysis : string;
  chunker_chunks : JsonValue ChunkJson
}.

Record DecisionCriterionJson := {
  dj_situation : string;
  dj_criterion : string;
  dj_source_pattern : string;
  dj_confidence : Q
}.

Record CornerCaseJson := {
  cc_situation : string;
  cc_resolution : string;
  cc_source_evidence : string
}.

(** [AnalyzerResponse['knowHow']]: the properties of a value other than
    [null].  The two properties the generator maps over are kept with their
    shape ([json_undefined] when the property is missing). *)
Record KnowHowJson := {
  decision_criteria : JsonValue DecisionCriterionJson;
  success_signals : list string;
  failure_signals : list string;
  critical_fields : list string;
  corner_cases : JsonValue CornerCaseJson;
  expert_shortcuts : list string
}.

Record AnalyzerResponse := {
  analyzer_analysis : string;
  analyzer_knowHow : Nullable KnowHowJson
}.

Record GeneratorResponse := {
  resp_summary : string;
  resp_instructions : string;
  resp_knowHow : string;
  resp_rawMarkdown : string
}.

Definition parseGeneratorResponse (response : string) : GeneratorResponse :=
  let rawMarkdown := trim response in
  let summaryMatch :=
    matchSection "# Summary"
      [(nl ++ "# Instructions")%string; (nl ++ "# Know-How")%string]
      rawMarkdown in
  let instructionsMatch :=
    matchSection "# Instructions" [(nl ++ "# Know-How")%string] rawMarkdown in
  let knowHowMatch := matchSection "# Know-How" [] rawMarkdown in
  {| resp_summary :=
       match summaryMatch with Some m => trim m | None => "" end;
     resp_instructions :=
       match instructionsMatch with Some m => trim m | None => "" end;
     resp_knowHow :=
       match knowHowMatch with Some m => trim m | None => "" end;
     resp_rawMarkdown := rawMarkdown |}.

(** The objects serialised into [chunksJson]. *)
Record SampleActionJson := {
  sa_type : ActionType;
  sa_text : string;
  sa_pageTitle : string
}.

Record ChunkSummary := {
  cs_phase : string;
  cs_startIndex : Z;
  cs_endIndex : Z;
  cs_patterns : list string;
  cs_inferredIntent : string;
  cs_actionCount : nat;
  cs_sampleActions : list SampleActionJson
}.

(** The functions of the platform and the text templates the pipeline goes
    through.  [JSON.parse] is [None] when it throws a [SyntaxError];
    otherwise it hands back a value of any shape, seen as the segmenter's
    [chunks] or as the extractor's [knowHow].  The prompt builders and the
    [JSON.stringify]-based formatters are pure functions into strings. *)
Record Texts := {
  JSON_parse_chunks : string -> option (JsonValue ChunkJson);
  JSON_parse_knowHow : string -> option (Nullable KnowHowJson);
  JSON_stringify_chunks : list ChunkSummary -> string;
  JSON_stringify_knowHow : Nullable KnowHowJson -> string;
  formatActionsForLLM : list Action -> string;
  formatMetricsForLLM : TaskMetrics -> string;
  buildChunkerPrompt : string -> string -> string * string;
  buildAnalyzerPrompt : string -> string -> string -> string * string;
  buildGeneratorPrompt : string -> string -> string -> string * string
}.

Definition parseChunkerResponse (tx : Texts) (response : string)
    : ChunkerResponse :=
  let analysisMatch :=
    matchDelimited "<chunking_analysis>" "</chunking_analysis>" response in
  let analysis :=
    match analysisMatch with Some m => trim m | None => "" end in
  let chunksMatch := matchDelimited "<chunks>" "</chunks>" response in
  let chunks_ :=
    match chunksMatch with
    | Some m =>
        match JSON_parse_chunks tx (trim m) with
        | Some parsed => parsed
        | None => json_array []
        end
    | None => json_array []
    end in
  {| chunker_analysis := analysis; chunker_chunks := chunks_ |}.

Definition emptyKnowHowJson : KnowHowJson :=
  {| decision_criteria := json_array [];
     success_signals := [];
     failure_signals := [];
     critical_fields := [];
     corner_cases := json_array [];
     expert_shortcuts := [] |}.

Definition parseAnalyzerResponse (tx : Texts) (response : string)
    : AnalyzerResponse :=
  let analysisMatch := matchDelimited "<analysis>" "</analysis>" response in
  let analysis :=
    match analysisMatch with Some m => trim m | None => "" end in
  let knowHowMatch :=
    matchDelimited "<know_how_extraction>" "</know_how_extraction>"
      response in
  let knowHow_ :=
    match knowHowMatch with
    | Some m =>
        match JSON_parse_knowHow tx (trim m) with
        | Some parsed => parsed
        | None => non_null emptyKnowHowJson
        end
    | None => non_null emptyKnowHowJson
    end in
  {| analyzer_analysis := analysis; analyzer_knowHow := knowHow_ |}.

(* ===================================================================== *)
(** ** services/generator.ts *)
(* ===================================================================== *)

(** [types.ts]: the chunks, know-how and output of a generation run. *)
Record ActionChunk := {
  phase : string;
  chunk_startIndex : Z;
  chunk_endIndex : Z;
  chunk_actions : list Action;
  patterns : list string;
  inferredIntent : string
}.

Record DecisionCriterion := {
  situation : string;
  criterion : string;
  sourcePattern : string;
  confidence : Q
}.

Record CornerCase := {
  corner_situation : string;
  resolution : string;
  sourceEvidence : string
}.

Record KnowHowExtraction := {
  decisionCriteria : list DecisionCriterion;
  successSignals : list string;
  failureSignals : list string;
  criticalFields : list string;
  cornerCases : list CornerCase;
  expertShortcuts : list string
}.

Record GeneratedOutput := {
  summary : string;
  instructions : string;
  knowHow : string;
  rawMarkdown : string
}.

(** The fields of [TaskSession] read by the generator. *)
Record TaskSession := {
  task_id : string;
  task_actions : list Action
}.

Record GenerationResult := {
  result_chunks : list ActionChunk;
  result_metrics : TaskMetrics;
  result_knowHow : KnowHowExtraction;
  result_output : GeneratedOutput
}.

(** [arr.slice(s, e)] for arbitrary integers: negative arguments count
    from the end. *)
Definition relativeIndex (len k : Z) : Z :=
  if (k <? 0)%Z then Z.max (len + k) 0 else Z.min k len.

Definition sliceZ {A : Type} (l : list A) (s e : Z) : list A :=
  let len := Z.of_nat (List.length l) in
  let from := relativeIndex len s in
  let to := relativeIndex len e in
  firstn (Z.to_nat (to - from)) (skipn (Z.to_nat from) l).

Definition createEmptyResult : GenerationResult :=
  {| result_chunks := [];
     result_metrics :=
       {| totalActions := 0;
          totalDurationMs := 0;
          longPauses := [];
          backForthPatterns := [];
          repeatedActions := [];
          extractionActions := [];
          urlChanges := 0;
          uniqueDomains := [] |};
     result_knowHow :=
       {| decisionCriteria := [];
          successSignals := [];
          failureSignals := [];
          criticalFields := [];
          cornerCases := [];
          expertShortcuts := [] |};
     result_output :=
       {| summary := "No actions were recorded.";
          instructions := "No steps to document.";
          knowHow := "No know-how extracted.";
          rawMarkdown :=
            "# Summary" ++ nl ++ nl ++ "No actions were recorded." ++ nl ++
            nl ++ "# Instructions" ++ nl ++ nl ++ "No steps to document." ++
            nl ++ nl ++ "# Know-How" ++ nl ++ nl ++
            "No know-how extracted." |} |}.

(** The conversions of [generateDocumentation]. *)
Definition toActionChunk (acts : list Action) (chunk : ChunkJson)
    : ActionChunk :=
  {| phase := cj_phase chunk;
     chunk_startIndex := cj_startIndex chunk;
     chunk_endIndex := cj_endIndex chunk;
     chunk_actions :=
       sliceZ acts (cj_startIndex chunk) (cj_endIndex chunk + 1)%Z;
     patterns := cj_patterns chunk;
     inferredIntent := cj_inferredIntent chunk |}.

Definition toChunkSummary (c : ActionChunk) : ChunkSummary :=
  {| cs_phase := phase c;
     cs_startIndex := chunk_startIndex c;
     cs_endIndex := chunk_endIndex c;
     cs_patterns := patterns c;
     cs_inferredIntent := inferredIntent c;
     cs_actionCount := List.length (chunk_actions c);
     cs_sampleActions :=
       map (fun a => {| sa_type := type a;
                        sa_text := substring 0 30 (text (target a));
                        sa_pageTitle := pageTitle (metadata a) |})
           (slice (chunk_actions c) 0 3) |}.

(** The messages of the [TypeError]s raised on a value of the wrong
    shape, in the wording of Node's engine. *)
Definition cannotRead (what property : string) : string :=
  "Cannot read properties of " ++ what ++ " (reading '" ++ property ++ "')".

Definition notAFunction (callee : string) : string :=
  callee ++ " is not a function".

(** The callback of a [.map] over the elements of a parsed array: it
    starts by reading [firstProperty] of the element, which raises a
    [TypeError] on [null]. *)
Fixpoint mapElements {A B : Type} (firstProperty : string) (f : A -> B)
    (elements : list (option A)) : Outcome (list B) :=
  match elements with
  | [] => Returned []
  | None :: _ => Thrown (cannotRead "null" firstProperty)
  | Some element :: rest =>
      match mapElements firstProperty f rest with
      | Returned converted => Returned (f element :: converted)
      | Thrown message => Thrown message
      end
  end.

(** [value.map(element => ...)] on a parsed value; [callee] is the text of
    the expression [value.map]. *)
Definition jsonMap {A B : Type} (callee firstProperty : string)
    (f : A -> B) (value : JsonValue A) : Outcome (list B) :=
  match value with
  | json_undefined => Thrown (cannotRead "undefined" "map")
  | json_null => Thrown (cannotRead "null" "map")
  | json_other => Thrown (notAFunction callee)
  | json_array elements => mapElements firstProperty f elements
  end.

(** [chunkerParsed.chunks.map(chunk => ({ phase: chunk.phase, ... }))]. *)
Definition toActionChunks (acts : list Action)
    (chunks_ : JsonValue ChunkJson) : Outcome (list ActionChunk) :=
  jsonMap "chunkerParsed.chunks.map" "phase" (toActionChunk acts) chunks_.

(** The object literal that converts [analyzerParsed.knowHow]; its
    properties are evaluated in the order written. *)
Definition toKnowHow (k : Nullable KnowHowJson) : Outcome KnowHowExtraction :=
  match k with
  | is_null => Thrown (cannotRead "null" "decision_criteria")
  | non_null k =>
      match jsonMap "analyzerParsed.knowHow.decision_criteria.map"
              "situation"
              (fun dc => {| situation := dj_situation dc;
                            criterion := dj_criterion dc;
                            sourcePattern := dj_source_pattern dc;
                            confidence := dj_confidence dc |})
              (decision_criteria k) with
      | Thrown message => Thrown message
      | Returned decisionCriteria_ =>
          match jsonMap "analyzerParsed.knowHow.corner_cases.map"
                  "situation"
                  (fun cc => {| corner_situation := cc_situation cc;
                                resolution := cc_resolution cc;
                                sourceEvidence := cc_source_evidence cc |})
                  (corner_cases k) with
          | Thrown message => Thrown message
          | Returned cornerCases_ =>
              Returned
                {| decisionCriteria := decisionCriteria_;
                   successSignals := success_signals k;
                   failureSignals := failure_signals k;
                   criticalFields := critical_fields k;
                   cornerCases := cornerCases_;
                   expertShortcuts := expert_shortcuts k |}
          end
      end
  end.

Definition toOutput (g : GeneratorResponse) : GeneratedOutput :=
  {| summary := resp_summary g;
     instructions := resp_instructions g;
     knowHow := resp_knowHow g;
     rawMarkdown := resp_rawMarkdown g |}.

Section Generator.

Variable hostname : string -> option string.
Variable tx : Texts.
Variable config : LLMConfig.
Variable callModel : list ProviderCall -> ProviderCall -> Outcome string.

(** The options of the three calls of [complete]. *)
Definition stageOptions (system : string) (tokens : Z)
    : CompletionOptions :=
  {| systemPrompt := Some system;
     maxTokens := Some tokens;
     temperature := None |}.

Definition generateDocumentation (task : TaskSession)
    : IO GenerationResult :=
  if List.length (task_actions task) =? 0 then ret createEmptyResult
  else
    let metrics := calculateMetrics hostname (task_actions task) in
    let actionsJson := formatActionsForLLM tx (task_actions task) in
    let metricsJson := formatMetricsForLLM tx metrics in
    let '(chunkerSystem, chunkerUser) :=
      buildChunkerPrompt tx actionsJson metricsJson in
    chunkerResponse <-
      complete config callModel chunkerUser
        (stageOptions chunkerSystem 2048) ;;
    let chunkerParsed := parseChunkerResponse tx chunkerResponse in
    chunks_ <-
      settle (toActionChunks (task_actions task)
                (chunker_chunks chunkerParsed)) ;;
    let chunksJson := JSON_stringify_chunks tx (map toChunkSummary chunks_) in
    let '(analyzerSystem, analyzerUser) :=
      buildAnalyzerPrompt tx chunksJson actionsJson metricsJson in
    analyzerResponse <-
      complete config callModel analyzerUser
        (stageOptions analyzerSystem 2048) ;;
    let analyzerParsed := parseAnalyzerResponse tx analyzerResponse in
    knowHow_ <- settle (toKnowHow (analyzer_knowHow analyzerParsed)) ;;
    let knowHowJson :=
      JSON_stringify_knowHow tx (analyzer_knowHow analyzerParsed) in
    let '(generatorSystem, generatorUser) :=
      buildGeneratorPrompt tx chunksJson knowHowJson metricsJson in
    generatorResponse <-
      complete config callModel generatorUser
        (stageOptions generatorSystem 4096) ;;
    let generatorParsed := parseGeneratorResponse generatorResponse in
    ret {| result_chunks := chunks_;
           result_metrics := metrics;
           result_knowHow := knowHow_;
           result_output := toOutput generatorParsed |}.

End Generator.

(** Example instances of the platform functions, the configuration and the
    provider, used to run the pipeline on examples. *)
Definition sampleTexts : Texts :=
  {| JSON_parse_chunks := fun _ => None;
     JSON_parse_knowHow := fun _ => None;
     JSON_stringify_chunks := fun cs =>
       match cs with [] => "[]" | _ => "[...]" end;
     JSON_stringify_knowHow := fun _ => "{}";
     formatActionsForLLM := fun _ => "[actions]";
     formatMetricsForLLM := fun _ => "{metrics}";
     buildChunkerPrompt := fun a m => ("chunker", a ++ m);
     buildAnalyzerPrompt := fun c a m => ("analyzer", c ++ a ++ m);
     buildGeneratorPrompt := fun c k m => ("generator", c ++ k ++ m) |}.

Definition sampleConfig : LLMConfig :=
  {| provider := provider_openai;
     models := ["gpt-4o"; "gpt-4o-mini"; "gpt-4-turbo"];
     config_maxTokens := Some 4096%Z |}.

(** A provider whose first model always fails and whose second model
    answers with a block that is not JSON. *)
Definition sampleProvider (log : list ProviderCall) (c : ProviderCall)
    : Outcome string :=
  if (call_model c =? "gpt-4o")%string then Thrown "rate limited"
  else Returned "<chunks>not json</chunks>".

(** A provider that answers each stage of the generator with a text of its
    own; the stage is told by the system prompt of the example templates. *)
Definition stagedProvider (chunkerText analyzerText generatorText : string)
    (log : list ProviderCall) (c : ProviderCall) : Outcome string :=
  match call_systemPrompt c with
  | Some "chunker" => Returned chunkerText
  | Some "analyzer" => Returned analyzerText
  | _ => Returned generatorText
  end.

(** A provider that always fails. *)
Definition failingProvider (log : list ProviderCall) (c : ProviderCall)
    : Outcome string :=
  Thrown ("unavailable: " ++ call_model c).

(** *** Vocabulary of the statement about the aggregated error *)

(** The lines the aggregated message is claimed to hold: one line
    [model: message] for each attempted model, in the order of the
    attempts. *)
Fixpoint failureLines (attempted messages : list string) : list string :=
  match attempted, messages with
  | model :: attempted', message :: messages' =>
      (model ++ ": " ++ message)%string :: failureLines attempted' messages'
  | _, _ => []
  end.

(** *** Vocabulary of the statements about the stages of the generator *)

(** The [(systemPrompt, userPrompt)] pairs [generateDocumentation] builds
    for its three calls, from the actions, the converted chunks and the
    parsed know-how. *)
Section GeneratorStages.

Variable hostname : string -> option string.
Variable tx : Texts.

Definition chunkerPromptOf (acts : list Action) : string * string :=
  buildChunkerPrompt tx (formatActionsForLLM tx acts)
    (formatMetricsForLLM tx (calculateMetrics hostname acts)).

Definition analyzerPromptOf (acts : list Action)
    (chunks_ : list ActionChunk) : string * string :=
  buildAnalyzerPrompt tx
    (JSON_stringify_chunks tx (map toChunkSummary chunks_))
    (formatActionsForLLM tx acts)
    (formatMetricsForLLM tx (calculateMetrics hostname acts)).

Definition generatorPromptOf (acts : list Action)
    (chunks_ : list ActionChunk) (k : Nullable KnowHowJson)
    : string * string :=
  buildGeneratorPrompt tx
    (JSON_stringify_chunks tx (map toChunkSummary chunks_))
    (JSON_stringify_knowHow tx k)
    (formatMetricsForLLM tx (calculateMetrics hostname acts)).

End GeneratorStages.

(** *** Vocabulary of the statements about the segmenter response *)

(** The response holds no [<chunks>] block at all. *)
Definition chunksBlockAbsent (response : string) : Prop :=
  ~ exists a b c,
      response = (a ++ "<chunks>" ++ b ++ "</chunks>" ++ c)%string.

(** The response holds no parseable [<chunks>] block: there is no block, or
    the content of the block the parser picks is not valid JSON. *)
Definition noParseableChunks (tx : Texts) (response : string) : Prop :=
  chunksBlockAbsent response \/
  exists body,
    matchDelimited "<chunks>" "</chunks>" response = Some body /\
    JSON_parse_chunks tx (trim body) = None.

(** *** Vocabulary of the round-trip statement *)

(** A document with the three headings, laid out as the templates of
    [generator.ts] lay it out: heading, blank line, body, blank line. *)
Definition renderSections (s i k : string) : string :=
  "# Summary" ++ nl ++ nl ++ s ++ nl ++ nl ++
  "# Instructions" ++ nl ++ nl ++ i ++ nl ++ nl ++
  "# Know-How" ++ nl ++ nl ++ k.

(** [needle] matches at some position of [pre], in the text [pre ++ rest]. *)
Fixpoint startsWithin (needle pre rest : string) : bool :=
  match pre with
  | EmptyString => false
  | String _ pre' =>
      prefix needle (pre ++ rest) || startsWithin needle pre' rest
  end.

(** [needle] occurs in [s]. *)
Definition occurs (needle s : string) : bool := startsWithin needle s "".

(** Some line of [body] starts with [heading]. *)
Definition lineStartsWith (heading body : string) : bool :=
  occurs (nl ++ heading) (nl ++ body).

(** Some line of [body] ends with [heading]. *)
Definition lineEndsWith (heading body : string) : bool :=
  occurs (heading ++ nl) (body ++ nl).

Fixpoint hasChar (c : ascii) (s : string) : bool :=
  match s with
  | EmptyString => false
  | String d s' => Ascii.eqb c d || hasChar c s'
  end.

(* ===================================================================== *)
(** ** services/llm.ts: the model list of [getConfig], [executePipeline],
       [testConnection] *)
(* ===================================================================== *)

Definition OPENAI_MODEL_FALLBACK_CHAIN : list string :=
  ["gpt-4o"; "gpt-4o-mini"; "gpt-4-turbo"; "gpt-4"; "gpt-3.5-turbo"].

Definition CLAUDE_MODEL_FALLBACK_CHAIN : list string :=
  ["claude-sonnet-4-20250514"; "claude-3-5-sonnet-20241022";
   "claude-3-sonnet-20240229"; "claude-3-haiku-20240307"].

(** The environment variables read by [getConfig]: [None] when unset. *)
Record Env := {
  LLM_PROVIDER : option string;
  CLAUDE_MODEL : option string;
  OPENAI_MODEL : option string
}.

(** [preferredModel ? [preferredModel, ...chain.filter(m => m !==
    preferredModel)] : chain]; an unset and an empty variable are both
    falsy. *)
Definition modelsWithPreferred (preferredModel : option string)
    (chain : list string) : list string :=
  match preferredModel with
  | Some p =>
      if (p =? "")%string then chain
      else p :: filter (fun m => negb (m =? p)%string) chain
  | None => chain
  end.

(** The [models] field computed by [getConfig]; the provider is
    [process.env.LLM_PROVIDER || 'openai'], and every provider other than
    ['claude'] takes the OpenAI branch. *)
Definition configuredModels (env : Env) : list string :=
  let provider_ :=
    match LLM_PROVIDER env with
    | Some p => if (p =? "")%string then "openai"%string else p
    | None => "openai"%string
    end in
  if (provider_ =? "claude")%string
  then modelsWithPreferred (CLAUDE_MODEL env) CLAUDE_MODEL_FALLBACK_CHAIN
  else modelsWithPreferred (OPENAI_MODEL env) OPENAI_MODEL_FALLBACK_CHAIN.

(** The double quote character. *)
Definition dq : string := String (ascii_of_nat 34) EmptyString.

(** A JavaScript [Map] with string keys: the entries in insertion order,
    one per key. *)
Definition JsMap (V : Type) : Type := list (string * V).

(** [map.set(k, v)]: a present key keeps its place and takes the new
    value, a new key goes last. *)
Fixpoint mapSet {V : Type} (k : string) (v : V) (m : JsMap V) : JsMap V :=
  match m with
  | [] => [(k, v)]
  | (k', v') :: m' =>
      if (k' =? k)%string then (k, v) :: m' else (k', v') :: mapSet k v m'
  end.

(** [map.get(k)], [None] for [undefined]. *)
Fixpoint mapGet {V : Type} (k : string) (m : JsMap V) : option V :=
  match m with
  | [] => None
  | (k', v') :: m' => if (k' =? k)%string then Some v' else mapGet k m'
  end.

(** [map.delete(k)]: whether the key was present, and the map without
    it. *)
Fixpoint mapDelete {V : Type} (k : string) (m : JsMap V)
    : bool * JsMap V :=
  match m with
  | [] => (false, [])
  | (k', v') :: m' =>
      if (k' =? k)%string then (true, m')
      else let '(found, rest) := mapDelete k m' in (found, (k', v') :: rest)
  end.

(** [Array.from(map.values())]. *)
Definition mapValues {V : Type} (m : JsMap V) : list V := map snd m.

Record PipelineStep := {
  step_name : string;
  step_prompt : string;
  step_maxTokens : option Z
}.

Section LLMPipeline.

Variable config : LLMConfig.
Variable callModel : list ProviderCall -> ProviderCall -> Outcome string.

(** The loop of [executePipeline] over the remaining steps; [results] is
    the map of the same name. *)
Fixpoint executeSteps (steps : list PipelineStep) (results : JsMap string)
    : IO (JsMap string) :=
  fun log =>
    match steps with
    | [] => (Returned results, log)
    | step :: rest =>
        match complete config callModel (step_prompt step)
                {| systemPrompt := None;
                   maxTokens := step_maxTokens step;
                   temperature := None |} log with
        | (Returned response, log') =>
            executeSteps rest (mapSet (step_name step) response results) log'
        | (Thrown message, log') =>
            (Thrown ("Pipeline step " ++ dq ++ step_name step ++ dq ++
                     " failed: " ++ message), log')
        end
    end.

Definition executePipeline (steps : list PipelineStep)
    : IO (JsMap string) :=
  executeSteps steps [].

(** [testConnection]: the [try / catch] turns a throw into [false]. *)
Definition testConnection : IO bool :=
  fun log =>
    match complete config callModel
            ("Say " ++ dq ++ "OK" ++ dq ++ " if you can read this.")
            {| systemPrompt := None;
               maxTokens := Some 10%Z;
               temperature := None |} log with
    | (Returned _, log') => (Returned true, log')
    | (Thrown _, log') => (Returned false, log')
    end.

End LLMPipeline.

(* ===================================================================== *)
(** ** store/index.ts: the in-memory store and the conversation map *)
(* ===================================================================== *)

(** [inMemoryStore.get]: [memoryStore.get(id) || null]; a stored task is
    an object, hence truthy. *)
Definition store_get (memoryStore : JsMap TaskSession) (id : string)
    : option TaskSession :=
  mapGet id memoryStore.

Definition store_set (memoryStore : JsMap TaskSession) (id : string)
    (task : TaskSession) : JsMap TaskSession :=
  mapSet id task memoryStore.

Definition store_delete (memoryStore : JsMap TaskSession) (id : string)
    : bool * JsMap TaskSession :=
  mapDelete id memoryStore.

Definition store_list (memoryStore : JsMap TaskSession)
    : list TaskSession :=
  mapValues memoryStore.

Definition registerConversation (conversationMap : JsMap string)
    (conversationId taskId : string) : JsMap string :=
  mapSet conversationId taskId conversationMap.

Definition getTaskIdForConversation (conversationMap : JsMap string)
    (conversationId : string) : option string :=
  mapGet conversationId conversationMap.

Definition clearConversation (conversationMap : JsMap string)
    (conversationId : string) : JsMap string :=
  snd (mapDelete conversationId conversationMap).

(** The keys of a map, in insertion order. *)
Definition mapKeys {V : Type} (m : JsMap V) : list string := map fst m.

(** A computation appends at most [n] requests to the log and keeps what
    was logged before. *)
Definition appendsAtMost {A : Type} (n : nat) (m : IO A) : Prop :=
  forall log, exists extra,
    snd (m log) = (log ++ extra)%list /\ List.length extra <= n.

(** The options [executePipeline] passes to [complete] for a step. *)
Definition stepOptions (step : PipelineStep) : CompletionOptions :=
  {| systemPrompt := None;
     maxTokens := step_maxTokens step;
     temperature := None |}.

(** The calls of [complete] for [steps], made in turn from the log [log],
    all return; [responses] are their results and [log'] is the log after
    the last of them. *)
Fixpoint stepsReturn (config : LLMConfig)
    (callModel : list ProviderCall -> ProviderCall -> Outcome string)
    (log : list ProviderCall) (steps : list PipelineStep)
    (responses : list string) (log' : list ProviderCall) : Prop :=
  match steps, responses with
  | [], [] => log' = log
  | step :: steps', r :: responses' =>
      exists log1,
        complete config callModel (step_prompt step) (stepOptions step) log
          = (Returned r, log1) /\
        stepsReturn config callModel log1 steps' responses' log'
  | _, _ => False
  end.

(** The response of the last step called [name], if any. *)
Definition lastResponse (name : string)
    (answered : list (PipelineStep * string)) : option string :=
  fold_left
    (fun acc sr => if (step_name (fst sr) =? name)%string
                   then Some (snd sr) else acc)
    answered None.

(** Example data for the pipeline. *)
Definition sampleChunkJson : ChunkJson :=
  {| cj_phase := "Search";
     cj_startIndex := 0;
     cj_endIndex := 0;
     cj_patterns := [];
     cj_inferredIntent := "find the page" |}.

(** The JSON text of the array that holds [sampleChunkJson]. *)
Definition quoted (s : string) : string := dq ++ s ++ dq.

Definition sampleChunksText : string :=
  "[{" ++ quoted "phase" ++ ":" ++ quoted "Search" ++ "," ++
  quoted "startIndex" ++ ":0," ++ quoted "endIndex" ++ ":0," ++
  quoted "patterns" ++ ":[]," ++
  quoted "inferredIntent" ++ ":" ++ quoted "find the page" ++ "}]".

(** What an object without properties looks like when it is read as the
    know-how: the two arrays are missing. *)
Definition knowHowOfEmptyObject : KnowHowJson :=
  {| decision_criteria := json_undefined;
     success_signals := [];
     failure_signals := [];
     critical_fields := [];
     corner_cases := json_undefined;
     expert_shortcuts := [] |}.

(** An excerpt of [JSON.parse]: the texts used in the examples. *)
Definition parseChunksExcerpt (s : string) : option (JsonValue ChunkJson) :=
  if (s =? sampleChunksText)%string then Some (json_array [Some sampleChunkJson])
  else if (s =? "[]")%string then Some (json_array [])
  else if (s =? "[null]")%string then Some (json_array [None])
  else if (s =? "null")%string then Some json_null
  else if (s =? "{}")%string then Some json_other
  else if (s =? "1")%string then Some json_other
  else None.

Definition parseKnowHowExcerpt (s : string)
    : option (Nullable KnowHowJson) :=
  if (s =? "null")%string then Some is_null
  else if (s =? "{}")%string then Some (non_null knowHowOfEmptyObject)
  else None.

Definition parsingTexts : Texts :=
  {| JSON_parse_chunks := parseChunksExcerpt;
     JSON_parse_knowHow := parseKnowHowExcerpt;
     JSON_stringify_chunks := fun cs =>
       match cs with [] => "[]" | _ => "[...]" end;
     JSON_stringify_knowHow := fun _ => "{}";
     formatActionsForLLM := fun _ => "[actions]";
     formatMetricsForLLM := fun _ => "{metrics}";
     buildChunkerPrompt := fun a m => ("chunker", a ++ m);
     buildAnalyzerPrompt := fun c a m => ("analyzer", c ++ a ++ m);
     buildGeneratorPrompt := fun c k m => ("generator", c ++ k ++ m) |}.

(** The response holds no parseable [<know_how_extraction>] block. *)
Definition noParseableKnowHow (tx : Texts) (response : string) : Prop :=
  (~ exists a b c,
       response = (a ++ "<know_how_extraction>" ++ b ++
                   "</know_how_extraction>" ++ c)%string) \/
  exists body,
    matchDelimited "<know_how_extraction>" "</know_how_extraction>" response
      = Some body /\
    JSON_parse_knowHow tx (trim body) = None.

(* ===================================================================== *)
(** ** routes/tasks.ts: the handlers around the generator *)
(* ===================================================================== *)

Inductive SessionStatus :=
| status_recording | status_processing | status_completed | status_error.

(** The status as a template literal prints it. *)
Definition statusName (s : SessionStatus) : string :=
  match s with
  | status_recording => "recording"
  | status_processing => "processing"
  | status_completed => "completed"
  | status_error => "error"
  end.

Definition SessionStatus_eqb (a b : SessionStatus) : bool :=
  match a, b with
  | status_recording, status_recording
  | status_processing, status_processing
  | status_completed, status_completed
  | status_error, status_error => true
  | _, _ => false
  end.

(** A stored [TaskSession] with the fields the handlers below read or
    write (the narration fields are left out). *)
Record TaskRecord := {
  rec_id : string;
  rec_status : SessionStatus;
  rec_startTs : Z;
  rec_endTs : option Z;
  rec_actions : list Action;
  rec_chunks : option (list ActionChunk);
  rec_metrics : option TaskMetrics;
  rec_knowHowExtraction : option KnowHowExtraction;
  rec_output : option GeneratedOutput;
  rec_error : option string
}.

(** The part of a stored task that [generateDocumentation] reads. *)
Definition sessionOf (task : TaskRecord) : TaskSession :=
  {| task_id := rec_id task; task_actions := rec_actions task |}.

(** What a handler leaves behind: the status passed to [reply.status], if
    any, and the value it returns or the error it throws. *)
Record Reply (A : Type) := {
  reply_status : option nat;
  reply_result : Outcome A
}.
Arguments reply_status {A} _.
Arguments reply_result {A} _.

Record AddActionsResponse := { received : nat; total : nat }.

Record StopTaskResponse := {
  stop_status : SessionStatus;
  stop_output : option GeneratedOutput;
  stop_error : option string
}.

(** [action.type && action.timestamp && action.url]: the type is a
    non-empty string; a zero timestamp and an empty URL are falsy. *)
Definition validAction (action : Action) : bool :=
  negb (timestamp action =? 0)%Z && negb (url action =? "")%string.

(** [POST /tasks/:id/actions]. *)
Definition addActionsHandler (taskStore : JsMap TaskRecord) (id : string)
    (incoming : list Action)
    : Reply AddActionsResponse * JsMap TaskRecord :=
  match mapGet id taskStore with
  | None =>
      ({| reply_status := Some 404;
          reply_result := Thrown ("Task not found: " ++ id) |}, taskStore)
  | Some task =>
      if negb (SessionStatus_eqb (rec_status task) status_recording) then
        ({| reply_status := Some 400;
            reply_result :=
              Thrown ("Task is not in recording state: " ++
                      statusName (rec_status task)) |}, taskStore)
      else
        let validActions := filter validAction incoming in
        let task' :=
          {| rec_id := rec_id task;
             rec_status := rec_status task;
             rec_startTs := rec_startTs task;
             rec_endTs := rec_endTs task;
             rec_actions := (rec_actions task ++ validActions)%list;
             rec_chunks := rec_chunks task;
             rec_metrics := rec_metrics task;
             rec_knowHowExtraction := rec_knowHowExtraction task;
             rec_output := rec_output task;
             rec_error := rec_error task |} in
        ({| reply_status := None;
            reply_result :=
              Returned {| received := List.length validActions;
                          total := List.length (rec_actions task') |} |},
         mapSet id task' taskStore)
  end.

Section TaskRoutes.

Variable hostname : string -> option string.
Variable tx : Texts.
Variable config : LLMConfig.
Variable callModel : list ProviderCall -> ProviderCall -> Outcome string.

(** [POST /tasks/:id/stop]; [now] is the reading of [Date.now()].  Writing
    the result file ([saveResult]) catches its own errors and touches
    neither the store nor the provider. *)
Definition stopTaskHandler (taskStore : JsMap TaskRecord) (id : string)
    (now : Z) (log : list ProviderCall)
    : Reply StopTaskResponse * JsMap TaskRecord * list ProviderCall :=
  match mapGet id taskStore with
  | None =>
      ({| reply_status := Some 404;
          reply_result := Thrown ("Task not found: " ++ id) |},
       taskStore, log)
  | Some task =>
      if negb (SessionStatus_eqb (rec_status task) status_recording) then
        ({| reply_status := Some 400;
            reply_result :=
              Thrown ("Task is not in recording state: " ++
                      statusName (rec_status task)) |}, taskStore, log)
      else
        let processing :=
          {| rec_id := rec_id task;
             rec_status := status_processing;
             rec_startTs := rec_startTs task;
             rec_endTs := Some now;
             rec_actions := rec_actions task;
             rec_chunks := rec_chunks task;
             rec_metrics := rec_metrics task;
             rec_knowHowExtraction := rec_knowHowExtraction task;
             rec_output := rec_output task;
             rec_error := rec_error task |} in
        let store1 := mapSet id processing taskStore in
        match generateDocumentation hostname tx config callModel
                (sessionOf processing) log with
        | (Returned result, log') =>
            let done :=
              {| rec_id := rec_id processing;
                 rec_status := status_completed;
                 rec_startTs := rec_startTs processing;
                 rec_endTs := rec_endTs processing;
                 rec_actions := rec_actions processing;
                 rec_chunks := Some (result_chunks result);
                 rec_metrics := Some (result_metrics result);
                 rec_knowHowExtraction := Some (result_knowHow result);
                 rec_output := Some (result_output result);
                 rec_error := rec_error processing |} in
            ({| reply_status := None;
                reply_result :=
                  Returned {| stop_status := status_completed;
                              stop_output := Some (result_output result);
                              stop_error := None |} |},
             mapSet id done store1, log')
        | (Thrown message, log') =>
            let failed :=
              {| rec_id := rec_id processing;
                 rec_status := status_error;
                 rec_startTs := rec_startTs processing;
                 rec_endTs := rec_endTs processing;
                 rec_actions := rec_actions processing;
                 rec_chunks := rec_chunks processing;
                 rec_metrics := rec_metrics processing;
                 rec_knowHowExtraction := rec_knowHowExtraction processing;
                 rec_output := rec_output processing;
                 rec_error := Some message |} in
            ({| reply_status := Some 500;
                reply_result :=
                  Returned {| stop_status := status_error;
                              stop_output := None;
                              stop_error := Some message |} |},
             mapSet id failed store1, log')
        end
  end.

End TaskRoutes.

(** Example data for the handlers. *)
Definition sampleRecord (id : string) (s : SessionStatus)
    (acts : list Action) : TaskRecord :=
  {| rec_id := id; rec_status := s; rec_startTs := 1000; rec_endTs := None;
     rec_actions := acts; rec_chunks := None; rec_metrics := None;
     rec_knowHowExtraction := None; rec_output := None;
     rec_error := None |}.

(* ===================================================================== *)
(** * Theorems *)
(* ===================================================================== *)

Lemma tiles_app acts cs1 : forall from mid cs2 to,
  tiles acts from cs1 mid -> tiles acts mid cs2 to ->
  tiles acts from (cs1 ++ cs2) to.
Proof.
  induction cs1 as [|c cs1 IH]; simpl; intros from mid cs2 to H1 H2.
  - subst; assumption.
  - destruct H1 as (Hs & Hle & Ha & Ht). repeat split; auto.
    eapply IH; eauto.
Qed.

Lemma skipn_cons_nth {A} (l : list A) : forall i a rest,
  skipn i l = a :: rest -> nth_error l i = Some a /\ skipn (S i) l = rest.
Proof.
  induction l as [|x l IH]; intros i a rest H.
  - destruct i; discriminate.
  - destruct i as [|i]; simpl in *.
    + inversion H; subst; auto.
    + destruct (IH _ _ _ H) as [H1 H2]. split; [assumption|].
      destruct l; [destruct i; discriminate|exact H2].
Qed.

Section PreChunkFacts.

Variable hostname : string -> option string.
Variable acts : list Action.

Lemma createChunk_tiles st e b :
  currentChunkStart st <= e ->
  tiles acts 0 (chunks st) (currentChunkStart st) ->
  tiles acts 0 (chunks (createChunk acts st e b))
    (currentChunkStart (createChunk acts st e b)) /\
  currentChunkStart (createChunk acts st e b) = e + 1.
Proof.
  intros Hle Ht. unfold createChunk.
  destruct (Nat.leb_spec (currentChunkStart st) e) as [_|Hlt]; [|lia].
  simpl. split; [|reflexivity].
  eapply tiles_app; [exact Ht|]. simpl. repeat split; auto.
Qed.

Lemma preChunkLoop_tiles : forall rest i st,
  1 <= i -> currentChunkStart st < i ->
  tiles acts 0 (chunks st) (currentChunkStart st) ->
  tiles acts 0 (chunks (preChunkLoop hostname acts i rest st))
    (currentChunkStart (preChunkLoop hostname acts i rest st)) /\
  currentChunkStart (preChunkLoop hostname acts i rest st)
    < i + List.length rest.
Proof.
  induction rest as [|a rest IH]; intros i st Hi Hlt Ht.
  - simpl. split; [assumption|lia].
  - cbn [preChunkLoop].
    destruct (splitDecision hostname (lastUrl st) (lastMode st) a)
      as [split_ b].
    destruct split_.
    + destruct (createChunk_tiles st (i - 1) b ltac:(lia) Ht) as [Ht' He].
      edestruct (IH (S i)) as [H1 H2]; [| | |split; [exact H1|]].
      * lia.
      * cbn [currentChunkStart]. rewrite He. lia.
      * cbn [chunks currentChunkStart]. exact Ht'.
      * cbn [List.length]. lia.
    + edestruct (IH (S i)) as [H1 H2]; [| | |split; [exact H1|]].
      * lia.
      * cbn [currentChunkStart]. lia.
      * cbn [chunks currentChunkStart]. exact Ht.
      * cbn [List.length]. lia.
Qed.

Lemma preChunkActions_tiles :
  tiles acts 0 (preChunkActions hostname acts) (List.length acts).
Proof.
  unfold preChunkActions. destruct acts as [|a0 rest] eqn:E.
  - reflexivity.
  - rewrite <- E.
    set (st0 := {| chunks := []; currentChunkStart := 0;
                   lastUrl := url a0;
                   lastMode := getActionMode (type a0) |}).
    destruct (preChunkLoop_tiles rest 1 st0) as [Ht Hlt];
      [lia | unfold st0; simpl; lia | reflexivity |].
    assert (Hn : List.length acts = 1 + List.length rest)
      by (rewrite E; reflexivity).
    rewrite <- Hn in Hlt.
    destruct (Nat.ltb_spec
      (currentChunkStart (preChunkLoop hostname acts 1 rest st0))
      (List.length acts)) as [_|Hge]; [|lia].
    destruct (createChunk_tiles
                (preChunkLoop hostname acts 1 rest st0)
                (List.length acts - 1) start ltac:(lia) Ht) as [Ht' He].
    rewrite He in Ht'. replace (List.length acts - 1 + 1)
      with (List.length acts) in Ht' by lia. exact Ht'.
Qed.

End PreChunkFacts.

(** Consequences of a tiling, in the vocabulary of the specification. *)

Lemma tiles_first acts cs to c0 :
  tiles acts 0 cs to -> hd_error cs = Some c0 -> startIndex c0 = 0.
Proof. destruct cs; simpl; [discriminate|]. intros (H & _) E. congruence. Qed.

Lemma tiles_nonempty acts from cs to :
  tiles acts from cs to -> from < to -> cs <> [].
Proof. destruct cs; simpl; [lia|discriminate]. Qed.

Lemma tiles_last acts : forall cs from to c d,
  tiles acts from (cs ++ [c]) to -> endIndex (last (cs ++ [c]) d) + 1 = to.
Proof.
  intros cs from to c d. rewrite last_last. revert from.
  induction cs as [|x cs IH]; simpl; intros from H.
  - tauto.
  - destruct H as (_ & _ & _ & H). eauto.
Qed.

Lemma tiles_adjacent acts : forall cs from to i c d,
  tiles acts from cs to ->
  nth_error cs i = Some c -> nth_error cs (S i) = Some d ->
  startIndex d = endIndex c + 1.
Proof.
  induction cs as [|x cs IH]; intros from to i c d Ht Hc Hd.
  - destruct i; discriminate.
  - destruct Ht as (_ & _ & _ & Ht). destruct i as [|i].
    + simpl in Hc, Hd. inversion Hc; subst x.
      destruct cs as [|y cs]; [discriminate|]. simpl in Hd.
      inversion Hd; subst y. destruct Ht as (H & _). exact H.
    + simpl in Hc. eapply IH; eauto.
Qed.

Lemma tiles_slices acts : forall cs from to c,
  tiles acts from cs to -> In c cs ->
  from <= startIndex c /\ startIndex c <= endIndex c /\ endIndex c < to /\
  actions c = slice acts (startIndex c) (endIndex c + 1).
Proof.
  induction cs as [|x cs IH]; intros from to c Ht Hin; [contradiction|].
  destruct Ht as (Hs & Hle & Ha & Ht).
  assert (Hto : endIndex x + 1 <= to).
  { clear -Ht. revert Ht. generalize (endIndex x + 1). 
    induction cs as [|y cs IH]; simpl; intros n H; [lia|].
    destruct H as (H1 & H2 & _ & H4). apply IH in H4. lia. }
  destruct Hin as [->|Hin].
  - repeat split; auto; lia.
  - destruct (IH _ _ _ Ht Hin) as (H1 & H2 & H3 & H4).
    repeat split; auto; lia.
Qed.

(** C1. For every non-empty action list the chunks returned by
    [preChunkActions] are contiguous, cover the whole list and do not
    overlap: there is at least one chunk, the first one starts at index 0,
    the last one ends at [actions.length - 1], each chunk starts right
    after the end of its predecessor, and the [actions] field of a chunk
    is the slice of the input from its [startIndex] through its
    [endIndex]. *)
Theorem preChunkActions_contiguous_cover
    (hostname : string -> option string) (acts : list Action) :
  acts <> [] ->
  let cs := preChunkActions hostname acts in
  cs <> [] /\
  (forall c0, hd_error cs = Some c0 -> startIndex c0 = 0) /\
  (forall d, endIndex (last cs d) = List.length acts - 1) /\
  (forall i c d, nth_error cs i = Some c -> nth_error cs (S i) = Some d ->
     startIndex d = endIndex c + 1) /\
  (forall c, In c cs ->
     startIndex c <= endIndex c /\
     actions c = slice acts (startIndex c) (endIndex c + 1)).
Proof.
  intros Hne cs.
  pose proof (preChunkActions_tiles hostname acts) as Ht. fold cs in Ht.
  assert (Hlen : 0 < List.length acts) by (destruct acts; simpl; [congruence|lia]).
  assert (Hcs : cs <> []) by (eapply tiles_nonempty; eauto).
  split; [exact Hcs|]. split; [|split; [|split]].
  - intros c0 H0. eapply tiles_first; eauto.
  - intros d. destruct (exists_last Hcs) as (cs' & c & E).
    rewrite E in Ht |- *. pose proof (tiles_last _ _ _ _ _ d Ht). lia.
  - intros i c d Hc Hd. eapply tiles_adjacent; eauto.
  - intros c Hin. destruct (tiles_slices _ _ _ _ _ Ht Hin) as (_ & H1 & _ & H2).
    auto.
Qed.

(** ** Boundaries of the pre-chunker *)




Section PreChunkBoundaries.

Variable hostname : string -> option string.
Variable acts : list Action.

Local Abbreviation decided := (boundariesDecided hostname acts).






End PreChunkBoundaries.





Lemma preChunkActions_contiguous_cover_witness :
  let acts := [sampleAction navigation "https://a.com/x" None;
               sampleAction click "https://a.com/x" None;
               sampleAction click "https://b.org/" (Some 20000%Z)] in
  let cs := preChunkActions simpleHostname acts in
  cs <> [] /\
  (forall c0, hd_error cs = Some c0 -> startIndex c0 = 0) /\
  (forall d, endIndex (last cs d) = List.length acts - 1) /\
  (forall i c d, nth_error cs i = Some c -> nth_error cs (S i) = Some d ->
     startIndex d = endIndex c + 1) /\
  (forall c, In c cs ->
     startIndex c <= endIndex c /\
     actions c = slice acts (startIndex c) (endIndex c + 1)).
Proof.
  intros acts.
  apply (preChunkActions_contiguous_cover simpleHostname acts).
  discriminate.
Defined.

(** ** Repeated actions *)

Lemma ActionType_eqb_spec a b : reflect (a = b) (ActionType_eqb a b).
Proof. destruct a, b; simpl; constructor; congruence. Qed.

Lemma repeatedLoop_same : forall n rest i result t s m more,
  i = s + m ->
  map type rest = (repeat t n ++ more)%list ->
  exists rest2,
    map type rest2 = more /\
    repeatedLoop i rest result (Some t) (seq s m)
    = repeatedLoop (i + n) rest2 result (Some t) (seq s (m + n)).
Proof.
  induction n as [|n IH]; intros rest i result t s m more Hi Hty.
  - exists rest. simpl in Hty. rewrite !Nat.add_0_r. auto.
  - destruct rest as [|a rest]; [discriminate|].
    simpl in Hty. injection Hty as Ha Hrest.
    destruct (IH rest (S i) result t s (S m) more ltac:(lia) Hrest)
      as (rest2 & Hm & Heq).
    exists rest2. split; [assumption|].
    cbn [repeatedLoop sameType]. rewrite Ha.
    destruct (ActionType_eqb_spec t t) as [_|]; [|congruence].
    subst i. rewrite <- seq_S.
    replace (s + m + S n) with (S (s + m) + n) by lia.
    replace (m + S n) with (S m + n) by lia. exact Heq.
Qed.

Lemma saveSequence_run result t s k :
  saveSequence result (Some t) (seq s k)
  = (result ++ if 3 <=? k
               then [ {| rep_type := t; count := k; rep_indices := seq s k |} ]
               else [])%list.
Proof.
  unfold saveSequence, REPEATED_ACTION_THRESHOLD. rewrite length_seq.
  destruct (3 <=? k); [reflexivity|]. now rewrite app_nil_r.
Qed.

Lemma repeatedLoop_runs : forall runs rest i result t s m n,
  i = s + m ->
  maximalRuns ((t, S n) :: runs) ->
  map type rest = (repeat t n ++ expandRuns runs)%list ->
  repeatedLoop i rest result (Some t) (seq s m)
  = (result ++ runEntries s ((t, m + n) :: runs))%list.
Proof.
  induction runs as [|[t' n'] runs IH];
    intros rest i result t s m n Hi Hmax Hty.
  - destruct (repeatedLoop_same n rest i result t s m [] Hi Hty)
      as (rest2 & Hm & ->).
    destruct rest2; [|discriminate].
    cbn [repeatedLoop runEntries]. rewrite saveSequence_run.
    now rewrite app_nil_r.
  - destruct (repeatedLoop_same n rest i result t s m _ Hi Hty)
      as (rest2 & Hm & ->).
    destruct Hmax as (_ & Hne & Hmax').
    pose proof Hmax' as (Hn' & _ & _).
    destruct n' as [|n']; [lia|].
    destruct rest2 as [|a rest2]; [discriminate|].
    cbn [expandRuns repeat app map] in Hm. injection Hm as Ha Hrest.
    cbn [repeatedLoop sameType]. rewrite Ha.
    destruct (ActionType_eqb_spec t' t) as [E|_]; [congruence|].
    rewrite (IH rest2 (S (i + n)) _ t' (i + n) 1 n' ltac:(lia) Hmax' Hrest).
    rewrite saveSequence_run. cbn [runEntries].
    rewrite <- app_assoc. subst i.
    replace (s + (m + n)) with (s + m + n) by lia. reflexivity.
Qed.

Lemma runs_exist : forall l : list ActionType,
  exists runs, maximalRuns runs /\ l = expandRuns runs.
Proof.
  induction l as [|t l (runs & Hmax & ->)].
  - exists []. simpl. auto.
  - destruct runs as [|[t' n'] runs].
    + exists [(t, 1)]. simpl. auto.
    + destruct (ActionType_eqb_spec t t') as [->|Hne].
      * exists ((t', S n') :: runs). simpl in *. intuition lia.
      * exists ((t, 1) :: (t', n') :: runs). simpl in *. intuition lia.
Qed.

Lemma detectRepeatedActions_runs (acts : list Action) runs :
  maximalRuns runs -> map type acts = expandRuns runs ->
  detectRepeatedActions acts = runEntries 0 runs.
Proof.
  intros Hmax Hty. unfold detectRepeatedActions.
  destruct runs as [|[t n] runs].
  - destruct acts; [reflexivity|discriminate].
  - pose proof Hmax as (Hn & _ & _). destruct n as [|n]; [lia|].
    destruct acts as [|a rest]; [discriminate|].
    cbn [expandRuns repeat app map] in Hty. injection Hty as Ha Hrest.
    cbn [repeatedLoop sameType saveSequence]. rewrite Ha.
    exact (repeatedLoop_runs runs rest 1 [] t 0 1 n eq_refl Hmax Hrest).
Qed.

Lemma calculateMetrics_lists hostname acts :
  let m := calculateMetrics hostname acts in
  longPauses m = detectLongPauses acts /\
  backForthPatterns m = detectBackForthPatterns acts /\
  repeatedActions m = detectRepeatedActions acts /\
  extractionActions m = detectExtractionActions acts.
Proof.
  unfold calculateMetrics. destruct acts as [|a rest]; [repeat split|].
  destruct (analyzeUrls hostname (a :: rest)). repeat split.
Qed.

(** C7. Every action list splits into maximal runs of equal [type] (and
    only the types matter, not the targets); for each such splitting the
    [repeatedActions] of [calculateMetrics] are, in order, one entry for
    each run of length [n >= 3], with [count = n] and the run's own
    indices, and nothing for the shorter runs. *)
Theorem detectRepeatedActions_maximal_runs
    (hostname : string -> option string) (acts : list Action) :
  (exists runs, maximalRuns runs /\ map type acts = expandRuns runs) /\
  (forall runs,
     maximalRuns runs -> map type acts = expandRuns runs ->
     repeatedActions (calculateMetrics hostname acts) = runEntries 0 runs).
Proof.
  split; [apply runs_exist|].
  intros runs Hmax Hty.
  destruct (calculateMetrics_lists hostname acts) as (_ & _ & -> & _).
  now apply detectRepeatedActions_runs.
Qed.

Lemma detectRepeatedActions_maximal_runs_witness :
  repeatedActions
    (calculateMetrics simpleHostname
       [sampleAction click "u" None; sampleAction click "u" None;
        sampleAction click "v" None; sampleAction click "w" None;
        sampleAction click "w" None; sampleAction input "w" None])
  = [ {| rep_type := click; count := 5; rep_indices := [0; 1; 2; 3; 4] |} ].
Proof.
  apply (proj2 (detectRepeatedActions_maximal_runs simpleHostname _)
           [(click, 5); (input, 1)]).
  - simpl. repeat split; try lia. discriminate.
  - reflexivity.
Defined.

(** ** URL changes *)

Lemma analyzeUrlsLoop_count hostname : forall rest n lastUrl_ domains,
  fst (analyzeUrlsLoop hostname rest n lastUrl_ domains)
  = n + laterChanges lastUrl_ rest.
Proof.
  induction rest as [|a rest IH]; intros n lastUrl_ domains; simpl.
  - lia.
  - destruct (String.eqb_spec (url a) lastUrl_) as [E|E]; simpl.
    + rewrite IH, E. reflexivity.
    + rewrite IH. lia.
Qed.

Lemma laterChanges_constant u : forall rest,
  (forall b, In b rest -> url b = u) -> laterChanges u rest = 0.
Proof.
  induction rest as [|a rest IH]; intros H; simpl; [reflexivity|].
  assert (Ha : url a = u) by (apply H; left; reflexivity).
  rewrite Ha, String.eqb_refl. apply IH. intros; apply H; right; assumption.
Qed.

Lemma calculateMetrics_urlChanges hostname a rest :
  urlChanges (calculateMetrics hostname (a :: rest))
  = fst (analyzeUrls hostname (a :: rest)).
Proof.
  unfold calculateMetrics.
  destruct (analyzeUrls hostname (a :: rest)); reflexivity.
Qed.

(** C10. The counter of [analyzeUrls] compares the first URL with the
    empty string: when the first action has a non-empty URL, [urlChanges]
    is one more than the number of later positions whose URL differs from
    the one before, and it is 1 when all actions carry that same URL. *)
Theorem urlChanges_counts_first_action
    (hostname : string -> option string) (a : Action) (rest : list Action) :
  url a <> "" ->
  urlChanges (calculateMetrics hostname (a :: rest))
    = 1 + laterChanges (url a) rest /\
  ((forall b, In b rest -> url b = url a) ->
   urlChanges (calculateMetrics hostname (a :: rest)) = 1).
Proof.
  intros Hne. rewrite calculateMetrics_urlChanges.
  unfold analyzeUrls. rewrite analyzeUrlsLoop_count. simpl.
  destruct (String.eqb_spec (url a) "") as [E|_]; [contradiction|].
  split; [reflexivity|]. intros Hall.
  rewrite laterChanges_constant by assumption. reflexivity.
Qed.

Lemma urlChanges_counts_first_action_witness :
  urlChanges (calculateMetrics simpleHostname
    [sampleAction click "https://a.com/" None;
     sampleAction input "https://a.com/" None;
     sampleAction click "https://a.com/" None]) = 1.
Proof.
  apply (urlChanges_counts_first_action simpleHostname
           (sampleAction click "https://a.com/" None)
           [sampleAction input "https://a.com/" None;
            sampleAction click "https://a.com/" None]).
  - discriminate.
  - simpl. intros b [<-|[<-|[]]]; reflexivity.
Defined.

(** ** Extraction actions *)

Lemma in_combine_seq {A} (l : list A) : forall off a i,
  In (a, i) (combine l (seq off (List.length l))) <->
  off <= i /\ nth_error l (i - off) = Some a.
Proof.
  induction l as [|x l IH]; intros off a i; simpl.
  - split; [contradiction|]. intros [_ H]. destruct (i - off); discriminate.
  - rewrite IH. split.
    + intros [H|[Hle Hn]].
      * inversion H; subst. rewrite Nat.sub_diag. auto.
      * split; [lia|]. replace (i - off) with (S (i - S off)) by lia.
        exact Hn.
    + intros [Hle Hn]. destruct (i - off) as [|k] eqn:E.
      * left. simpl in Hn. inversion Hn. f_equal. lia.
      * right. split; [lia|]. replace (i - S off) with k by lia. exact Hn.
Qed.

Lemma map_snd_combine_seq {A} (l : list A) off :
  map snd (combine l (seq off (List.length l))) = seq off (List.length l).
Proof.
  revert off. induction l as [|x l IH]; intros off; simpl; [reflexivity|].
  now rewrite IH.
Qed.

Lemma filter_keeps_distinct_indices {A} (keep : A * nat -> bool) :
  forall pairs : list (A * nat),
    NoDup (map snd pairs) -> NoDup (map snd (filter keep pairs)).
Proof.
  intros pairs. induction pairs as [|[a i] pairs IH]; simpl; intros Hnd.
  - constructor.
  - inversion Hnd as [|? ? Hfresh Hrest]; subst.
    destruct (keep (a, i)); simpl; [constructor|]; auto.
    intros Hin. apply Hfresh. apply in_map_iff in Hin.
    destruct Hin as (q & Hq & Hin). apply filter_In in Hin.
    apply in_map_iff. exists q. tauto.
Qed.

(** C9 (amended). The [extractionActions] of [calculateMetrics] hold one
    entry for each action of type [copy], and for no other action, at that
    action's index; its context is the page title, the separator [" - "]
    and the whole target text, without truncation. *)
Theorem detectExtractionActions_copy_only
    (hostname : string -> option string) (acts : list Action) :
  (forall e, In e (extractionActions (calculateMetrics hostname acts)) <->
     exists a, nth_error acts (index e) = Some a /\ type a = copy /\
               context e = (pageTitle (metadata a) ++ " - " ++
                            text (target a))%string) /\
  NoDup (map index (extractionActions (calculateMetrics hostname acts))).
Proof.
  destruct (calculateMetrics_lists hostname acts) as (_ & _ & _ & ->).
  unfold detectExtractionActions, withIndex. split.
  - intros e. rewrite in_map_iff. split.
    + intros ([a i] & <- & Hin). apply filter_In in Hin.
      destruct Hin as [Hin Hc]. apply in_combine_seq in Hin.
      rewrite Nat.sub_0_r in Hin. exists a. simpl.
      destruct (ActionType_eqb_spec (type a) copy); [tauto|discriminate].
    + intros (a & Hn & Hc & Hctx). exists (a, index e). split.
      * destruct e as [i c]; simpl in *. now rewrite Hctx.
      * apply filter_In. split.
        -- apply in_combine_seq. rewrite Nat.sub_0_r. split; [lia|exact Hn].
        -- rewrite Hc. reflexivity.
  - rewrite map_map.
    rewrite (map_ext _ snd) by (intros [a i]; reflexivity).
    apply filter_keeps_distinct_indices. rewrite map_snd_combine_seq.
    apply seq_NoDup.
Qed.

(** ** Back-and-forth patterns *)

Section BackForth.

Variable acts : list Action.

Lemma window_remember i :
  i < List.length acts ->
  backForthRemember (windowAt acts i) (urlAt acts i) i
  = windowAt acts (S i).
Proof.
  intros _. unfold backForthRemember, windowAt.
  change [ {| visit_url := urlAt acts i; visit_index := i |} ]
    with (map (visitAt acts) [i]).
  rewrite <- map_app, length_map.
  destruct (Nat.lt_ge_cases i 10) as [Hlt|Hge].
  - replace (i - 10) with 0 by lia. replace (S i - 10) with 0 by lia.
    replace (Nat.min i 10) with i by lia.
    replace (Nat.min (S i) 10) with (S i) by lia.
    change [i] with [0 + i]. rewrite <- (seq_S i 0). rewrite length_seq.
    destruct (Nat.ltb_spec 10 (S i)); [lia|reflexivity].
  - replace (Nat.min i 10) with 10 by lia.
    replace (Nat.min (S i) 10) with 10 by lia.
    replace [i] with [(i - 10) + 10] by (f_equal; lia).
    rewrite <- (seq_S 10 (i - 10)). rewrite length_seq.
    destruct (Nat.ltb_spec 10 11); [|lia].
    replace (S i - 10) with (S (i - 10)) by lia. reflexivity.
Qed.

Lemma findWithIndex_window u L lo : forall b a k,
  a = lo + k ->
  findWithIndex
    (fun h idx => (visit_url h =? u)%string &&
                  (Z.of_nat idx <? Z.of_nat L - 1)%Z)
    (map (visitAt acts) (seq a b)) k
  = option_map (visitAt acts)
      (find (fun j => (urlAt acts j =? u)%string && (j + 1 <? lo + L))
            (seq a b)).
Proof.
  induction b as [|b IH]; intros a k Ha; simpl; [reflexivity|].
  assert (E : (Z.of_nat k <? Z.of_nat L - 1)%Z = (a + 1 <? lo + L)).
  { destruct (Z.ltb_spec (Z.of_nat k) (Z.of_nat L - 1)),
             (Nat.ltb_spec (a + 1) (lo + L)); try reflexivity; lia. }
  rewrite E.
  destruct ((urlAt acts a =? u)%string && (a + 1 <? lo + L));
    [reflexivity|].
  apply IH. lia.
Qed.

Lemma findIndex_window j0 : forall b a,
  a <= j0 < a + b ->
  findIndex (UrlVisit_eqb (visitAt acts j0)) (map (visitAt acts) (seq a b))
  = Z.of_nat (j0 - a).
Proof.
  induction b as [|b IH]; intros a Hr; [lia|]. simpl.
  unfold UrlVisit_eqb at 1. simpl.
  destruct (Nat.eqb_spec j0 a) as [->|Hne].
  - rewrite String.eqb_refl, Nat.sub_diag. reflexivity.
  - rewrite andb_false_r. rewrite IH by lia.
    destruct (Z.ltb_spec (Z.of_nat (j0 - S a)) 0); lia.
Qed.

Lemma emit_window i patterns :
  backForthEmit (windowAt acts i) (urlAt acts i) i patterns
  = (patterns ++ emittedAt acts i)%list.
Proof.
  unfold backForthEmit, emittedAt, oldestQualifying, windowAt.
  rewrite (findWithIndex_window _ _ (i - 10) _ _ 0) by lia.
  rewrite length_map, length_seq.
  replace (i - 10 + Nat.min i 10) with i by lia.
  fold (qualifyingb acts i).
  destruct (find (qualifyingb acts i) (seq (i - 10) (Nat.min i 10)))
    as [j0|] eqn:Hf; simpl; [|now rewrite app_nil_r].
  apply find_some in Hf. destruct Hf as [Hin Hq].
  apply in_seq in Hin. unfold qualifyingb in Hq.
  apply andb_true_iff in Hq. destruct Hq as [_ Hq].
  apply Nat.ltb_lt in Hq.
  destruct (Nat.ltb_spec 0 (Nat.min i 10)); [|lia].
  rewrite findIndex_window by lia.
  replace (Z.to_nat (Z.of_nat (j0 - (i - 10)) + 1))
    with (S (j0 - (i - 10))) by lia.
  rewrite skipn_map, skipn_seq, map_map. simpl visit_index.
  rewrite map_id, length_seq.
  replace (i - 10 + S (j0 - (i - 10))) with (S j0) by lia.
  replace (Nat.min i 10 - S (j0 - (i - 10))) with (i - S j0) by lia.
  destruct (Nat.ltb_spec 0 (i - S j0)); [|lia].
  do 3 f_equal.
  replace (i - j0) with (S (i - S j0)) by lia.
  rewrite (seq_S (i - S j0) (S j0)).
  do 3 f_equal. lia.
Qed.

Lemma backForthLoop_emitted : forall rest i patterns,
  skipn i acts = rest ->
  backForthLoop i rest (windowAt acts i) patterns
  = (patterns ++ flat_map (emittedAt acts) (seq i (List.length rest)))%list.
Proof.
  induction rest as [|a rest IH]; intros i patterns Hskip.
  - simpl. now rewrite app_nil_r.
  - destruct (skipn_cons_nth _ _ _ _ Hskip) as [Ha Hskip'].
    assert (Hu : url a = urlAt acts i) by (unfold urlAt; now rewrite Ha).
    assert (Hi : i < List.length acts)
      by (apply nth_error_Some; congruence).
    cbn [backForthLoop]. rewrite Hu, window_remember, emit_window by auto.
    rewrite IH by assumption. simpl. now rewrite <- app_assoc.
Qed.

Lemma detectBackForthPatterns_emitted :
  detectBackForthPatterns acts
  = flat_map (emittedAt acts) (seq 0 (List.length acts)).
Proof.
  unfold detectBackForthPatterns.
  exact (backForthLoop_emitted acts 0 [] eq_refl).
Qed.

End BackForth.

Lemma find_seq_least (f : nat -> bool) : forall b a j,
  find f (seq a b) = Some j -> forall j', a <= j' < j -> f j' = false.
Proof.
  induction b as [|b IH]; intros a j Hf j' Hr; [discriminate|].
  simpl in Hf. destruct (f a) eqn:Ea.
  - inversion Hf; subst. lia.
  - destruct (Nat.eq_dec j' a) as [->|Hne]; [assumption|].
    apply (IH (S a) j Hf). lia.
Qed.

Lemma qualifying_iff acts i j :
  qualifying acts i j <->
  i < List.length acts /\
  In j (seq (i - 10) (Nat.min i 10)) /\ qualifyingb acts i j = true.
Proof.
  unfold qualifying, qualifyingb. rewrite in_seq, andb_true_iff.
  rewrite String.eqb_eq, Nat.ltb_lt. split.
  - intros (H1 & H2 & H3 & H4). repeat split; auto; lia.
  - intros (H1 & H2 & H3 & H4). repeat split; auto; lia.
Qed.

Lemma emittedAt_shape acts i p :
  In p (emittedAt acts i) ->
  exists j0, oldestQualifying acts i = Some j0 /\ j0 + 1 < i /\
             indices p = seq j0 (S (i - j0)) /\ last (indices p) 0 = i.
Proof.
  unfold emittedAt. destruct (oldestQualifying acts i) as [j0|] eqn:E;
    [|contradiction].
  intros [<-|[]]. exists j0. unfold oldestQualifying in E.
  apply find_some in E. destruct E as [_ E]. unfold qualifyingb in E.
  apply andb_true_iff in E. destruct E as [_ E]. apply Nat.ltb_lt in E.
  repeat split; auto. cbn [indices].
  rewrite seq_S, last_last. lia.
Qed.

Lemma emittedAt_ending acts i k :
  filter (fun p => last (indices p) 0 =? k) (emittedAt acts i)
  = if i =? k then emittedAt acts i else [].
Proof.
  destruct (emittedAt acts i) as [|p rest] eqn:E.
  - now destruct (i =? k).
  - assert (Hp : In p (emittedAt acts i)) by (rewrite E; left; reflexivity).
    apply emittedAt_shape in Hp. destruct Hp as (j0 & _ & _ & _ & Hl).
    assert (Hrest : rest = []).
    { unfold emittedAt in E. destruct (oldestQualifying acts i);
        [|discriminate]. now injection E. }
    subst rest. simpl. rewrite Hl. now destruct (i =? k).
Qed.

Lemma emitted_ending acts k : forall b a,
  filter (fun p => last (indices p) 0 =? k)
         (flat_map (emittedAt acts) (seq a b))
  = if (a <=? k) && (k <? a + b) then emittedAt acts k else [].
Proof.
  induction b as [|b IH]; intros a.
  - simpl. destruct (Nat.leb_spec a k), (Nat.ltb_spec k (a + 0));
      try reflexivity; lia.
  - cbn [seq flat_map]. rewrite filter_app, emittedAt_ending, IH.
    destruct (Nat.eqb_spec a k) as [->|Hne].
    + destruct (Nat.leb_spec (S k) k); [lia|].
      destruct (Nat.leb_spec k k); [|lia].
      destruct (Nat.ltb_spec k (k + S b)); [|lia].
      simpl. now rewrite app_nil_r.
    + destruct (Nat.leb_spec a k), (Nat.leb_spec (S a) k),
               (Nat.ltb_spec k (a + S b)), (Nat.ltb_spec k (S a + b));
        try reflexivity; lia.
Qed.

(** C2 (amended). When the URL of the action at index [i] equals one or
    more qualifying entries of the ten-entry window (entries other than the
    one just before [i]), exactly one pattern ends at [i]: among the
    [backForthPatterns] of [calculateMetrics], those whose last index is
    [i] form a list of one element.  That pattern is anchored at the
    oldest qualifying entry [j0]: its indices are [j0, j0 + 1, ..., i],
    and no qualifying entry is older than [j0]. *)
Theorem backForth_anchored_at_oldest
    (hostname : string -> option string) (acts : list Action) (i j : nat) :
  qualifying acts i j ->
  exists j0,
    j0 <= j /\ qualifying acts i j0 /\
    (forall j', qualifying acts i j' -> j0 <= j') /\
    filter (fun p => last (indices p) 0 =? i)
           (backForthPatterns (calculateMetrics hostname acts))
    = [ {| indices := seq j0 (S (i - j0)) |} ] /\
    In {| indices := seq j0 (S (i - j0)) |} (detectBackForthPatterns acts) /\
    (forall p, In p (detectBackForthPatterns acts) ->
       last (indices p) 0 = i -> indices p = seq j0 (S (i - j0))).
Proof.
  intros Hq. pose proof Hq as Hq'. apply qualifying_iff in Hq'.
  destruct Hq' as (Hi & Hin & Hb).
  destruct (oldestQualifying acts i) as [j0|] eqn:E.
  2:{ unfold oldestQualifying in E.
      rewrite (find_none _ _ E j Hin) in Hb. discriminate. }
  assert (Hleast : forall j', qualifying acts i j' -> j0 <= j').
  { intros j' Hj'. apply qualifying_iff in Hj'.
    destruct Hj' as (_ & Hin' & Hb'). apply in_seq in Hin'.
    destruct (Nat.le_gt_cases j0 j') as [|Hlt]; [assumption|].
    unfold oldestQualifying in E.
    rewrite (find_seq_least _ _ _ _ E j') in Hb' by lia. discriminate. }
  exists j0. split; [auto|]. split; [|split; [exact Hleast|split; [|split]]].
  - unfold oldestQualifying in E. apply find_some in E.
    apply qualifying_iff. tauto.
  - destruct (calculateMetrics_lists hostname acts) as (_ & -> & _).
    rewrite detectBackForthPatterns_emitted, emitted_ending.
    destruct (Nat.leb_spec 0 i); [|lia].
    destruct (Nat.ltb_spec i (0 + List.length acts)); [|simpl in *; lia].
    unfold emittedAt. rewrite E. reflexivity.
  - rewrite detectBackForthPatterns_emitted. apply in_flat_map.
    exists i. split; [apply in_seq; lia|].
    unfold emittedAt. rewrite E. left; reflexivity.
  - intros p Hp Hlast. rewrite detectBackForthPatterns_emitted in Hp.
    apply in_flat_map in Hp. destruct Hp as (i' & _ & Hp).
    apply emittedAt_shape in Hp.
    destruct Hp as (j1 & E1 & _ & Hshape & Hl).
    assert (Hi' : i' = i) by congruence. rewrite Hi' in E1, Hshape.
    rewrite E in E1. injection E1 as <-. exact Hshape.
Qed.

Lemma backForth_anchored_at_oldest_witness :
  exists j0,
    j0 <= 2 /\
    qualifying (map (fun u => sampleAction navigation u None)
                    ["A"; "B"; "A"; "B"; "A"]) 4 j0 /\
    (forall j', qualifying (map (fun u => sampleAction navigation u None)
                    ["A"; "B"; "A"; "B"; "A"]) 4 j' -> j0 <= j') /\
    filter (fun p => last (indices p) 0 =? 4)
           (backForthPatterns
              (calculateMetrics simpleHostname
                 (map (fun u => sampleAction navigation u None)
                      ["A"; "B"; "A"; "B"; "A"])))
    = [ {| indices := seq j0 (S (4 - j0)) |} ] /\
    In {| indices := seq j0 (S (4 - j0)) |}
       (detectBackForthPatterns
          (map (fun u => sampleAction navigation u None)
               ["A"; "B"; "A"; "B"; "A"])) /\
    (forall p, In p (detectBackForthPatterns
          (map (fun u => sampleAction navigation u None)
               ["A"; "B"; "A"; "B"; "A"])) ->
       last (indices p) 0 = 4 -> indices p = seq j0 (S (4 - j0))).
Proof.
  apply (backForth_anchored_at_oldest simpleHostname
           (map (fun u => sampleAction navigation u None)
                ["A"; "B"; "A"; "B"; "A"]) 4 2).
  unfold qualifying. simpl. repeat split; lia.
Defined.

(** C2 as stated fails on the visits A, B, A, B, A: at index 4 both index 0
    and index 2 qualify, index 2 is the nearest, and the pattern that ends
    at index 4 starts at index 0. *)
Lemma backForth_nearest_counterexample :
  let acts := map (fun u => sampleAction navigation u None)
                  ["A"; "B"; "A"; "B"; "A"] in
  qualifying acts 4 0 /\ qualifying acts 4 2 /\
  map indices (detectBackForthPatterns acts)
    = [[0; 1; 2]; [1; 2; 3]; [0; 1; 2; 3; 4]] /\
  ~ (forall p j, In p (detectBackForthPatterns acts) ->
       qualifying acts (last (indices p) 0) j -> j <= hd 0 (indices p)).
Proof.
  intros acts0.
  assert (Q2 : qualifying acts0 4 2)
    by (unfold qualifying; simpl; repeat split; lia).
  split; [unfold qualifying; simpl; repeat split; lia|].
  split; [exact Q2|]. split; [reflexivity|].
  intros H.
  specialize (H {| indices := [0; 1; 2; 3; 4] |} 2).
  simpl in H. assert (2 <= 0); [|lia].
  apply H; [|exact Q2]. right; right; left; reflexivity.
Qed.

(** ** Facts about strings *)

Lemma append_length (a b : string) :
  String.length (a ++ b) = String.length a + String.length b.
Proof. induction a as [|c a IH]; simpl; [reflexivity|]. now rewrite IH. Qed.

Lemma append_assoc (a b c : string) : ((a ++ b) ++ c = a ++ (b ++ c))%string.
Proof. induction a as [|x a IH]; simpl; [reflexivity|]. now rewrite IH. Qed.

Lemma append_nil_r (a : string) : (a ++ "")%string = a.
Proof. induction a as [|x a IH]; simpl; [reflexivity|]. now rewrite IH. Qed.

Lemma substring_length_le : forall s n m,
  String.length (substring n m s) <= m.
Proof.
  induction s as [|c s IH]; intros n m.
  - destruct n, m; simpl; lia.
  - destruct n as [|n]; simpl.
    + destruct m as [|m]; simpl; [lia|]. specialize (IH 0 m). lia.
    + apply IH.
Qed.

Lemma filler_length n : String.length (filler n) = n.
Proof. induction n as [|n IH]; simpl; [reflexivity|]. now rewrite IH. Qed.

(** C9 as stated fails: no bound [b] makes the context end in
    [text.slice(0, b)]; a copied text of [b + 1] characters appears in the
    context in full. *)
Lemma extraction_context_truncated_counterexample :
  ~ exists bound : nat,
      forall acts e,
        In e (extractionActions (calculateMetrics simpleHostname acts)) ->
        exists a, nth_error acts (index e) = Some a /\
          context e = (pageTitle (metadata a) ++ " - " ++
                       substring 0 bound (text (target a)))%string.
Proof.
  intros [bound H].
  destruct (H [copyOf (filler (S bound))]
              {| index := 0;
                 context := ("Page" ++ " - " ++ filler (S bound))%string |})
    as (a & Ha & Hctx).
  - left. reflexivity.
  - simpl in Ha. injection Ha as <-. cbn [context copyOf metadata pageTitle
      target text] in Hctx.
    apply (f_equal String.length) in Hctx.
    rewrite !append_length, filler_length in Hctx.
    pose proof (substring_length_le (String "x" (filler bound)) 0 bound).
    lia.
Qed.

(** ** The fallback chain of [complete] *)

Section CompleteFacts.

Variable config : LLMConfig.
Variable callModel : list ProviderCall -> ProviderCall -> Outcome string.
Variable prompt : string.
Variable options : CompletionOptions.

Local Abbreviation req := (requestFor config prompt options).
Local Abbreviation throws := (allThrow config callModel prompt options).
Local Abbreviation try := (tryModels config callModel prompt options).

Lemma tryModels_allThrow : forall ms msgs errors log,
  throws log ms msgs ->
  try ms errors log
  = (Thrown (allFailedMessage config (errors ++ combine ms msgs)),
     (log ++ map req ms)%list).
Proof.
  induction ms as [|m ms IH]; intros msgs errors log H.
  - destruct msgs; [|contradiction]. simpl. now rewrite !app_nil_r.
  - destruct msgs as [|e msgs]; [contradiction|]. destruct H as [He H].
    cbn [tryModels]. rewrite He. rewrite (IH msgs _ _ H).
    cbn [combine map]. now rewrite <- !app_assoc.
Qed.

Lemma tryModels_first_success : forall pre msgs m post result errors log,
  throws log pre msgs ->
  callModel (log ++ map req pre)%list (req m) = Returned result ->
  try (pre ++ m :: post)%list errors log
  = (Returned result, (log ++ map req (pre ++ [m]))%list).
Proof.
  induction pre as [|x pre IH]; intros msgs m post result errors log H Hr.
  - simpl in *. rewrite app_nil_r in Hr. now rewrite Hr.
  - destruct msgs as [|e msgs]; [contradiction|]. destruct H as [He H].
    cbn [app tryModels]. rewrite He.
    rewrite (IH msgs m post result _ _ H).
    + cbn [map app]. now rewrite <- !app_assoc.
    + cbn [map] in Hr. rewrite <- app_assoc. exact Hr.
Qed.

End CompleteFacts.

Lemma failureLines_combine : forall attempted messages,
  failureLines attempted messages
  = map (fun e => (fst e ++ ": " ++ snd e)%string)
        (combine attempted messages).
Proof.
  induction attempted as [|m attempted IH]; intros [|e messages];
    try reflexivity.
  simpl. now rewrite IH.
Qed.

Lemma failureLines_nth config callModel prompt options :
  forall attempted messages log,
    allThrow config callModel prompt options log attempted messages ->
    List.length (failureLines attempted messages) = List.length attempted /\
    (forall k model,
       nth_error attempted k = Some model ->
       exists message,
         nth_error messages k = Some message /\
         callModel (log ++ map (requestFor config prompt options)
                               (firstn k attempted))%list
                   (requestFor config prompt options model)
         = Thrown message /\
         nth_error (failureLines attempted messages) k
         = Some (model ++ ": " ++ message)%string).
Proof.
  induction attempted as [|m attempted IH]; intros [|e messages] log H;
    try contradiction.
  - split; [reflexivity|]. intros [|k] model Hk; discriminate.
  - destruct H as [He H]. destruct (IH messages _ H) as [Hlen Hnth].
    split; [simpl; now rewrite Hlen|].
    intros [|k] model Hk.
    + injection Hk as <-. exists e. simpl. rewrite app_nil_r. auto.
    + destruct (Hnth k model Hk) as (message & H1 & H2 & H3).
      exists message. cbn [firstn map nth_error failureLines].
      rewrite <- app_assoc in H2. auto.
Qed.

(** C3. If every model of the configured list throws when tried in turn,
    [complete] throws one error whose message is the header followed by
    the lines [model: message], separated by a line break and two spaces:
    there is one line for each model of the list, in the order of the
    list, and the line of a model carries the message that model's own
    attempt threw; every model has been tried once.  If the models before
    some model [m] throw and [m] returns, [complete] returns the result of
    [m], and the requests made are those for the models up to [m]: no
    later model is tried. *)
Theorem complete_fallback_chain
    (config : LLMConfig)
    (callModel : list ProviderCall -> ProviderCall -> Outcome string)
    (prompt : string) (options : CompletionOptions)
    (log : list ProviderCall) :
  (forall msgs,
     allThrow config callModel prompt options log (models config) msgs ->
     complete config callModel prompt options log
     = (Thrown ("All " ++ providerName (provider config) ++
                " models failed:" ++ nl ++ "  " ++
                join (nl ++ "  ") (failureLines (models config) msgs)),
        (log ++ map (requestFor config prompt options) (models config))%list)
     /\
     List.length (failureLines (models config) msgs)
     = List.length (models config) /\
     (forall k model,
        nth_error (models config) k = Some model ->
        exists message,
          nth_error msgs k = Some message /\
          callModel (log ++ map (requestFor config prompt options)
                                (firstn k (models config)))%list
                    (requestFor config prompt options model)
          = Thrown message /\
          nth_error (failureLines (models config) msgs) k
          = Some (model ++ ": " ++ message)%string))
  /\
  (forall pre m post msgs result,
     models config = (pre ++ m :: post)%list ->
     allThrow config callModel prompt options log pre msgs ->
     callModel (log ++ map (requestFor config prompt options) pre)%list
               (requestFor config prompt options m) = Returned result ->
     complete config callModel prompt options log
     = (Returned result,
        (log ++ map (requestFor config prompt options) (pre ++ [m]))%list)).
Proof.
  split.
  - intros msgs H. split.
    + unfold complete.
      rewrite (tryModels_allThrow _ _ _ _ _ msgs [] log H).
      unfold allFailedMessage. cbn [app].
      now rewrite failureLines_combine.
    + exact (failureLines_nth config callModel prompt options _ _ _ H).
  - intros pre m post msgs result Hm H Hr. unfold complete. rewrite Hm.
    exact (tryModels_first_success _ _ _ _ pre msgs m post result [] log H Hr).
Qed.

Lemma complete_fallback_chain_witness :
  complete sampleConfig failingProvider "hello"
    {| systemPrompt := None; maxTokens := None; temperature := None |} []
  = (Thrown ("All openai models failed:" ++ nl ++
             "  gpt-4o: unavailable: gpt-4o" ++ nl ++
             "  gpt-4o-mini: unavailable: gpt-4o-mini" ++ nl ++
             "  gpt-4-turbo: unavailable: gpt-4-turbo"),
     map (requestFor sampleConfig "hello"
            {| systemPrompt := None; maxTokens := None; temperature := None |})
         ["gpt-4o"; "gpt-4o-mini"; "gpt-4-turbo"])
  /\
  complete sampleConfig sampleProvider "hello"
    {| systemPrompt := None; maxTokens := None; temperature := None |} []
  = (Returned "<chunks>not json</chunks>",
     map (requestFor sampleConfig "hello"
            {| systemPrompt := None; maxTokens := None; temperature := None |})
         ["gpt-4o"; "gpt-4o-mini"]).
Proof.
  split.
  - refine (proj1 (proj1 (complete_fallback_chain sampleConfig failingProvider
             "hello"
             {| systemPrompt := None; maxTokens := None; temperature := None |}
             [])
             ["unavailable: gpt-4o"; "unavailable: gpt-4o-mini";
              "unavailable: gpt-4-turbo"] _)).
    simpl. auto.
  - apply (proj2 (complete_fallback_chain sampleConfig sampleProvider "hello"
             {| systemPrompt := None; maxTokens := None; temperature := None |}
             [])
             ["gpt-4o"] "gpt-4o-mini" ["gpt-4-turbo"] ["rate limited"]
             "<chunks>not json</chunks>").
    + reflexivity.
    + simpl. auto.
    + reflexivity.
Defined.

(** ** The pipeline on empty and on degraded input *)

(** C4. For the empty action list [calculateMetrics] returns metrics whose
    counts are 0 and whose lists are empty, and [generateDocumentation] on
    a task without actions returns the fixed empty result and leaves the
    log of provider requests as it was: no generation call is made. *)
Theorem empty_actions_empty_result
    (hostname : string -> option string) (tx : Texts) (config : LLMConfig)
    (callModel : list ProviderCall -> ProviderCall -> Outcome string)
    (id : string) (log : list ProviderCall) :
  calculateMetrics hostname []
  = {| totalActions := 0;
       totalDurationMs := 0;
       longPauses := [];
       backForthPatterns := [];
       repeatedActions := [];
       extractionActions := [];
       urlChanges := 0;
       uniqueDomains := [] |} /\
  generateDocumentation hostname tx config callModel
    {| task_id := id; task_actions := [] |} log
  = (Returned createEmptyResult, log) /\
  result_chunks createEmptyResult = [] /\
  result_metrics createEmptyResult = calculateMetrics hostname [].
Proof. repeat split. Qed.

Lemma prefix_drop : forall p s,
  prefix p s = true -> s = (p ++ drop (String.length p) s)%string.
Proof.
  induction p as [|c p IH]; intros s H.
  - destruct s; reflexivity.
  - destruct s as [|d s]; [discriminate|]. simpl in H.
    destruct (ascii_dec c d) as [->|]; [|discriminate].
    simpl. f_equal. apply IH, H.
Qed.

Lemma cut_sound needle : forall s a b,
  cut needle s = Some (a, b) -> s = (a ++ needle ++ b)%string.
Proof.
  induction s as [|c s IH]; intros a b H.
  - cbn [cut] in H. destruct (prefix needle ""%string) eqn:E; [|discriminate].
    inversion H; subst. simpl. apply prefix_drop, E.
  - cbn [cut] in H. destruct (prefix needle (String c s)) eqn:E.
    + inversion H; subst. simpl. apply prefix_drop, E.
    + destruct (cut needle s) as [[a' b']|] eqn:Ec; [|discriminate].
      inversion H; subst. simpl. f_equal. apply IH. reflexivity.
Qed.

Lemma matchDelimited_sound open close s body :
  matchDelimited open close s = Some body ->
  exists a c, s = (a ++ open ++ body ++ close ++ c)%string.
Proof.
  unfold matchDelimited.
  destruct (cut open s) as [[a rest]|] eqn:E1; [|discriminate].
  destruct (cut close rest) as [[b c]|] eqn:E2; [|discriminate].
  intros H; inversion H; subst. exists a, c.
  apply cut_sound in E1, E2. now rewrite E1, E2.
Qed.

Lemma parseChunkerResponse_degrades tx response :
  noParseableChunks tx response ->
  chunker_chunks (parseChunkerResponse tx response) = json_array [].
Proof.
  intros [Habs|(body & Hm & Hp)]; unfold parseChunkerResponse; simpl.
  - destruct (matchDelimited "<chunks>" "</chunks>" response) as [body|] eqn:E;
      [|reflexivity].
    exfalso. apply Habs. apply matchDelimited_sound in E.
    destruct E as (a & c & E). exists a, body, c. exact E.
  - rewrite Hm, Hp. reflexivity.
Qed.

(** The run of [generateDocumentation] on a task with actions, stage by
    stage. *)
Lemma generateDocumentation_stages
    (hostname : string -> option string) (tx : Texts) (config : LLMConfig)
    (callModel : list ProviderCall -> ProviderCall -> Outcome string)
    (task : TaskSession) (log : list ProviderCall) :
  task_actions task <> [] ->
  let acts := task_actions task in
  let chunker := chunkerPromptOf hostname tx acts in
  generateDocumentation hostname tx config callModel task log
  = match complete config callModel (snd chunker)
            (stageOptions (fst chunker) 2048) log with
    | (Thrown e, log1) => (Thrown e, log1)
    | (Returned chunkerResponse, log1) =>
        match toActionChunks acts
                (chunker_chunks (parseChunkerResponse tx chunkerResponse)) with
        | Thrown e => (Thrown e, log1)
        | Returned chunks_ =>
            let analyzer := analyzerPromptOf hostname tx acts chunks_ in
            match complete config callModel (snd analyzer)
                    (stageOptions (fst analyzer) 2048) log1 with
            | (Thrown e, log2) => (Thrown e, log2)
            | (Returned analyzerResponse, log2) =>
                let k := analyzer_knowHow
                           (parseAnalyzerResponse tx analyzerResponse) in
                match toKnowHow k with
                | Thrown e => (Thrown e, log2)
                | Returned knowHow_ =>
                    let generator :=
                      generatorPromptOf hostname tx acts chunks_ k in
                    match complete config callModel (snd generator)
                            (stageOptions (fst generator) 4096) log2 with
                    | (Thrown e, log3) => (Thrown e, log3)
                    | (Returned generatorResponse, log3) =>
                        (Returned
                           {| result_chunks := chunks_;
                              result_metrics :=
                                calculateMetrics hostname acts;
                              result_knowHow := knowHow_;
                              result_output :=
                                toOutput
                                  (parseGeneratorResponse
                                     generatorResponse) |},
                         log3)
                    end
                end
            end
        end
    end.
Proof.
  intros Hne acts chunker. subst chunker acts.
  unfold generateDocumentation, chunkerPromptOf, analyzerPromptOf,
    generatorPromptOf.
  assert (Hlen : (List.length (task_actions task) =? 0) = false).
  { destruct (task_actions task); [congruence|reflexivity]. }
  rewrite Hlen.
  destruct (buildChunkerPrompt tx _ _) as [chunkerSystem chunkerUser].
  cbn [fst snd]. unfold bind at 1.
  destruct (complete config callModel chunkerUser _ log)
    as [[r1|e1] log1]; [|reflexivity].
  unfold bind at 1, settle at 1.
  destruct (toActionChunks _ _) as [chunks_|e]; [|reflexivity].
  cbv zeta.
  destruct (buildAnalyzerPrompt tx _ _ _) as [analyzerSystem analyzerUser].
  cbn [fst snd]. unfold bind at 1.
  destruct (complete config callModel analyzerUser _ log1)
    as [[r2|e2] log2]; [|reflexivity].
  unfold bind at 1, settle at 1.
  destruct (toKnowHow _) as [knowHow_|e]; [|reflexivity].
  destruct (buildGeneratorPrompt tx _ _ _)
    as [generatorSystem generatorUser].
  cbn [fst snd]. unfold bind at 1.
  destruct (complete config callModel generatorUser _ log2)
    as [[r3|e3] log3]; reflexivity.
Qed.

(** C5. When the segmenter response holds no parseable [<chunks>] block,
    [parseChunkerResponse] returns an empty chunk list, its conversion
    does not throw, and [generateDocumentation] goes on with
    [chunks = []]: the extractor and renderer prompts are built from the
    serialisation of the empty list; when the later stages succeed (both
    calls return and the know-how converts), the run returns a result
    whose [chunks] are empty; and a run that throws does so in a later
    stage, in the extractor call, in the conversion of the know-how or in
    the renderer call. *)
Theorem unparseable_chunks_degrade
    (hostname : string -> option string) (tx : Texts) (config : LLMConfig)
    (callModel : list ProviderCall -> ProviderCall -> Outcome string)
    (task : TaskSession) (response : string)
    (log log1 : list ProviderCall) :
  let metrics := calculateMetrics hostname (task_actions task) in
  let actionsJson := formatActionsForLLM tx (task_actions task) in
  let metricsJson := formatMetricsForLLM tx metrics in
  let chunksJson := JSON_stringify_chunks tx [] in
  let chunker := buildChunkerPrompt tx actionsJson metricsJson in
  let analyzer := buildAnalyzerPrompt tx chunksJson actionsJson metricsJson in
  let parsed := fun analyzerResponse =>
    analyzer_knowHow (parseAnalyzerResponse tx analyzerResponse) in
  let generator := fun analyzerResponse =>
    buildGeneratorPrompt tx chunksJson
      (JSON_stringify_knowHow tx (parsed analyzerResponse)) metricsJson in
  noParseableChunks tx response ->
  task_actions task <> [] ->
  complete config callModel (snd chunker) (stageOptions (fst chunker) 2048) log
    = (Returned response, log1) ->
  chunker_chunks (parseChunkerResponse tx response) = json_array [] /\
  toActionChunks (task_actions task)
    (chunker_chunks (parseChunkerResponse tx response)) = Returned [] /\
  (forall analyzerResponse generatorResponse knowHow_ log2 log3,
     complete config callModel (snd analyzer)
       (stageOptions (fst analyzer) 2048) log1
       = (Returned analyzerResponse, log2) ->
     toKnowHow (parsed analyzerResponse) = Returned knowHow_ ->
     complete config callModel (snd (generator analyzerResponse))
       (stageOptions (fst (generator analyzerResponse)) 4096) log2
       = (Returned generatorResponse, log3) ->
     generateDocumentation hostname tx config callModel task log
     = (Returned
          {| result_chunks := [];
             result_metrics := metrics;
             result_knowHow := knowHow_;
             result_output :=
               toOutput (parseGeneratorResponse generatorResponse) |},
        log3)) /\
  (forall e log',
     generateDocumentation hostname tx config callModel task log
       = (Thrown e, log') ->
     complete config callModel (snd analyzer)
       (stageOptions (fst analyzer) 2048) log1 = (Thrown e, log') \/
     (exists analyzerResponse,
        complete config callModel (snd analyzer)
          (stageOptions (fst analyzer) 2048) log1
          = (Returned analyzerResponse, log') /\
        toKnowHow (parsed analyzerResponse) = Thrown e) \/
     (exists analyzerResponse log2,
        complete config callModel (snd analyzer)
          (stageOptions (fst analyzer) 2048) log1
          = (Returned analyzerResponse, log2) /\
        complete config callModel (snd (generator analyzerResponse))
          (stageOptions (fst (generator analyzerResponse)) 4096) log2
          = (Thrown e, log'))).
Proof.
  intros metrics actionsJson metricsJson chunksJson chunker analyzer parsed
    generator Hno Hne H1.
  pose proof (parseChunkerResponse_degrades tx response Hno) as Hc.
  assert (Hconv : toActionChunks (task_actions task)
                    (chunker_chunks (parseChunkerResponse tx response))
                  = Returned []) by (rewrite Hc; reflexivity).
  split; [exact Hc|]. split; [exact Hconv|].
  pose proof (generateDocumentation_stages hostname tx config callModel task
                log Hne) as Hrun.
  cbv zeta in Hrun.
  change (chunkerPromptOf hostname tx (task_actions task)) with chunker
    in Hrun.
  rewrite H1, Hconv in Hrun.
  change (analyzerPromptOf hostname tx (task_actions task) []) with analyzer
    in Hrun.
  split.
  - intros analyzerResponse generatorResponse knowHow_ log2 log3 H2 Hk H3.
    rewrite Hrun, H2. fold (parsed analyzerResponse). rewrite Hk.
    change (generatorPromptOf hostname tx (task_actions task) []
              (parsed analyzerResponse))
      with (generator analyzerResponse).
    rewrite H3. reflexivity.
  - intros e log' Hthrown. rewrite Hrun in Hthrown.
    destruct (complete config callModel (snd analyzer) _ log1)
      as [[analyzerResponse|e2] log2] eqn:E2.
    2:{ left. injection Hthrown as <- <-. reflexivity. }
    right. fold (parsed analyzerResponse) in Hthrown.
    destruct (toKnowHow (parsed analyzerResponse)) as [knowHow_|ek] eqn:Ek.
    2:{ left. exists analyzerResponse. injection Hthrown as <- <-. auto. }
    right. exists analyzerResponse, log2. split; [reflexivity|].
    change (generatorPromptOf hostname tx (task_actions task) []
              (parsed analyzerResponse))
      with (generator analyzerResponse) in Hthrown.
    destruct (complete config callModel (snd (generator analyzerResponse)) _
                log2) as [[r3|e3] log3]; [discriminate|].
    injection Hthrown as <- <-. reflexivity.
Qed.

Lemma unparseable_chunks_degrade_witness :
  fst (generateDocumentation simpleHostname sampleTexts sampleConfig
         sampleProvider
         {| task_id := "t1";
            task_actions := [sampleAction click "https://a.com/" None] |} [])
  = Returned
      {| result_chunks := [];
         result_metrics :=
           calculateMetrics simpleHostname
             [sampleAction click "https://a.com/" None];
         result_knowHow :=
           {| decisionCriteria := [];
              successSignals := [];
              failureSignals := [];
              criticalFields := [];
              cornerCases := [];
              expertShortcuts := [] |};
         result_output :=
           {| summary := ""; instructions := ""; knowHow := "";
              rawMarkdown := "<chunks>not json</chunks>" |} |}.
Proof.
  destruct (unparseable_chunks_degrade simpleHostname sampleTexts
              sampleConfig sampleProvider
              {| task_id := "t1";
                 task_actions := [sampleAction click "https://a.com/" None] |}
              "<chunks>not json</chunks>" []
              (map (requestFor sampleConfig "[actions]{metrics}"
                      (stageOptions "chunker" 2048))
                   ["gpt-4o"; "gpt-4o-mini"]))
    as (_ & _ & H & _).
  - right. exists "not json". split; reflexivity.
  - discriminate.
  - reflexivity.
  - refine (f_equal fst
              (H "<chunks>not json</chunks>" "<chunks>not json</chunks>"
                 {| decisionCriteria := [];
                    successSignals := [];
                    failureSignals := [];
                    criticalFields := [];
                    cornerCases := [];
                    expertShortcuts := [] |} _ _ eq_refl eq_refl eq_refl)).
Defined.

(** ** Parsing the rendered document *)

Lemma prefix_nil s : prefix "" s = true.
Proof. destruct s; reflexivity. Qed.

Lemma prefix_app p r : prefix p (p ++ r) = true.
Proof.
  induction p as [|c p IH]; simpl; [destruct r; reflexivity|].
  destruct (ascii_dec c c); [exact IH|congruence].
Qed.

Lemma drop_app p r : drop (String.length p) (p ++ r) = r.
Proof. induction p as [|c p IH]; simpl; [destruct r; reflexivity|exact IH]. Qed.

Lemma startsWithin_app needle : forall a b r,
  startsWithin needle (a ++ b) r
  = startsWithin needle a (b ++ r) || startsWithin needle b r.
Proof.
  induction a as [|c a IH]; intros b r; simpl; [reflexivity|].
  rewrite IH, append_assoc, orb_assoc. reflexivity.
Qed.

Lemma cut_skip needle : forall pre rest,
  startsWithin needle pre rest = false ->
  cut needle (pre ++ rest)
  = match cut needle rest with
    | Some (a, b) => Some ((pre ++ a)%string, b)
    | None => None
    end.
Proof.
  induction pre as [|c pre IH]; intros rest H.
  - simpl. destruct (cut needle rest) as [[a b]|]; reflexivity.
  - cbn [startsWithin] in H. apply orb_false_iff in H. destruct H as [Hp Hs].
    cbn [append cut]. cbn [append] in Hp. rewrite Hp, (IH rest Hs).
    destruct (cut needle rest) as [[a b]|]; reflexivity.
Qed.

Lemma cut_here needle post :
  cut needle (needle ++ post) = Some (""%string, post).
Proof.
  destruct (needle ++ post)%string eqn:E; cbn [cut]; rewrite <- E;
    rewrite prefix_app, drop_app; reflexivity.
Qed.

Lemma cut_first needle pre post :
  startsWithin needle pre (needle ++ post) = false ->
  cut needle (pre ++ needle ++ post) = Some (pre, post).
Proof.
  intros H. rewrite (cut_skip _ _ _ H), cut_here, append_nil_r. reflexivity.
Qed.

Lemma lazyUntil_skip stops : forall pre rest,
  (forall stop, In stop stops -> startsWithin stop pre rest = false) ->
  lazyUntil stops (pre ++ rest) = (pre ++ lazyUntil stops rest)%string.
Proof.
  induction pre as [|c pre IH]; intros rest H; [reflexivity|].
  cbn [append lazyUntil].
  assert (E : existsb (fun stop => prefix stop (String c (pre ++ rest)))
                      stops = false).
  { apply not_true_is_false. intros Hex. apply existsb_exists in Hex.
    destruct Hex as (stop & Hin & Hp). specialize (H stop Hin).
    cbn [startsWithin append] in H. rewrite Hp in H. discriminate. }
  rewrite E. f_equal. apply IH. intros stop Hin. specialize (H stop Hin).
  cbn [startsWithin] in H. apply orb_false_iff in H. tauto.
Qed.

Lemma lazyUntil_stop stops stop rest :
  In stop stops -> lazyUntil stops (stop ++ rest) = ""%string.
Proof.
  intros Hin.
  assert (E : existsb (fun x => prefix x (stop ++ rest)) stops = true).
  { apply existsb_exists. exists stop. split; [exact Hin|apply prefix_app]. }
  destruct (stop ++ rest)%string; cbn [lazyUntil]; rewrite E; reflexivity.
Qed.

Lemma lazyUntil_nil : forall s, lazyUntil [] s = s.
Proof. induction s as [|c s IH]; simpl; [reflexivity|]. now rewrite IH. Qed.

(** A needle that ends in its only line feed cannot reach beyond a line
    feed of the text. *)
Lemma prefix_upto_newline : forall w b z,
  hasChar (ascii_of_nat 10) w = false ->
  prefix (w ++ nl) (b ++ nl ++ z) = prefix (w ++ nl) (b ++ nl).
Proof.
  induction w as [|c w IH]; intros b z Hw.
  - destruct b as [|d b]; cbn [append prefix nl].
    + destruct (ascii_dec _ _); [now rewrite !prefix_nil|reflexivity].
    + destruct (ascii_dec _ d); [now rewrite !prefix_nil|reflexivity].
  - cbn [hasChar] in Hw. apply orb_false_iff in Hw. destruct Hw as [Hc Hw].
    destruct b as [|d b]; cbn [append prefix nl].
    + destruct (ascii_dec c (ascii_of_nat 10)) as [->|]; [|reflexivity].
      rewrite Ascii.eqb_refl in Hc. discriminate.
    + destruct (ascii_dec c d); [|reflexivity]. apply (IH b z Hw).
Qed.

Lemma startsWithin_upto_newline w z :
  hasChar (ascii_of_nat 10) w = false ->
  forall s, startsWithin (w ++ nl) s (nl ++ z) = startsWithin (w ++ nl) s nl.
Proof.
  intros Hw. induction s as [|c s IH]; [reflexivity|].
  cbn [startsWithin]. rewrite IH. f_equal.
  apply (prefix_upto_newline w (String c s) z Hw).
Qed.

(** A needle whose only line feed is its first character cannot start
    before a line feed of the text and reach beyond it. *)
Lemma prefix_before_newline : forall w b z,
  hasChar (ascii_of_nat 10) w = false -> w <> ""%string ->
  prefix w (b ++ nl ++ z) = prefix w b.
Proof.
  induction w as [|c w IH]; intros b z Hw Hne; [congruence|].
  cbn [hasChar] in Hw. apply orb_false_iff in Hw. destruct Hw as [Hc Hw].
  destruct b as [|d b]; cbn [append prefix nl].
  - destruct (ascii_dec c (ascii_of_nat 10)) as [->|]; [|reflexivity].
    rewrite Ascii.eqb_refl in Hc. discriminate.
  - destruct (ascii_dec c d); [|reflexivity].
    destruct w as [|c' w]; [now rewrite !prefix_nil|].
    apply IH; [exact Hw|discriminate].
Qed.

Lemma startsWithin_before_newline w z :
  hasChar (ascii_of_nat 10) w = false -> w <> ""%string ->
  forall s, startsWithin (nl ++ w) s (nl ++ z) = occurs (nl ++ w) s.
Proof.
  intros Hw Hne. unfold occurs. induction s as [|c s IH]; [reflexivity|].
  cbn [startsWithin]. rewrite IH. f_equal. rewrite append_nil_r.
  cbn [append nl prefix].
  destruct (ascii_dec (ascii_of_nat 10) c); [|reflexivity].
  apply (prefix_before_newline w s z Hw Hne).
Qed.

(** *** Trimming *)

Lemma trimEnd_app : forall a b,
  trimEnd (a ++ b)
  = match trimEnd b with
    | EmptyString => trimEnd a
    | t => (a ++ t)%string
    end.
Proof.
  induction a as [|c a IH]; intros b.
  - simpl. destruct (trimEnd b); reflexivity.
  - cbn [append trimEnd]. rewrite IH.
    destruct (trimEnd b) as [|d t]; [reflexivity|].
    destruct a; reflexivity.
Qed.

Lemma trimStart_app : forall a b,
  trimStart (a ++ b)
  = match trimStart a with
    | EmptyString => trimStart b
    | t => (t ++ b)%string
    end.
Proof.
  induction a as [|c a IH]; intros b; [reflexivity|].
  cbn [append trimStart]. destruct (isSpace c); [apply IH|reflexivity].
Qed.

Lemma trimStart_trimEnd : forall s,
  trimStart (trimEnd s) = trimEnd (trimStart s).
Proof.
  induction s as [|c s IH]; [reflexivity|].
  cbn [trimEnd trimStart].
  destruct (trimEnd s) as [|d t] eqn:E.
  - destruct (isSpace c) eqn:Ec.
    + rewrite <- IH. reflexivity.
    + cbn [trimStart trimEnd]. rewrite ?Ec, ?E, ?Ec. reflexivity.
  - destruct (isSpace c) eqn:Ec.
    + cbn [trimStart]. rewrite ?Ec. exact IH.
    + cbn [trimStart trimEnd]. rewrite ?Ec, ?E, ?Ec. reflexivity.
Qed.

Lemma trimEnd_idem : forall s, trimEnd (trimEnd s) = trimEnd s.
Proof.
  induction s as [|c s IH]; [reflexivity|].
  cbn [trimEnd]. destruct (trimEnd s) as [|d t] eqn:E.
  - destruct (isSpace c) eqn:Ec; [reflexivity|].
    cbn [trimEnd]. now rewrite Ec.
  - cbn [trimEnd] in IH |- *. rewrite IH. reflexivity.
Qed.

Lemma trim_padded s : trim (nl ++ s ++ nl) = trim s.
Proof.
  unfold trim. change (trimStart (nl ++ s ++ nl)) with (trimStart (s ++ nl)).
  rewrite trimStart_app. destruct (trimStart s) as [|d t] eqn:E.
  - reflexivity.
  - rewrite trimEnd_app. reflexivity.
Qed.

Lemma trim_after_newline k : trim (nl ++ trimEnd k) = trim k.
Proof.
  unfold trim. change (trimStart (nl ++ trimEnd k)) with (trimStart (trimEnd k)).
  now rewrite trimStart_trimEnd, trimEnd_idem.
Qed.

Lemma trim_blank k : trimEnd k = ""%string -> trim k = ""%string.
Proof. intros H. unfold trim. now rewrite <- trimStart_trimEnd, H. Qed.

Lemma trimEnd_app_nonblank a b :
  trimEnd b <> ""%string -> trimEnd (a ++ b) = (a ++ trimEnd b)%string.
Proof.
  intros H. rewrite trimEnd_app. destruct (trimEnd b); congruence.
Qed.

(** The trimmed document: the tail after the last heading keeps the
    know-how body without its trailing white space, or nothing when the
    body is blank. *)
Lemma trim_renderSections s i k :
  trim (renderSections s i k)
  = ("# Summary" ++ nl ++ nl ++ s ++ nl ++ nl ++
     "# Instructions" ++ nl ++ nl ++ i ++ nl ++ nl ++
     "# Know-How" ++
     match trimEnd k with
     | EmptyString => ""
     | t => nl ++ nl ++ t
     end)%string.
Proof.
  assert (Hk : trimEnd ("# Know-How" ++ nl ++ nl ++ k)
               = ("# Know-How" ++ match trimEnd k with
                                  | EmptyString => ""
                                  | t => nl ++ nl ++ t
                                  end)%string).
  { change ("# Know-How" ++ nl ++ nl ++ k)%string
      with (("# Know-How" ++ nl ++ nl) ++ k)%string.
    rewrite trimEnd_app. destruct (trimEnd k); reflexivity. }
  unfold trim.
  replace (trimStart (renderSections s i k))
    with (("# Summary" ++ nl ++ nl ++ s ++ nl ++ nl ++
           "# Instructions" ++ nl ++ nl ++ i ++ nl ++ nl) ++
          ("# Know-How" ++ nl ++ nl ++ k))%string
    by (rewrite !append_assoc; reflexivity).
  rewrite trimEnd_app_nonblank.
  - rewrite Hk, !append_assoc. reflexivity.
  - rewrite Hk. discriminate.
Qed.

(** *** The three sections *)

Lemma body_keeps_needle_out w body z :
  hasChar (ascii_of_nat 10) w = false ->
  lineEndsWith w body = false ->
  startsWithin (w ++ nl) body (nl ++ z) = false.
Proof.
  intros Hw H. rewrite startsWithin_upto_newline by exact Hw.
  unfold lineEndsWith, occurs in H. rewrite startsWithin_app in H.
  apply orb_false_iff in H. destruct H as [H _].
  rewrite append_nil_r in H. exact H.
Qed.

Lemma body_keeps_stop_out w body z :
  hasChar (ascii_of_nat 10) w = false -> w <> ""%string ->
  lineStartsWith w body = false ->
  startsWithin (nl ++ w) (nl ++ body ++ nl) (nl ++ z) = false.
Proof.
  intros Hw Hne H.
  replace (nl ++ body ++ nl)%string with ((nl ++ body) ++ nl)%string
    by (rewrite !append_assoc; reflexivity).
  rewrite startsWithin_app. apply orb_false_iff. split.
  - rewrite startsWithin_before_newline by assumption. exact H.
  - destruct w as [|c w]; [congruence|].
    cbn [hasChar] in Hw. apply orb_false_iff in Hw. destruct Hw as [Hc _].
    cbn [startsWithin append nl prefix].
    destruct (ascii_dec c (ascii_of_nat 10)) as [->|]; [|reflexivity].
    rewrite Ascii.eqb_refl in Hc. discriminate.
Qed.

Lemma capture_body stops body heading z :
  (forall stop, In stop stops ->
     exists w, stop = (nl ++ w)%string /\
               hasChar (ascii_of_nat 10) w = false /\ w <> ""%string /\
               lineStartsWith w body = false) ->
  In (nl ++ heading)%string stops ->
  lazyUntil stops (nl ++ body ++ nl ++ nl ++ heading ++ z)
  = (nl ++ body ++ nl)%string.
Proof.
  intros Hstops Hin.
  replace (nl ++ body ++ nl ++ nl ++ heading ++ z)%string
    with ((nl ++ body ++ nl) ++ (nl ++ heading) ++ z)%string
    by (rewrite !append_assoc; reflexivity).
  rewrite lazyUntil_skip.
  - rewrite lazyUntil_stop by exact Hin. now rewrite append_nil_r.
  - intros stop Hs. destruct (Hstops stop Hs) as (w & -> & Hw & Hne & Hl).
    rewrite append_assoc. apply body_keeps_stop_out; assumption.
Qed.

(** C8 (amended). For section bodies [s], [i], [k] such that no line of
    [s] or [i] starts with a later heading and no line of [s] or [i] ends
    with the text of a later heading, parsing the document rendered from
    them gives back the three bodies up to surrounding white space, and
    [rawMarkdown] is the trimmed document.  The know-how body is
    unconstrained. *)
Theorem parseGeneratorResponse_round_trip (s i k : string) :
  lineStartsWith "# Instructions" s = false ->
  lineStartsWith "# Know-How" s = false ->
  lineEndsWith "# Instructions" s = false ->
  lineEndsWith "# Know-How" s = false ->
  lineStartsWith "# Know-How" i = false ->
  lineEndsWith "# Know-How" i = false ->
  parseGeneratorResponse (renderSections s i k)
  = {| resp_summary := trim s;
       resp_instructions := trim i;
       resp_knowHow := trim k;
       resp_rawMarkdown := trim (renderSections s i k) |}.
Proof.
  intros Hs1 Hs2 Hs3 Hs4 Hi1 Hi2.
  unfold parseGeneratorResponse. rewrite trim_renderSections.
  set (tailK := match trimEnd k with
                | EmptyString => ""%string
                | t => (nl ++ nl ++ t)%string
                end).
  f_equal.
  - (* summary *)
    unfold matchSection.
    replace ("# Summary" ++ nl ++ nl ++ s ++ nl ++ nl ++ "# Instructions" ++
             nl ++ nl ++ i ++ nl ++ nl ++ "# Know-How" ++ tailK)%string
      with (("# Summary" ++ nl) ++
            (nl ++ s ++ nl ++ nl ++ "# Instructions" ++
             (nl ++ nl ++ i ++ nl ++ nl ++ "# Know-How" ++ tailK)))%string
      by (rewrite !append_assoc; reflexivity).
    rewrite cut_here, capture_body.
    + apply trim_padded.
    + intros stop [<-|[<-|[]]].
      * exists "# Instructions"%string. repeat split; auto; discriminate.
      * exists "# Know-How"%string. repeat split; auto; discriminate.
    + left. reflexivity.
  - (* instructions *)
    unfold matchSection.
    replace ("# Summary" ++ nl ++ nl ++ s ++ nl ++ nl ++ "# Instructions" ++
             nl ++ nl ++ i ++ nl ++ nl ++ "# Know-How" ++ tailK)%string
      with ((("# Summary" ++ nl ++ nl) ++ s ++ (nl ++ nl)) ++
            ("# Instructions" ++ nl) ++
            (nl ++ i ++ nl ++ nl ++ "# Know-How" ++ tailK))%string
      by (rewrite !append_assoc; reflexivity).
    rewrite cut_first, capture_body.
    + apply trim_padded.
    + intros stop [<-|[]].
      exists "# Know-How"%string. repeat split; auto; discriminate.
    + left. reflexivity.
    + rewrite !startsWithin_app, !orb_false_iff.
      repeat split; try reflexivity.
      rewrite !append_assoc.
      apply (body_keeps_needle_out "# Instructions"); auto.
  - (* know-how *)
    unfold matchSection.
    replace ("# Summary" ++ nl ++ nl ++ s ++ nl ++ nl ++ "# Instructions" ++
             nl ++ nl ++ i ++ nl ++ nl ++ "# Know-How" ++ tailK)%string
      with ((("# Summary" ++ nl ++ nl) ++ s ++
             (nl ++ nl ++ "# Instructions" ++ nl ++ nl) ++ i ++ (nl ++ nl)) ++
            ("# Know-How" ++ tailK))%string
      by (rewrite !append_assoc; reflexivity).
    rewrite cut_skip.
    + subst tailK. destruct (trimEnd k) as [|d t] eqn:E.
      * cbn. symmetry. apply trim_blank, E.
      * replace ("# Know-How" ++ nl ++ nl ++ String d t)%string
          with (("# Know-How" ++ nl) ++ (nl ++ String d t))%string
          by (rewrite !append_assoc; reflexivity).
        rewrite cut_here, lazyUntil_nil, <- E. apply trim_after_newline.
    + rewrite !startsWithin_app, !orb_false_iff.
      repeat split; try reflexivity;
        rewrite !append_assoc;
        apply (body_keeps_needle_out "# Know-How"); auto.
Qed.

Lemma parseGeneratorResponse_round_trip_witness :
  parseGeneratorResponse
    (renderSections "Does X."
       ("1. Open the page" ++ nl ++ "2. Copy the name")
       ("## Signals" ++ nl ++ "- done" ++ nl))
  = {| resp_summary := "Does X.";
       resp_instructions := "1. Open the page" ++ nl ++ "2. Copy the name";
       resp_knowHow := "## Signals" ++ nl ++ "- done";
       resp_rawMarkdown :=
         trim (renderSections "Does X."
                 ("1. Open the page" ++ nl ++ "2. Copy the name")
                 ("## Signals" ++ nl ++ "- done" ++ nl)) |}.
Proof.
  apply (parseGeneratorResponse_round_trip "Does X."
           ("1. Open the page" ++ nl ++ "2. Copy the name")
           ("## Signals" ++ nl ++ "- done" ++ nl)); reflexivity.
Defined.

(** C8 as stated fails: the summary below has no line that starts with one
    of the three headings, but its sub-heading [## Instructions] contains
    the text the parser searches for, and the instructions section that
    comes back starts inside the summary. *)
Lemma round_trip_line_start_counterexample :
  let s := ("Overview" ++ nl ++ "## Instructions" ++ nl ++ "none")%string in
  let i := "1. Do it"%string in
  let k := "Rules"%string in
  (forall h, In h ["# Summary"; "# Instructions"; "# Know-How"]%string ->
   forall b, In b [s; i; k] -> lineStartsWith h b = false) /\
  resp_instructions (parseGeneratorResponse (renderSections s i k))
    = ("none" ++ nl ++ nl ++ "# Instructions" ++ nl ++ nl ++ "1. Do it")%string
  /\
  resp_instructions (parseGeneratorResponse (renderSections s i k)) <> trim i.
Proof.
  intros s i k. split; [|split].
  - intros h [<-|[<-|[<-|[]]]] b [<-|[<-|[<-|[]]]]; reflexivity.
  - reflexivity.
  - discriminate.
Qed.

(* ===================================================================== *)
(** * Further properties of the sources *)
(* ===================================================================== *)

(** ** [complete]: the two ways it can end *)

Section CompleteCases.

Variable config : LLMConfig.
Variable callModel : list ProviderCall -> ProviderCall -> Outcome string.
Variable prompt : string.
Variable options : CompletionOptions.

Local Abbreviation req := (requestFor config prompt options).
Local Abbreviation throws := (allThrow config callModel prompt options).
Local Abbreviation try := (tryModels config callModel prompt options).

Lemma tryModels_cases : forall ms errors log,
  (exists msgs,
     throws log ms msgs /\
     try ms errors log
     = (Thrown (allFailedMessage config (errors ++ combine ms msgs)),
        (log ++ map req ms)%list)) \/
  (exists pre m post msgs result,
     ms = (pre ++ m :: post)%list /\
     throws log pre msgs /\
     callModel (log ++ map req pre)%list (req m) = Returned result /\
     try ms errors log
     = (Returned result, (log ++ map req (pre ++ [m]))%list)).
Proof.
  induction ms as [|m ms IH]; intros errors log.
  - left. exists []. split; [exact I|]. simpl. now rewrite !app_nil_r.
  - destruct (callModel log (req m)) as [result|e] eqn:E.
    + right. exists [], m, ms, [], result. simpl.
      rewrite app_nil_r, E. auto.
    + destruct (IH (errors ++ [(m, e)])%list (log ++ [req m])%list)
        as [(msgs & Hth & Heq)|(pre & m' & post & msgs & result & -> & Hth
                                 & Hr & Heq)].
      * left. exists (e :: msgs). split; [split; assumption|].
        cbn [tryModels]. rewrite E, Heq. cbn [combine map].
        now rewrite <- !app_assoc.
      * right. exists (m :: pre), m', post, (e :: msgs), result.
        split; [reflexivity|]. split; [split; assumption|].
        split; [cbn [map]; rewrite <- app_assoc in Hr; exact Hr|].
        cbn [app tryModels]. rewrite E, Heq. cbn [map app].
        now rewrite <- !app_assoc.
Qed.

End CompleteCases.

(** X1. [complete] ends in one of two ways only.  Either every model of
    the list threw, in order, and the aggregated error is thrown after all
    of them were tried; or the models before some model threw, that model
    returned, its text is the result, and nothing after it was tried. *)
Theorem complete_outcome_cases
    (config : LLMConfig)
    (callModel : list ProviderCall -> ProviderCall -> Outcome string)
    (prompt : string) (options : CompletionOptions)
    (log : list ProviderCall) :
  (exists msgs,
     allThrow config callModel prompt options log (models config) msgs /\
     complete config callModel prompt options log
     = (Thrown (allFailedMessage config (combine (models config) msgs)),
        (log ++ map (requestFor config prompt options) (models config))%list))
  \/
  (exists pre m post msgs result,
     models config = (pre ++ m :: post)%list /\
     allThrow config callModel prompt options log pre msgs /\
     callModel (log ++ map (requestFor config prompt options) pre)%list
               (requestFor config prompt options m) = Returned result /\
     complete config callModel prompt options log
     = (Returned result,
        (log ++ map (requestFor config prompt options) (pre ++ [m]))%list)).
Proof.
  unfold complete.
  exact (tryModels_cases config callModel prompt options (models config) [] log).
Qed.

(** X2. The log of provider requests only grows: [complete] appends the
    requests for an initial segment of the configured models, in their
    order, each model at most once, and never more requests than there
    are models. *)
Theorem complete_requests_prefix
    (config : LLMConfig)
    (callModel : list ProviderCall -> ProviderCall -> Outcome string)
    (prompt : string) (options : CompletionOptions)
    (log : list ProviderCall) :
  exists k,
    k <= List.length (models config) /\
    snd (complete config callModel prompt options log)
    = (log ++ map (requestFor config prompt options)
                  (firstn k (models config)))%list.
Proof.
  unfold complete.
  destruct (tryModels_cases config callModel prompt options (models config)
              [] log)
    as [(msgs & _ & ->)|(pre & m & post & msgs & result & Hm & _ & _ & ->)].
  - exists (List.length (models config)). split; [lia|].
    now rewrite firstn_all.
  - exists (List.length (pre ++ [m])%list). rewrite Hm. split.
    + rewrite !length_app. simpl. lia.
    + cbn [snd]. do 2 f_equal.
      replace (pre ++ m :: post)%list with ((pre ++ [m]) ++ post)%list
        by (rewrite <- app_assoc; reflexivity).
      rewrite firstn_app, firstn_all, Nat.sub_diag. simpl.
      now rewrite app_nil_r.
Qed.

(** X3. A request never carries [max_tokens = 0]: a non-zero option is
    passed on as it is; a zero or missing option falls back to the
    configured value when that is not zero; and when the configured value
    is zero or missing as well, the request carries 4096. *)
Theorem request_maxTokens_nonzero
    (config : LLMConfig) (prompt : string) (options : CompletionOptions)
    (model : string) :
  call_maxTokens (requestFor config prompt options model) <> 0%Z /\
  (forall v, maxTokens options = Some v -> v <> 0%Z ->
     call_maxTokens (requestFor config prompt options model) = v) /\
  (maxTokens options = None \/ maxTokens options = Some 0%Z ->
   (forall c, config_maxTokens config = Some c -> c <> 0%Z ->
      call_maxTokens (requestFor config prompt options model) = c) /\
   (config_maxTokens config = None \/ config_maxTokens config = Some 0%Z ->
      call_maxTokens (requestFor config prompt options model) = 4096%Z)).
Proof.
  unfold requestFor, orNumber, DEFAULT_MAX_TOKENS. cbn [call_maxTokens].
  split; [|split].
  - destruct (maxTokens options) as [v|].
    + destruct (Z.eqb_spec v 0); [|assumption].
      destruct (config_maxTokens config) as [c|]; [|discriminate].
      destruct (Z.eqb_spec c 0); [discriminate|assumption].
    + destruct (config_maxTokens config) as [c|]; [|discriminate].
      destruct (Z.eqb_spec c 0); [discriminate|assumption].
  - intros v -> Hv. destruct (Z.eqb_spec v 0); [contradiction|reflexivity].
  - intros Ho. split.
    + intros c -> Hc. destruct Ho as [->| ->]; simpl;
        destruct (Z.eqb_spec c 0); try contradiction; reflexivity.
    + intros [->| ->]; destruct Ho as [->| ->]; reflexivity.
Qed.

Lemma request_maxTokens_nonzero_witness :
  call_maxTokens
    (requestFor {| provider := provider_openai;
                   models := ["gpt-4o"];
                   config_maxTokens := Some 0%Z |} "p"
       {| systemPrompt := None; maxTokens := None; temperature := None |}
       "gpt-4o") = 4096%Z /\
  call_maxTokens
    (requestFor {| provider := provider_openai;
                   models := ["gpt-4o"];
                   config_maxTokens := Some 1000%Z |} "p"
       {| systemPrompt := None; maxTokens := Some 0%Z; temperature := None |}
       "gpt-4o") = 1000%Z.
Proof.
  split.
  - apply (proj2 (proj2 (request_maxTokens_nonzero
             {| provider := provider_openai; models := ["gpt-4o"];
                config_maxTokens := Some 0%Z |} "p"
             {| systemPrompt := None; maxTokens := None;
                temperature := None |} "gpt-4o"))).
    + left. reflexivity.
    + right. reflexivity.
  - apply (proj2 (proj2 (request_maxTokens_nonzero
             {| provider := provider_openai; models := ["gpt-4o"];
                config_maxTokens := Some 1000%Z |} "p"
             {| systemPrompt := None; maxTokens := Some 0%Z;
                temperature := None |} "gpt-4o"))).
    + right. reflexivity.
    + reflexivity.
    + discriminate.
Defined.

(** ** Counting the requests of a computation *)

Lemma appendsAtMost_ret {A} (a : A) : appendsAtMost 0 (ret a).
Proof. intros log. exists []. simpl. now rewrite app_nil_r. Qed.

Lemma appendsAtMost_bind {A B} n p (m : IO A) (k : A -> IO B) :
  appendsAtMost n m -> (forall a, appendsAtMost p (k a)) ->
  appendsAtMost (n + p) (bind m k).
Proof.
  intros Hm Hk log. unfold bind. destruct (Hm log) as (e1 & H1 & L1).
  destruct (m log) as [[a|msg] log1]; simpl in H1; subst log1.
  - destruct (Hk a (log ++ e1)%list) as (e2 & H2 & L2).
    exists (e1 ++ e2)%list. rewrite H2, app_assoc, length_app. split; [auto|lia].
  - exists e1. simpl. split; [reflexivity|lia].
Qed.

Lemma appendsAtMost_weaken {A} n p (m : IO A) :
  n <= p -> appendsAtMost n m -> appendsAtMost p m.
Proof.
  intros Hle Hm log. destruct (Hm log) as (e & H & L).
  exists e. split; [exact H|lia].
Qed.

Lemma appendsAtMost_complete config callModel prompt options :
  appendsAtMost (List.length (models config))
    (complete config callModel prompt options).
Proof.
  intros log. unfold complete.
  destruct (tryModels_cases config callModel prompt options (models config)
              [] log)
    as [(msgs & _ & ->)|(pre & m & post & msgs & result & Hm & _ & _ & ->)].
  - eexists. split; [reflexivity|]. rewrite length_map. lia.
  - eexists. split; [reflexivity|]. rewrite Hm, length_map, !length_app.
    simpl. lia.
Qed.

Lemma appendsAtMost_settle {A} (o : Outcome A) : appendsAtMost 0 (settle o).
Proof. intros log. exists []. simpl. now rewrite app_nil_r. Qed.

(** X4. [generateDocumentation] keeps the earlier log and makes at most
    three times as many provider requests as there are configured models,
    whatever the provider answers. *)
Theorem generateDocumentation_request_bound
    (hostname : string -> option string) (tx : Texts) (config : LLMConfig)
    (callModel : list ProviderCall -> ProviderCall -> Outcome string)
    (task : TaskSession) (log : list ProviderCall) :
  exists extra,
    snd (generateDocumentation hostname tx config callModel task log)
    = (log ++ extra)%list /\
    List.length extra <= 3 * List.length (models config).
Proof.
  revert log. change (appendsAtMost (3 * List.length (models config))
    (generateDocumentation hostname tx config callModel task)).
  unfold generateDocumentation.
  destruct (List.length (task_actions task) =? 0).
  - eapply appendsAtMost_weaken; [|apply appendsAtMost_ret]. lia.
  - destruct (buildChunkerPrompt tx _ _) as [chunkerSystem chunkerUser].
    replace (3 * List.length (models config))
      with (List.length (models config) +
            (0 + (List.length (models config) +
                  (0 + (List.length (models config) + 0))))) by lia.
    apply appendsAtMost_bind; [apply appendsAtMost_complete|].
    intros r1.
    apply appendsAtMost_bind; [apply appendsAtMost_settle|].
    intros chunks_.
    destruct (buildAnalyzerPrompt tx _ _ _) as [analyzerSystem analyzerUser].
    apply appendsAtMost_bind; [apply appendsAtMost_complete|].
    intros r2.
    apply appendsAtMost_bind; [apply appendsAtMost_settle|].
    intros knowHow_.
    destruct (buildGeneratorPrompt tx _ _ _)
      as [generatorSystem generatorUser].
    apply appendsAtMost_bind; [apply appendsAtMost_complete|].
    intros r3. apply appendsAtMost_ret.
Qed.

(** ** [generateDocumentation]: what a run returns and how it fails *)

Lemma complete_thrown config callModel prompt options log e log' :
  complete config callModel prompt options log = (Thrown e, log') ->
  exists msgs,
    allThrow config callModel prompt options log (models config) msgs /\
    e = allFailedMessage config (combine (models config) msgs) /\
    log' = (log ++ map (requestFor config prompt options)
                       (models config))%list.
Proof.
  unfold complete. intros H.
  destruct (tryModels_cases config callModel prompt options (models config)
              [] log)
    as [(msgs & Hth & Heq)|(pre & m & post & msgs & result & _ & _ & _ & Heq)];
    rewrite Heq in H; [|discriminate].
  injection H as <- <-. exists msgs. auto.
Qed.

(** The elements a [.map] over a parsed value goes through when it
    returns. *)
Lemma mapElements_present {A B} property (f : A -> B) : forall present,
  mapElements property f (map Some present) = Returned (map f present).
Proof.
  induction present as [|x present IH]; simpl; [reflexivity|].
  now rewrite IH.
Qed.

Lemma mapElements_returned {A B} property (f : A -> B) :
  forall elements converted,
    mapElements property f elements = Returned converted <->
    exists present,
      elements = map Some present /\ converted = map f present.
Proof.
  intros elements converted. split.
  - revert converted.
    induction elements as [|[element|] rest IH]; intros converted; simpl.
    + intros H. injection H as <-. exists []. auto.
    + destruct (mapElements property f rest) as [converted'|message];
        [|discriminate].
      intros H. injection H as <-.
      destruct (IH converted' eq_refl) as (present & -> & ->).
      exists (element :: present). auto.
    + discriminate.
  - intros (present & -> & ->). apply mapElements_present.
Qed.

Lemma jsonMap_returned {A B} callee property (f : A -> B) value converted :
  jsonMap callee property f value = Returned converted <->
  exists present,
    value = json_array (map Some present) /\ converted = map f present.
Proof.
  destruct value as [| | |elements]; simpl;
    try (split; [discriminate|intros (present & He & _); discriminate]).
  rewrite mapElements_returned. split.
  - intros (present & -> & ->). exists present. auto.
  - intros (present & He & ->). injection He as ->. exists present. auto.
Qed.

(** X5. A run of [generateDocumentation] that throws has one of three
    origins.  A call of [complete] found every configured model failing:
    the error is that call's aggregated message, passed on unchanged, and
    the log ends with the requests of that call.  Or the segmenter
    answered and the content of its [<chunks>] block, though valid JSON, is
    not an array of elements other than [null]: the conversion raises a
    [TypeError] and no extractor request is made.  Or the extractor
    answered and its know-how, though valid JSON, is [null] or lacks one of
    the two arrays the conversion maps over: a [TypeError] again, and no
    renderer request is made.  Nothing else makes a run throw. *)
Theorem generateDocumentation_failure_origin
    (hostname : string -> option string) (tx : Texts) (config : LLMConfig)
    (callModel : list ProviderCall -> ProviderCall -> Outcome string)
    (task : TaskSession) (log log' : list ProviderCall) (e : string) :
  generateDocumentation hostname tx config callModel task log
    = (Thrown e, log') ->
  (exists prompt options before msgs,
     complete config callModel prompt options before = (Thrown e, log') /\
     allThrow config callModel prompt options before (models config) msgs /\
     e = allFailedMessage config (combine (models config) msgs) /\
     log' = (before ++ map (requestFor config prompt options)
                           (models config))%list) \/
  (exists chunkerResponse,
     let chunker := chunkerPromptOf hostname tx (task_actions task) in
     complete config callModel (snd chunker)
       (stageOptions (fst chunker) 2048) log
       = (Returned chunkerResponse, log') /\
     (forall present,
        chunker_chunks (parseChunkerResponse tx chunkerResponse)
        <> json_array (map Some present)) /\
     toActionChunks (task_actions task)
       (chunker_chunks (parseChunkerResponse tx chunkerResponse))
     = Thrown e) \/
  (exists chunks_ analyzerResponse before,
     let analyzer :=
       analyzerPromptOf hostname tx (task_actions task) chunks_ in
     complete config callModel (snd analyzer)
       (stageOptions (fst analyzer) 2048) before
       = (Returned analyzerResponse, log') /\
     (forall k present present',
        analyzer_knowHow (parseAnalyzerResponse tx analyzerResponse)
          = non_null k ->
        decision_criteria k = json_array (map Some present) ->
        corner_cases k <> json_array (map Some present')) /\
     toKnowHow (analyzer_knowHow (parseAnalyzerResponse tx analyzerResponse))
     = Thrown e).
Proof.
  destruct (task_actions task) as [|a0 rest] eqn:Ea.
  { unfold generateDocumentation. rewrite Ea. discriminate. }
  assert (Hne : task_actions task <> []) by (rewrite Ea; discriminate).
  rewrite <- Ea.
  rewrite (generateDocumentation_stages hostname tx config callModel task log
             Hne).
  cbv zeta.
  destruct (complete config callModel _ _ log) as [[r1|e1] log1] eqn:E1.
  2:{ intros H. injection H as <- <-. left.
      destruct (complete_thrown _ _ _ _ _ _ _ E1) as (msgs & H1 & H2 & H3).
      eauto 10. }
  destruct (toActionChunks _ _) as [chunks_|ec] eqn:Ec.
  2:{ intros H. injection H as <- <-. right. left. exists r1.
      split; [reflexivity|]. split; [|exact Ec].
      intros present Hp. unfold toActionChunks in Ec.
      assert (Hr : jsonMap "chunkerParsed.chunks.map" "phase"
                     (toActionChunk (task_actions task))
                     (chunker_chunks (parseChunkerResponse tx r1))
                   = Returned (map (toActionChunk (task_actions task))
                                   present)).
      { apply jsonMap_returned. exists present. auto. }
      rewrite Hr in Ec. discriminate. }
  destruct (complete config callModel _ _ log1) as [[r2|e2] log2] eqn:E2.
  2:{ intros H. injection H as <- <-. left.
      destruct (complete_thrown _ _ _ _ _ _ _ E2) as (msgs & H1 & H2 & H3).
      eauto 10. }
  destruct (toKnowHow _) as [knowHow_|ek] eqn:Ek.
  2:{ intros H. injection H as <- <-. right. right.
      exists chunks_, r2, log1. split; [exact E2|]. split; [|exact Ek].
      intros k present present' Hk Hd Hc. rewrite Hk in Ek.
      unfold toKnowHow in Ek. rewrite Hd, Hc in Ek. simpl in Ek.
      rewrite !mapElements_present in Ek. discriminate. }
  destruct (complete config callModel _ _ log2) as [[r3|e3] log3] eqn:E3.
  - discriminate.
  - intros H. injection H as <- <-. left.
    destruct (complete_thrown _ _ _ _ _ _ _ E3) as (msgs & H1 & H2 & H3).
    eauto 10.
Qed.

Lemma generateDocumentation_failure_origin_witness :
  let task := {| task_id := "t1";
                 task_actions := [sampleAction click "https://a.com/" None] |} in
  let chunker := chunkerPromptOf simpleHostname parsingTexts
                   (task_actions task) in
  let run := generateDocumentation simpleHostname parsingTexts sampleConfig
               (stagedProvider "<chunks>{}</chunks>" "" "") task [] in
  run = (Thrown "chunkerParsed.chunks.map is not a function",
         [requestFor sampleConfig (snd chunker)
            (stageOptions (fst chunker) 2048) "gpt-4o"]) /\
  ((exists prompt options before msgs,
      complete sampleConfig (stagedProvider "<chunks>{}</chunks>" "" "")
        prompt options before
      = (Thrown "chunkerParsed.chunks.map is not a function", snd run) /\
      allThrow sampleConfig (stagedProvider "<chunks>{}</chunks>" "" "")
        prompt options before (models sampleConfig) msgs /\
      "chunkerParsed.chunks.map is not a function"%string
      = allFailedMessage sampleConfig (combine (models sampleConfig) msgs) /\
      snd run = (before ++ map (requestFor sampleConfig prompt options)
                              (models sampleConfig))%list) \/
   (exists chunkerResponse,
      complete sampleConfig (stagedProvider "<chunks>{}</chunks>" "" "")
        (snd chunker) (stageOptions (fst chunker) 2048) []
        = (Returned chunkerResponse, snd run) /\
      (forall present,
         chunker_chunks (parseChunkerResponse parsingTexts chunkerResponse)
         <> json_array (map Some present)) /\
      toActionChunks (task_actions task)
        (chunker_chunks (parseChunkerResponse parsingTexts chunkerResponse))
      = Thrown "chunkerParsed.chunks.map is not a function") \/
   (exists chunks_ analyzerResponse before,
      let analyzer :=
        analyzerPromptOf simpleHostname parsingTexts (task_actions task)
          chunks_ in
      complete sampleConfig (stagedProvider "<chunks>{}</chunks>" "" "")
        (snd analyzer) (stageOptions (fst analyzer) 2048) before
        = (Returned analyzerResponse, snd run) /\
      (forall k present present',
         analyzer_knowHow (parseAnalyzerResponse parsingTexts analyzerResponse)
           = non_null k ->
         decision_criteria k = json_array (map Some present) ->
         corner_cases k <> json_array (map Some present')) /\
      toKnowHow
        (analyzer_knowHow (parseAnalyzerResponse parsingTexts analyzerResponse))
      = Thrown "chunkerParsed.chunks.map is not a function")).
Proof.
  intros task chunker run.
  assert (E : run = (Thrown "chunkerParsed.chunks.map is not a function",
                     [requestFor sampleConfig (snd chunker)
                        (stageOptions (fst chunker) 2048) "gpt-4o"]))
    by reflexivity.
  split; [exact E|].
  exact (generateDocumentation_failure_origin simpleHostname parsingTexts
           sampleConfig (stagedProvider "<chunks>{}</chunks>" "" "") task []
           (snd run) "chunkerParsed.chunks.map is not a function" E).
Defined.

Lemma generateDocumentation_returned
    (hostname : string -> option string) (tx : Texts) (config : LLMConfig)
    (callModel : list ProviderCall -> ProviderCall -> Outcome string)
    (task : TaskSession) (log log' : list ProviderCall)
    (r : GenerationResult) :
  generateDocumentation hostname tx config callModel task log
    = (Returned r, log') ->
  result_metrics r = calculateMetrics hostname (task_actions task).
Proof.
  destruct (task_actions task) as [|a0 rest] eqn:Ea.
  { unfold generateDocumentation. rewrite Ea. simpl.
    intros H. injection H as <- <-. reflexivity. }
  assert (Hne : task_actions task <> []) by (rewrite Ea; discriminate).
  rewrite <- Ea.
  rewrite (generateDocumentation_stages hostname tx config callModel task log
             Hne).
  cbv zeta.
  destruct (complete config callModel _ _ log) as [[r1|e1] log1];
    [|discriminate].
  destruct (toActionChunks _ _) as [chunks_|ec]; [|discriminate].
  destruct (complete config callModel _ _ log1) as [[r2|e2] log2];
    [|discriminate].
  destruct (toKnowHow _) as [knowHow_|ek]; [|discriminate].
  destruct (complete config callModel _ _ log2) as [[r3|e3] log3];
    [|discriminate].
  intros H. injection H as <- <-. reflexivity.
Qed.

(** X6. A [<chunks>] block that holds valid JSON of the wrong shape does
    not degrade to an empty chunk list: when the value [JSON.parse] hands
    back is not an array, or is an array that holds [null], the run of
    [generateDocumentation] throws right after the segmenter call and
    makes no further request.  The conversion returns exactly for an array
    whose elements are all other than [null], and then converts the
    elements one by one, in order. *)
Theorem generateDocumentation_chunks_shape
    (hostname : string -> option string) (tx : Texts) (config : LLMConfig)
    (callModel : list ProviderCall -> ProviderCall -> Outcome string)
    (task : TaskSession) (chunkerResponse : string)
    (log log1 : list ProviderCall) :
  let chunker := chunkerPromptOf hostname tx (task_actions task) in
  let parsed := chunker_chunks (parseChunkerResponse tx chunkerResponse) in
  task_actions task <> [] ->
  complete config callModel (snd chunker) (stageOptions (fst chunker) 2048)
    log = (Returned chunkerResponse, log1) ->
  (forall chunks_,
     toActionChunks (task_actions task) parsed = Returned chunks_ <->
     exists present,
       parsed = json_array (map Some present) /\
       chunks_ = map (toActionChunk (task_actions task)) present) /\
  ((forall present, parsed <> json_array (map Some present)) ->
   exists message,
     toActionChunks (task_actions task) parsed = Thrown message /\
     generateDocumentation hostname tx config callModel task log
     = (Thrown message, log1)).
Proof.
  intros chunker parsed Hne H1. split.
  - intros chunks_. apply jsonMap_returned.
  - intros Hshape.
    rewrite (generateDocumentation_stages hostname tx config callModel task
               log Hne).
    cbv zeta. fold chunker. rewrite H1. fold parsed.
    destruct (toActionChunks (task_actions task) parsed)
      as [chunks_|message] eqn:Ec.
    + apply jsonMap_returned in Ec. destruct Ec as (present & Hp & _).
      destruct (Hshape present Hp).
    + exists message. auto.
Qed.

Lemma generateDocumentation_chunks_shape_witness :
  let task := {| task_id := "t1";
                 task_actions := [sampleAction click "https://a.com/" None] |} in
  let chunker := chunkerPromptOf simpleHostname parsingTexts
                   (task_actions task) in
  exists message,
    toActionChunks (task_actions task)
      (chunker_chunks
         (parseChunkerResponse parsingTexts "<chunks>[null]</chunks>"))
    = Thrown message /\
    generateDocumentation simpleHostname parsingTexts sampleConfig
      (stagedProvider "<chunks>[null]</chunks>" "" "") task []
    = (Thrown message,
       [requestFor sampleConfig (snd chunker)
          (stageOptions (fst chunker) 2048) "gpt-4o"]).
Proof.
  intros task chunker.
  apply (generateDocumentation_chunks_shape simpleHostname parsingTexts
           sampleConfig (stagedProvider "<chunks>[null]</chunks>" "" "") task
           "<chunks>[null]</chunks>" []).
  - discriminate.
  - reflexivity.
  - intros [|x present]; discriminate.
Defined.

(** ** JavaScript maps *)

Lemma mapGet_mapSet {V} (k k' : string) (v : V) : forall m,
  mapGet k' (mapSet k v m)
  = if (k =? k')%string then Some v else mapGet k' m.
Proof.
  induction m as [|[k0 v0] m IH]; simpl.
  - reflexivity.
  - destruct (String.eqb_spec k0 k) as [->|Hne]; simpl.
    + destruct (k =? k')%string; reflexivity.
    + rewrite IH. destruct (String.eqb_spec k0 k') as [->|]; [|reflexivity].
      destruct (String.eqb_spec k k'); [congruence|reflexivity].
Qed.

Lemma mapKeys_mapSet {V} (k : string) (v : V) : forall m,
  mapKeys (mapSet k v m)
  = if existsb (String.eqb k) (mapKeys m) then mapKeys m
    else (mapKeys m ++ [k])%list.
Proof.
  unfold mapKeys.
  induction m as [|[k0 v0] m IH]; simpl; [reflexivity|].
  rewrite (String.eqb_sym k k0).
  destruct (String.eqb_spec k0 k) as [->|Hne]; simpl; [reflexivity|].
  rewrite IH.
  destruct (existsb (String.eqb k) (map fst m)); reflexivity.
Qed.

Lemma existsb_eqb_In (k : string) (l : list string) :
  existsb (String.eqb k) l = true <-> In k l.
Proof.
  rewrite existsb_exists. split.
  - intros (x & Hin & E). apply String.eqb_eq in E. now subst.
  - intros H. exists k. split; [exact H|apply String.eqb_refl].
Qed.

Lemma mapSet_NoDup {V} (k : string) (v : V) (m : JsMap V) :
  NoDup (mapKeys m) -> NoDup (mapKeys (mapSet k v m)).
Proof.
  intros H. rewrite mapKeys_mapSet.
  destruct (existsb (String.eqb k) (mapKeys m)) eqn:E; [exact H|].
  apply NoDup_app; [exact H|repeat constructor; intros []|].
  intros x Hx [<-|[]]. apply existsb_eqb_In in Hx. congruence.
Qed.

Lemma mapGet_None_keys {V} (k : string) : forall m : JsMap V,
  mapGet k m = None <-> ~ In k (mapKeys m).
Proof.
  induction m as [|[k0 v0] m IH]; simpl; [tauto|].
  destruct (String.eqb_spec k0 k) as [->|Hne].
  - split; [discriminate|]. intros H. exfalso. apply H. now left.
  - rewrite IH. unfold mapKeys. tauto.
Qed.

Lemma mapDelete_spec {V} (k : string) : forall m : JsMap V,
  NoDup (mapKeys m) ->
  fst (mapDelete k m)
  = match mapGet k m with Some _ => true | None => false end /\
  NoDup (mapKeys (snd (mapDelete k m))) /\
  (forall k', mapGet k' (snd (mapDelete k m))
              = if (k =? k')%string then None else mapGet k' m) /\
  mapKeys (snd (mapDelete k m))
  = filter (fun x => negb (x =? k)%string) (mapKeys m).
Proof.
  induction m as [|[k0 v0] m IH]; intros Hnd.
  - simpl. repeat split; auto. intros k'. now destruct (k =? k')%string.
  - inversion Hnd as [|? ? Hfresh Hnd']; subst.
    destruct (IH Hnd') as (Hf & Hn & Hg & Hk). cbn [mapDelete mapGet].
    destruct (String.eqb_spec k0 k) as [->|Hne].
    + cbn [fst snd]. split; [reflexivity|]. split; [exact Hnd'|]. split.
      * intros k'. cbn [mapGet].
        destruct (String.eqb_spec k k') as [<-|]; [|reflexivity].
        apply mapGet_None_keys. exact Hfresh.
      * cbn [mapKeys map fst filter]. rewrite String.eqb_refl. simpl.
        symmetry. apply forallb_filter_id. apply forallb_forall.
        intros x Hx. apply negb_true_iff, String.eqb_neq.
        intros ->. exact (Hfresh Hx).
    + destruct (mapDelete k m) as [found rest]. cbn [fst snd] in *.
      split; [exact Hf|]. split.
      * cbn [mapKeys map fst]. constructor; [|exact Hn].
        unfold mapKeys in Hk. rewrite Hk. intros Hin.
        apply filter_In in Hin. tauto.
      * split.
        -- intros k'. cbn [mapGet]. rewrite Hg.
           destruct (String.eqb_spec k0 k') as [->|]; [|reflexivity].
           destruct (String.eqb_spec k k'); [congruence|reflexivity].
        -- cbn [mapKeys map fst filter]. unfold mapKeys in Hk. rewrite Hk.
           destruct (String.eqb_spec k0 k); [congruence|reflexivity].
Qed.

Lemma mapSet_new {V} (k : string) (v : V) : forall m : JsMap V,
  mapGet k m = None -> mapSet k v m = (m ++ [(k, v)])%list.
Proof.
  induction m as [|[k0 v0] m IH]; simpl; intros H; [reflexivity|].
  destruct (String.eqb_spec k0 k); [discriminate|]. now rewrite IH.
Qed.

Lemma mapSet_present_length {V} (k : string) (v : V) : forall m : JsMap V,
  mapGet k m <> None -> List.length (mapSet k v m) = List.length m.
Proof.
  induction m as [|[k0 v0] m IH]; simpl; intros H; [congruence|].
  destruct (String.eqb_spec k0 k); simpl; [reflexivity|]. now rewrite IH.
Qed.

(** ** The in-memory store *)

(** X7. The in-memory store keeps one entry per id.  After [set], [get] of
    that id returns the task just stored and [get] of any other id is
    unchanged; a new id is listed last, and an id stored again keeps its
    place in the listing, which keeps its length. *)
Theorem store_set_get
    (memoryStore : JsMap TaskSession) (id : string) (task : TaskSession) :
  NoDup (mapKeys memoryStore) ->
  NoDup (mapKeys (store_set memoryStore id task)) /\
  store_get (store_set memoryStore id task) id = Some task /\
  (forall other, other <> id ->
     store_get (store_set memoryStore id task) other
     = store_get memoryStore other) /\
  (store_get memoryStore id = None ->
     store_list (store_set memoryStore id task)
     = (store_list memoryStore ++ [task])%list) /\
  (store_get memoryStore id <> None ->
     mapKeys (store_set memoryStore id task) = mapKeys memoryStore /\
     List.length (store_list (store_set memoryStore id task))
     = List.length (store_list memoryStore)).
Proof.
  intros Hnd. unfold store_set, store_get, store_list, mapValues.
  split; [apply mapSet_NoDup, Hnd|].
  split; [rewrite mapGet_mapSet, String.eqb_refl; reflexivity|].
  split; [|split].
  - intros other Hne. rewrite mapGet_mapSet.
    destruct (String.eqb_spec id other); [congruence|reflexivity].
  - intros H. rewrite (mapSet_new _ _ _ H), map_app. reflexivity.
  - intros H. split.
    + rewrite mapKeys_mapSet.
      destruct (existsb (String.eqb id) (mapKeys memoryStore)) eqn:E;
        [reflexivity|].
      exfalso. apply H. apply mapGet_None_keys. intros Hin.
      apply existsb_eqb_In in Hin. congruence.
    + rewrite !length_map. apply mapSet_present_length, H.
Qed.

Lemma store_set_get_witness :
  store_get (store_set [("a", {| task_id := "a"; task_actions := [] |})]
                       "b" {| task_id := "b"; task_actions := [] |}) "b"
  = Some {| task_id := "b"; task_actions := [] |}.
Proof.
  apply (store_set_get [("a", {| task_id := "a"; task_actions := [] |})]
           "b" {| task_id := "b"; task_actions := [] |}).
  simpl. repeat constructor. intros [].
Defined.

(** X8. [delete] reports [true] exactly when the id was stored; after it
    the id is gone, every other id reads as before, the listing loses
    exactly the entries of that id, and there is still one entry per
    id. *)
Theorem store_delete_get
    (memoryStore : JsMap TaskSession) (id : string) :
  NoDup (mapKeys memoryStore) ->
  (fst (store_delete memoryStore id) = true <->
     store_get memoryStore id <> None) /\
  store_get (snd (store_delete memoryStore id)) id = None /\
  (forall other, other <> id ->
     store_get (snd (store_delete memoryStore id)) other
     = store_get memoryStore other) /\
  NoDup (mapKeys (snd (store_delete memoryStore id))) /\
  mapKeys (snd (store_delete memoryStore id))
  = filter (fun x => negb (x =? id)%string) (mapKeys memoryStore).
Proof.
  intros Hnd. unfold store_delete, store_get.
  destruct (mapDelete_spec id memoryStore Hnd) as (Hf & Hn & Hg & Hk).
  split; [|split; [|split; [|split]]].
  - rewrite Hf. destruct (mapGet id memoryStore); split; congruence.
  - rewrite Hg, String.eqb_refl. reflexivity.
  - intros other Hne. rewrite Hg.
    destruct (String.eqb_spec id other); [congruence|reflexivity].
  - exact Hn.
  - exact Hk.
Qed.

Lemma store_delete_get_witness :
  store_get
    (snd (store_delete [("a", {| task_id := "a"; task_actions := [] |});
                        ("b", {| task_id := "b"; task_actions := [] |})] "a"))
    "a" = None.
Proof.
  apply (store_delete_get
           [("a", {| task_id := "a"; task_actions := [] |});
            ("b", {| task_id := "b"; task_actions := [] |})] "a").
  simpl. repeat constructor; simpl; intuition discriminate.
Defined.

(** X9. The conversation map: after [registerConversation] the
    conversation resolves to the task registered last, other conversations
    are untouched, and after [clearConversation] it resolves to
    nothing. *)
Theorem conversation_register_clear
    (conversationMap : JsMap string) (conversationId taskId : string) :
  NoDup (mapKeys conversationMap) ->
  getTaskIdForConversation
    (registerConversation conversationMap conversationId taskId)
    conversationId = Some taskId /\
  (forall other, other <> conversationId ->
     getTaskIdForConversation
       (registerConversation conversationMap conversationId taskId) other
     = getTaskIdForConversation conversationMap other) /\
  getTaskIdForConversation
    (clearConversation
       (registerConversation conversationMap conversationId taskId)
       conversationId)
    conversationId = None /\
  (forall other, other <> conversationId ->
     getTaskIdForConversation
       (clearConversation conversationMap conversationId) other
     = getTaskIdForConversation conversationMap other).
Proof.
  intros Hnd.
  unfold getTaskIdForConversation, registerConversation, clearConversation.
  split; [rewrite mapGet_mapSet, String.eqb_refl; reflexivity|].
  split; [|split].
  - intros other Hne. rewrite mapGet_mapSet.
    destruct (String.eqb_spec conversationId other); [congruence|reflexivity].
  - pose proof (mapSet_NoDup conversationId taskId conversationMap Hnd) as H.
    destruct (mapDelete_spec conversationId _ H) as (_ & _ & Hg & _).
    rewrite Hg, String.eqb_refl. reflexivity.
  - intros other Hne.
    destruct (mapDelete_spec conversationId _ Hnd) as (_ & _ & Hg & _).
    rewrite Hg.
    destruct (String.eqb_spec conversationId other); [congruence|reflexivity].
Qed.

Lemma conversation_register_clear_witness :
  getTaskIdForConversation
    (registerConversation [("c1", "t1")] "c1" "t2") "c1" = Some "t2".
Proof.
  apply (conversation_register_clear [("c1", "t1")] "c1" "t2").
  simpl. repeat constructor. intros [].
Defined.

(** ** [executePipeline] *)

Section PipelineFacts.

Variable config : LLMConfig.
Variable callModel : list ProviderCall -> ProviderCall -> Outcome string.

Lemma executeSteps_returns : forall steps responses results log log',
  stepsReturn config callModel log steps responses log' ->
  NoDup (mapKeys results) ->
  exists final,
    executeSteps config callModel steps results log = (Returned final, log') /\
    NoDup (mapKeys final) /\
    (forall name,
       mapGet name final
       = fold_left
           (fun acc sr => if (step_name (fst sr) =? name)%string
                          then Some (snd sr) else acc)
           (combine steps responses) (mapGet name results)).
Proof.
  induction steps as [|step steps IH]; intros responses results log log' H Hnd.
  - destruct responses; [|contradiction]. simpl in H. subst log'.
    exists results. simpl. auto.
  - destruct responses as [|r responses]; [contradiction|].
    destruct H as (log1 & Hc & Hrest). cbn [executeSteps].
    unfold stepOptions in Hc. rewrite Hc.
    destruct (IH responses (mapSet (step_name step) r results) log1 log'
                Hrest (mapSet_NoDup _ _ _ Hnd)) as (final & -> & Hn & Hg).
    exists final. split; [reflexivity|]. split; [exact Hn|].
    intros name. rewrite Hg, mapGet_mapSet. reflexivity.
Qed.

Lemma executeSteps_fails : forall pre responses step post results log log1
                                  log2 message,
  stepsReturn config callModel log pre responses log1 ->
  complete config callModel (step_prompt step) (stepOptions step) log1
    = (Thrown message, log2) ->
  executeSteps config callModel (pre ++ step :: post)%list results log
  = (Thrown ("Pipeline step " ++ dq ++ step_name step ++ dq ++
             " failed: " ++ message), log2).
Proof.
  induction pre as [|s pre IH];
    intros responses step post results log log1 log2 message H Hc.
  - destruct responses; [|contradiction]. simpl in H. subst log1.
    cbn [app executeSteps]. unfold stepOptions in Hc. rewrite Hc. reflexivity.
  - destruct responses as [|r responses]; [contradiction|].
    destruct H as (log0 & Hc0 & Hrest). cbn [app executeSteps].
    unfold stepOptions in Hc0. rewrite Hc0.
    exact (IH responses step post _ _ _ _ _ Hrest Hc).
Qed.

Lemma appendsAtMost_executeSteps : forall steps results,
  appendsAtMost (List.length steps * List.length (models config))
    (executeSteps config callModel steps results).
Proof.
  induction steps as [|step steps IH]; intros results log.
  - exists []. simpl. now rewrite app_nil_r.
  - cbn [executeSteps List.length Nat.mul].
    destruct (appendsAtMost_complete config callModel (step_prompt step)
                (stepOptions step) log) as (e1 & H1 & L1).
    unfold stepOptions in H1.
    destruct (complete config callModel (step_prompt step) _ log)
      as [[r|msg] log1]; simpl in H1; subst log1.
    + destruct (IH (mapSet (step_name step) r results) (log ++ e1)%list)
        as (e2 & H2 & L2).
      exists (e1 ++ e2)%list. rewrite H2, app_assoc, length_app.
      split; [reflexivity|lia].
    + exists e1. simpl. split; [reflexivity|lia].
Qed.

End PipelineFacts.

(** X10. When every step's call returns, [executePipeline] returns a map
    with one entry per step name, and the entry of a name is the response
    of the last step that has this name; the log is the log after the last
    call. *)
Theorem executePipeline_results
    (config : LLMConfig)
    (callModel : list ProviderCall -> ProviderCall -> Outcome string)
    (steps : list PipelineStep) (responses : list string)
    (log log' : list ProviderCall) :
  stepsReturn config callModel log steps responses log' ->
  exists results,
    executePipeline config callModel steps log = (Returned results, log') /\
    NoDup (mapKeys results) /\
    (forall name,
       mapGet name results = lastResponse name (combine steps responses)).
Proof.
  intros H. unfold executePipeline, lastResponse.
  destruct (executeSteps_returns config callModel steps responses [] log log'
              H (NoDup_nil _)) as (final & Heq & Hn & Hg).
  exists final. auto.
Qed.

Lemma executePipeline_results_witness :
  exists results,
    executePipeline sampleConfig sampleProvider
      [ {| step_name := "a"; step_prompt := "p1"; step_maxTokens := None |};
        {| step_name := "a"; step_prompt := "p2"; step_maxTokens := None |} ]
      []
    = (Returned results,
       map (fun pm => requestFor sampleConfig (fst pm)
                        {| systemPrompt := None; maxTokens := None;
                           temperature := None |} (snd pm))
           [("p1", "gpt-4o"); ("p1", "gpt-4o-mini");
            ("p2", "gpt-4o"); ("p2", "gpt-4o-mini")]) /\
    NoDup (mapKeys results) /\
    (forall name,
       mapGet name results
       = lastResponse name
           (combine
              [ {| step_name := "a"; step_prompt := "p1";
                   step_maxTokens := None |};
                {| step_name := "a"; step_prompt := "p2";
                   step_maxTokens := None |} ]
              ["<chunks>not json</chunks>"; "<chunks>not json</chunks>"])).
Proof.
  apply (executePipeline_results sampleConfig sampleProvider).
  simpl. eexists. split; [reflexivity|]. eexists. split; reflexivity.
Defined.

(** X11. When the calls of the steps before some step return and the call
    of that step throws, [executePipeline] throws
    [Pipeline step "<name>" failed: <message>] with the name of that step
    and the message of its error, and the log is the one left by the
    failed call: no later step is started. *)
Theorem executePipeline_failure
    (config : LLMConfig)
    (callModel : list ProviderCall -> ProviderCall -> Outcome string)
    (pre : list PipelineStep) (responses : list string)
    (step : PipelineStep) (post : list PipelineStep)
    (log log1 log2 : list ProviderCall) (message : string) :
  stepsReturn config callModel log pre responses log1 ->
  complete config callModel (step_prompt step) (stepOptions step) log1
    = (Thrown message, log2) ->
  executePipeline config callModel (pre ++ step :: post)%list log
  = (Thrown ("Pipeline step " ++ dq ++ step_name step ++ dq ++
             " failed: " ++ message), log2).
Proof.
  intros H Hc. unfold executePipeline.
  exact (executeSteps_fails config callModel pre responses step post [] log
           log1 log2 message H Hc).
Qed.

Lemma executePipeline_failure_witness :
  fst (executePipeline sampleConfig failingProvider
         [ {| step_name := "first"; step_prompt := "p1";
              step_maxTokens := None |};
           {| step_name := "second"; step_prompt := "p2";
              step_maxTokens := None |} ] [])
  = Thrown ("Pipeline step " ++ dq ++ "first" ++ dq ++ " failed: " ++
            "All openai models failed:" ++ nl ++
            "  gpt-4o: unavailable: gpt-4o" ++ nl ++
            "  gpt-4o-mini: unavailable: gpt-4o-mini" ++ nl ++
            "  gpt-4-turbo: unavailable: gpt-4-turbo").
Proof.
  refine (f_equal fst
            (executePipeline_failure sampleConfig failingProvider [] []
               {| step_name := "first"; step_prompt := "p1";
                  step_maxTokens := None |}
               [ {| step_name := "second"; step_prompt := "p2";
                    step_maxTokens := None |} ]
               [] [] _ _ eq_refl _)).
  reflexivity.
Defined.

(** X12. [executePipeline] keeps the earlier log and makes at most as many
    provider requests as there are steps times configured models. *)
Theorem executePipeline_request_bound
    (config : LLMConfig)
    (callModel : list ProviderCall -> ProviderCall -> Outcome string)
    (steps : list PipelineStep) (log : list ProviderCall) :
  exists extra,
    snd (executePipeline config callModel steps log) = (log ++ extra)%list /\
    List.length extra <= List.length steps * List.length (models config).
Proof.
  exact (appendsAtMost_executeSteps config callModel steps [] log).
Qed.

(** ** The model list of [getConfig] *)

Lemma modelsWithPreferred_sound preferred chain :
  NoDup chain ->
  NoDup (modelsWithPreferred preferred chain) /\
  incl chain (modelsWithPreferred preferred chain) /\
  (forall q, preferred = Some q -> q <> ""%string ->
     modelsWithPreferred preferred chain
     = q :: filter (fun m => negb (m =? q)%string) chain) /\
  (preferred = None \/ preferred = Some ""%string ->
     modelsWithPreferred preferred chain = chain).
Proof.
  intros Hnd. unfold modelsWithPreferred.
  destruct preferred as [p|].
  - destruct (String.eqb_spec p "") as [->|Hp].
    + repeat split; auto using incl_refl. intros q [= <-] Hq. congruence.
    + split; [|split; [|split]].
      * constructor; [|apply NoDup_filter, Hnd].
        intros Hin. apply filter_In in Hin. destruct Hin as [_ Hin].
        rewrite String.eqb_refl in Hin. discriminate.
      * intros m Hm. destruct (String.eqb_spec m p) as [->|Hne];
          [now left|]. right. apply filter_In. split; [exact Hm|].
        apply negb_true_iff, String.eqb_neq, Hne.
      * intros q [= <-] _. reflexivity.
      * intros [H|H]; congruence.
  - repeat split; auto using incl_refl. intros q H. discriminate.
Qed.

Lemma fallback_chains_distinct :
  NoDup OPENAI_MODEL_FALLBACK_CHAIN /\ NoDup CLAUDE_MODEL_FALLBACK_CHAIN.
Proof.
  split; repeat constructor; simpl; intuition discriminate.
Qed.

(** X13. The model list of [getConfig] never names a model twice and
    always contains the whole fallback chain of the provider in use; a
    non-empty preferred model is tried first, followed by the chain
    without it in the chain's order; without a preferred model the list is
    the chain.  Every provider name other than [claude] selects the OpenAI
    chain. *)
Theorem configuredModels_order (env : Env) :
  let claude := match LLM_PROVIDER env with
                | Some p => (p =? "claude")%string
                | None => false
                end in
  let chain := if claude then CLAUDE_MODEL_FALLBACK_CHAIN
               else OPENAI_MODEL_FALLBACK_CHAIN in
  let preferred := if claude then CLAUDE_MODEL env else OPENAI_MODEL env in
  NoDup (configuredModels env) /\
  incl chain (configuredModels env) /\
  (forall q, preferred = Some q -> q <> ""%string ->
     configuredModels env
     = q :: filter (fun m => negb (m =? q)%string) chain) /\
  (preferred = None \/ preferred = Some ""%string ->
     configuredModels env = chain).
Proof.
  intros claude chain preferred.
  assert (E : configuredModels env = modelsWithPreferred preferred chain).
  { unfold configuredModels, preferred, chain, claude.
    destruct (LLM_PROVIDER env) as [p|]; [|reflexivity].
    destruct (String.eqb_spec p "") as [->|]; [reflexivity|].
    destruct (p =? "claude")%string; reflexivity. }
  rewrite E. apply modelsWithPreferred_sound.
  unfold chain. destruct claude; apply fallback_chains_distinct.
Qed.

Lemma configuredModels_order_witness :
  configuredModels {| LLM_PROVIDER := None; CLAUDE_MODEL := None;
                      OPENAI_MODEL := Some "gpt-4" |}
  = ["gpt-4"; "gpt-4o"; "gpt-4o-mini"; "gpt-4-turbo"; "gpt-3.5-turbo"].
Proof.
  apply (proj1 (proj2 (proj2 (configuredModels_order
           {| LLM_PROVIDER := None; CLAUDE_MODEL := None;
              OPENAI_MODEL := Some "gpt-4" |}))) "gpt-4").
  - reflexivity.
  - discriminate.
Defined.

(** ** The response parsers *)

Lemma prefix_before_char ch : forall w b z,
  hasChar ch w = false ->
  prefix w (b ++ String ch z) = prefix w b.
Proof.
  induction w as [|c w IH]; intros b z Hw; [now rewrite !prefix_nil|].
  cbn [hasChar] in Hw. apply orb_false_iff in Hw. destruct Hw as [Hc Hw].
  destruct b as [|d b]; cbn [append prefix].
  - destruct (ascii_dec c ch) as [->|]; [|reflexivity].
    rewrite Ascii.eqb_refl in Hc. discriminate.
  - destruct (ascii_dec c d); [|reflexivity]. apply IH, Hw.
Qed.

Lemma startsWithin_before_char ch w z :
  hasChar ch w = false ->
  forall s, startsWithin (String ch w) s (String ch z)
            = occurs (String ch w) s.
Proof.
  intros Hw. unfold occurs. induction s as [|c s IH]; [reflexivity|].
  cbn [startsWithin]. rewrite IH. f_equal. rewrite append_nil_r.
  cbn [append prefix]. destruct (ascii_dec ch c); [|reflexivity].
  apply prefix_before_char, Hw.
Qed.

Lemma matchDelimited_first ch1 open ch2 close a body c :
  hasChar ch1 open = false -> hasChar ch2 close = false ->
  occurs (String ch1 open) a = false ->
  occurs (String ch2 close) body = false ->
  matchDelimited (String ch1 open) (String ch2 close)
    (a ++ String ch1 open ++ body ++ String ch2 close ++ c)
  = Some body.
Proof.
  intros H1 H2 Ha Hb. unfold matchDelimited.
  rewrite cut_first.
  - rewrite cut_first; [reflexivity|].
    cbn [append]. rewrite startsWithin_before_char; assumption.
  - cbn [append]. rewrite startsWithin_before_char; assumption.
Qed.

(** X14. A response whose first [<chunks>] block holds valid JSON is
    parsed into the chunks of that block, whatever surrounds the block.
    "First" is made precise by the hypotheses: no opening tag before the
    block and no closing tag inside it. *)
Theorem parseChunkerResponse_first_block
    (tx : Texts) (a body c : string) (parsed : JsonValue ChunkJson) :
  occurs "<chunks>" a = false ->
  occurs "</chunks>" body = false ->
  JSON_parse_chunks tx (trim body) = Some parsed ->
  chunker_chunks
    (parseChunkerResponse tx (a ++ "<chunks>" ++ body ++ "</chunks>" ++ c))
  = parsed.
Proof.
  intros Ha Hb Hp. unfold parseChunkerResponse. cbn [chunker_chunks].
  rewrite (matchDelimited_first "<" "chunks>" "<" "/chunks>" a body c
             eq_refl eq_refl Ha Hb).
  now rewrite Hp.
Qed.

Lemma parseChunkerResponse_first_block_witness :
  chunker_chunks
    (parseChunkerResponse parsingTexts
       ("<chunking_analysis>two phases</chunking_analysis>" ++ nl ++
        "<chunks>" ++ (nl ++ sampleChunksText ++ nl) ++ "</chunks>" ++ nl))
  = json_array [Some sampleChunkJson].
Proof.
  apply (parseChunkerResponse_first_block parsingTexts
           ("<chunking_analysis>two phases</chunking_analysis>" ++ nl)
           (nl ++ sampleChunksText ++ nl) nl
           (json_array [Some sampleChunkJson])); reflexivity.
Defined.

(** X15. Like the segmenter parser, [parseAnalyzerResponse] degrades: when
    the response holds no [<know_how_extraction>] block, or the content of
    the block it picks is not valid JSON, the know-how is the object whose
    six arrays are empty, and so is its conversion. *)
Theorem parseAnalyzerResponse_degrades (tx : Texts) (response : string) :
  noParseableKnowHow tx response ->
  analyzer_knowHow (parseAnalyzerResponse tx response)
  = non_null emptyKnowHowJson /\
  toKnowHow (analyzer_knowHow (parseAnalyzerResponse tx response))
  = Returned {| decisionCriteria := [];
                successSignals := [];
                failureSignals := [];
                criticalFields := [];
                cornerCases := [];
                expertShortcuts := [] |}.
Proof.
  intros H.
  assert (E : analyzer_knowHow (parseAnalyzerResponse tx response)
              = non_null emptyKnowHowJson).
  { unfold parseAnalyzerResponse. cbn [analyzer_knowHow].
    destruct H as [Habs|(body & Hm & Hp)].
    - destruct (matchDelimited "<know_how_extraction>"
                  "</know_how_extraction>" response) as [body|] eqn:E;
        [|reflexivity].
      exfalso. apply Habs. apply matchDelimited_sound in E.
      destruct E as (a & c & E). exists a, body, c. exact E.
    - now rewrite Hm, Hp. }
  rewrite E. split; reflexivity.
Qed.

Lemma parseAnalyzerResponse_degrades_witness :
  analyzer_knowHow
    (parseAnalyzerResponse sampleTexts
       "<know_how_extraction>{oops</know_how_extraction>")
  = non_null emptyKnowHowJson.
Proof.
  apply (parseAnalyzerResponse_degrades sampleTexts
           "<know_how_extraction>{oops</know_how_extraction>").
  right. exists "{oops". split; reflexivity.
Defined.

(** *** The renderer parser on arbitrary text *)

Lemma trimStart_idem : forall s, trimStart (trimStart s) = trimStart s.
Proof.
  induction s as [|c s IH]; [reflexivity|]. cbn [trimStart].
  destruct (isSpace c) eqn:E; [exact IH|]. cbn [trimStart]. now rewrite E.
Qed.

Lemma trim_idem s : trim (trim s) = trim s.
Proof.
  unfold trim.
  now rewrite trimStart_trimEnd, trimStart_idem, trimEnd_idem.
Qed.

Lemma cut_absent needle s :
  needle <> ""%string -> occurs needle s = false -> cut needle s = None.
Proof.
  intros Hne H. rewrite <- (append_nil_r s).
  rewrite (cut_skip needle s "" H).
  destruct needle; [congruence|]. reflexivity.
Qed.

(** X16. The parsed sections are views of [rawMarkdown]: parsing the
    [rawMarkdown] of a parsed response gives the same four fields again,
    and every field comes back trimmed. *)
Theorem parseGeneratorResponse_stable (response : string) :
  let parsed := parseGeneratorResponse response in
  parseGeneratorResponse (resp_rawMarkdown parsed) = parsed /\
  trim (resp_summary parsed) = resp_summary parsed /\
  trim (resp_instructions parsed) = resp_instructions parsed /\
  trim (resp_knowHow parsed) = resp_knowHow parsed /\
  trim (resp_rawMarkdown parsed) = resp_rawMarkdown parsed.
Proof.
  unfold parseGeneratorResponse. cbn [resp_rawMarkdown resp_summary
    resp_instructions resp_knowHow].
  rewrite trim_idem. split; [reflexivity|].
  repeat split;
    try (destruct (matchSection _ _ (trim response));
         [apply trim_idem|reflexivity]).
Qed.

(** X17. A heading that does not occur (followed by a line feed) in the
    trimmed response gives an empty section, never an error; a response
    without any of the three heading lines gives three empty sections and
    keeps the whole trimmed text as [rawMarkdown]. *)
Theorem parseGeneratorResponse_missing_headings (response : string) :
  (occurs ("# Summary" ++ nl) (trim response) = false ->
   resp_summary (parseGeneratorResponse response) = ""%string) /\
  (occurs ("# Instructions" ++ nl) (trim response) = false ->
   resp_instructions (parseGeneratorResponse response) = ""%string) /\
  (occurs ("# Know-How" ++ nl) (trim response) = false ->
   resp_knowHow (parseGeneratorResponse response) = ""%string) /\
  resp_rawMarkdown (parseGeneratorResponse response) = trim response.
Proof.
  unfold parseGeneratorResponse, matchSection.
  cbn [resp_rawMarkdown resp_summary resp_instructions resp_knowHow].
  split; [|split; [|split]]; try reflexivity;
    intros H; (rewrite cut_absent; [reflexivity|discriminate|exact H]).
Qed.

Lemma parseGeneratorResponse_missing_headings_witness :
  resp_summary
    (parseGeneratorResponse ("# Summary of the task" ++ nl ++ "text"))
  = ""%string.
Proof.
  apply (proj1 (parseGeneratorResponse_missing_headings
                  ("# Summary of the task" ++ nl ++ "text"))).
  reflexivity.
Defined.

(** ** Long pauses *)

Lemma longPausesLoop_app : forall rest i pauses,
  longPausesLoop i rest pauses
  = (pauses ++ longPausesLoop i rest [])%list.
Proof.
  induction rest as [|a rest IH]; intros i pauses; simpl.
  - now rewrite app_nil_r.
  - rewrite IH. rewrite (IH (S i) (match idleTimeBefore (metadata a) with
                                   | Some _ => _ | None => _ end)).
    destruct (idleTimeBefore (metadata a)) as [t|]; [|reflexivity].
    destruct (negb (t =? 0)%Z && (LONG_PAUSE_THRESHOLD_MS <=? t)%Z);
      [|reflexivity].
    now rewrite <- app_assoc.
Qed.

Lemma longPause_test t :
  negb (t =? 0)%Z && (LONG_PAUSE_THRESHOLD_MS <=? t)%Z = (10000 <=? t)%Z.
Proof.
  unfold LONG_PAUSE_THRESHOLD_MS.
  destruct (Z.eqb_spec t 0), (Z.leb_spec 10000 t); simpl; try reflexivity.
  lia.
Qed.

Lemma longPausesLoop_spec : forall rest i,
  (forall p, In p (longPausesLoop i rest []) <->
     exists a, nth_error rest (pause_index p - i) = Some a /\
               i <= pause_index p /\
               idleTimeBefore (metadata a) = Some (durationMs p) /\
               (10000 <= durationMs p)%Z) /\
  StronglySorted lt (map pause_index (longPausesLoop i rest [])).
Proof.
  induction rest as [|a rest IH]; intros i.
  - simpl. split; [|constructor]. intros p. split; [contradiction|].
    intros (a & H & _). destruct (pause_index p - i); discriminate.
  - destruct (IH (S i)) as [Hin Hs]. cbn [longPausesLoop].
    rewrite longPausesLoop_app.
    assert (Hlow : Forall (fun k => i < k)
                     (map pause_index (longPausesLoop (S i) rest []))).
    { apply Forall_forall. intros k Hk. apply in_map_iff in Hk.
      destruct Hk as (p & <- & Hp). apply Hin in Hp.
      destruct Hp as (_ & _ & Hle & _). lia. }
    assert (Hrest : forall p,
              (exists b, nth_error (a :: rest) (pause_index p - i) = Some b /\
                         i <= pause_index p /\
                         idleTimeBefore (metadata b) = Some (durationMs p) /\
                         (10000 <= durationMs p)%Z) <->
              (pause_index p = i /\
               idleTimeBefore (metadata a) = Some (durationMs p) /\
               (10000 <= durationMs p)%Z) \/
              In p (longPausesLoop (S i) rest [])).
    { intros p. rewrite Hin. split.
      - intros (b & Hn & Hle & Hb).
        destruct (pause_index p - i) as [|k] eqn:Ek.
        + left. simpl in Hn. injection Hn as <-. split; [lia|exact Hb].
        + right. exists b. simpl in Hn.
          replace (pause_index p - S i) with k by lia.
          split; [exact Hn|]. split; [lia|exact Hb].
      - intros [(Hi & Hb)|(b & Hn & Hle & Hb)].
        + exists a. rewrite Hi, Nat.sub_diag. simpl. split; [reflexivity|].
          split; [lia|exact Hb].
        + exists b. replace (pause_index p - i)
            with (S (pause_index p - S i)) by lia.
          simpl. split; [exact Hn|]. split; [lia|exact Hb]. }
    destruct (idleTimeBefore (metadata a)) as [t|] eqn:Et.
    + rewrite longPause_test. destruct (Z.leb_spec 10000 t) as [Ht|Ht].
      * split.
        -- intros p. rewrite Hrest. cbn [app In]. split.
           ++ intros [<-|Hp]; [left; simpl; auto|right; exact Hp].
           ++ intros [(Hi & Hb & _)|Hp]; [left|right; exact Hp].
              destruct p as [pi pd]. simpl in *. congruence.
        -- cbn [app map pause_index]. constructor; assumption.
      * split; [|exact Hs]. intros p. rewrite Hrest. cbn [app]. split.
        -- intros Hp. right. exact Hp.
        -- intros [(_ & Hb & Hge)|Hp]; [|exact Hp].
           injection Hb as Hb. lia.
    + split; [|exact Hs]. intros p. rewrite Hrest. cbn [app]. split.
      * intros Hp. right. exact Hp.
      * intros [(_ & Hb & _)|Hp]; [discriminate|exact Hp].
Qed.

(** X18. [detectLongPauses] reports the action at index [i] exactly when
    its [idleTimeBefore] is present and at least 10000 ms (the threshold
    is inclusive); the reported duration is that idle time, and the
    entries come in increasing order of index, one per action at most. *)
Theorem detectLongPauses_threshold (acts : list Action) :
  (forall i d,
     In {| pause_index := i; durationMs := d |} (detectLongPauses acts) <->
     exists a, nth_error acts i = Some a /\
               idleTimeBefore (metadata a) = Some d /\ (10000 <= d)%Z) /\
  StronglySorted lt (map pause_index (detectLongPauses acts)).
Proof.
  unfold detectLongPauses. destruct (longPausesLoop_spec acts 0) as [Hin Hs].
  split; [|exact Hs]. intros i d. rewrite Hin. cbn [pause_index durationMs].
  rewrite Nat.sub_0_r. split.
  - intros (a & H1 & _ & H2). exists a. auto.
  - intros (a & H1 & H2). exists a. split; [exact H1|]. split; [lia|exact H2].
Qed.

(** ** Domains *)

Lemma setAdd_In x s y : In y (setAdd x s) <-> y = x \/ In y s.
Proof.
  unfold setAdd. destruct (existsb (String.eqb x) s) eqn:E.
  - apply existsb_eqb_In in E. split; [auto|]. intros [->|H]; assumption.
  - rewrite in_app_iff. simpl. intuition.
Qed.

Lemma setAdd_NoDup x s : NoDup s -> NoDup (setAdd x s).
Proof.
  intros H. unfold setAdd. destruct (existsb (String.eqb x) s) eqn:E;
    [exact H|].
  apply NoDup_app; [exact H|repeat constructor; intros []|].
  intros y Hy [<-|[]]. apply existsb_eqb_In in Hy. congruence.
Qed.

Lemma setAdd_length x s : List.length (setAdd x s) <= S (List.length s).
Proof.
  unfold setAdd. destruct (existsb (String.eqb x) s); [lia|].
  rewrite length_app. simpl. lia.
Qed.

Lemma analyzeUrlsLoop_domains hostname : forall rest n lastUrl_ domains,
  NoDup domains ->
  (forall h, hostname lastUrl_ = Some h -> In h domains) ->
  List.length domains <= n ->
  let r := analyzeUrlsLoop hostname rest n lastUrl_ domains in
  NoDup (snd r) /\
  (forall h, In h (snd r) <->
     In h domains \/ exists a, In a rest /\ hostname (url a) = Some h) /\
  List.length (snd r) <= fst r /\ fst r <= n + List.length rest.
Proof.
  induction rest as [|a rest IH]; intros n lastUrl_ domains Hnd Hlast Hlen.
  - simpl. repeat split; auto; try lia. intros [H|(a & [] & _)]. exact H.
  - cbn [analyzeUrlsLoop].
    destruct (String.eqb_spec (url a) lastUrl_) as [E|E]; cbn [negb].
    + destruct (IH n lastUrl_ domains Hnd Hlast Hlen) as (H1 & H2 & H3 & H4).
      split; [exact H1|]. split; [|cbn [List.length]; lia].
      intros h. rewrite H2. split.
      * intros [H|(b & Hb & Hh)]; [auto|]. right. exists b. split; [now right|].
        exact Hh.
      * intros [H|(b & [<-|Hb] & Hh)]; [auto| |right; eauto].
        left. apply Hlast. now rewrite <- E.
    + set (domains' := match hostname (url a) with
                       | Some h => setAdd h domains
                       | None => domains
                       end).
      assert (Hnd' : NoDup domains').
      { unfold domains'. destruct (hostname (url a));
          [apply setAdd_NoDup|]; assumption. }
      assert (Hlast' : forall h, hostname (url a) = Some h -> In h domains').
      { intros h Hh. unfold domains'. rewrite Hh. apply setAdd_In. now left. }
      assert (Hlen' : List.length domains' <= n + 1).
      { unfold domains'. destruct (hostname (url a)) as [h|]; [|lia].
        pose proof (setAdd_length h domains). lia. }
      destruct (IH (n + 1) (url a) domains' Hnd' Hlast' Hlen')
        as (H1 & H2 & H3 & H4).
      split; [exact H1|]. split; [|cbn [List.length]; lia].
      intros h. rewrite H2. split.
      * intros [H|(b & Hb & Hh)].
        -- unfold domains' in H. destruct (hostname (url a)) as [h'|] eqn:Eh.
           ++ apply setAdd_In in H. destruct H as [->|H]; [|auto].
              right. exists a. split; [now left|exact Eh].
           ++ auto.
        -- right. exists b. split; [now right|exact Hh].
      * intros [H|(b & [<-|Hb] & Hh)].
        -- left. unfold domains'. destruct (hostname (url a));
             [apply setAdd_In; now right|exact H].
        -- left. apply Hlast', Hh.
        -- right. eauto.
Qed.

(** X19. With a URL parser that rejects the empty string (as [new URL]
    does), [uniqueDomains] lists each hostname once, holds exactly the
    hostnames of the actions whose URL parses, and is no longer than
    [urlChanges], which in turn is at most [totalActions]. *)
Theorem uniqueDomains_are_the_hostnames
    (hostname : string -> option string) (acts : list Action) :
  hostname ""%string = None ->
  let m := calculateMetrics hostname acts in
  NoDup (uniqueDomains m) /\
  (forall h, In h (uniqueDomains m) <->
     exists a, In a acts /\ hostname (url a) = Some h) /\
  List.length (uniqueDomains m) <= urlChanges m /\
  urlChanges m <= totalActions m.
Proof.
  intros Hempty m.
  destruct (analyzeUrlsLoop_domains hostname acts 0 "" [] (NoDup_nil _))
    as (H1 & H2 & H3 & H4).
  { intros h Hh. congruence. }
  { simpl. lia. }
  assert (E : uniqueDomains m = snd (analyzeUrls hostname acts) /\
              urlChanges m = fst (analyzeUrls hostname acts) /\
              totalActions m = List.length acts).
  { unfold m, calculateMetrics. destruct acts as [|a rest]; [auto|].
    destruct (analyzeUrls hostname (a :: rest)); auto. }
  destruct E as (-> & -> & ->). unfold analyzeUrls.
  split; [exact H1|]. split; [|split; [exact H3|exact H4]].
  intros h. rewrite H2. split; [intros [[]|H]; exact H|auto].
Qed.

Lemma uniqueDomains_are_the_hostnames_witness :
  let m := calculateMetrics simpleHostname
             [sampleAction click "https://a.com/x" None;
              sampleAction click "not a url" None;
              sampleAction click "https://a.com/y" None] in
  NoDup (uniqueDomains m) /\
  (forall h, In h (uniqueDomains m) <->
     exists a, In a [sampleAction click "https://a.com/x" None;
                     sampleAction click "not a url" None;
                     sampleAction click "https://a.com/y" None] /\
               simpleHostname (url a) = Some h) /\
  List.length (uniqueDomains m) <= urlChanges m /\
  urlChanges m <= totalActions m.
Proof.
  apply (uniqueDomains_are_the_hostnames simpleHostname
           [sampleAction click "https://a.com/x" None;
            sampleAction click "not a url" None;
            sampleAction click "https://a.com/y" None]).
  reflexivity.
Defined.

(** ** More on back-and-forth patterns *)

(** X20. Every pattern of [detectBackForthPatterns] is a block of
    consecutive indices [j0, ..., i] of the action list; it spans at least
    three and at most eleven actions, and its first and last action have
    the same URL. *)
Theorem backForth_pattern_shape (acts : list Action) (p : BackForthPattern) :
  In p (detectBackForthPatterns acts) ->
  exists j0 i,
    indices p = seq j0 (S (i - j0)) /\
    j0 + 2 <= i /\ i <= j0 + 10 /\ i < List.length acts /\
    urlAt acts j0 = urlAt acts i.
Proof.
  rewrite detectBackForthPatterns_emitted. intros Hp.
  apply in_flat_map in Hp. destruct Hp as (i & Hi & Hp).
  apply in_seq in Hi. apply emittedAt_shape in Hp.
  destruct Hp as (j0 & E & Hlt & Hshape & _).
  unfold oldestQualifying in E. apply find_some in E.
  destruct E as [Hin Hq]. apply in_seq in Hin.
  unfold qualifyingb in Hq. apply andb_true_iff in Hq.
  destruct Hq as [Hu _]. apply String.eqb_eq in Hu.
  exists j0, i. repeat split; auto; lia.
Qed.

Lemma backForth_pattern_shape_witness :
  exists j0 i,
    [0; 1; 2] = seq j0 (S (i - j0)) /\
    j0 + 2 <= i /\ i <= j0 + 10 /\
    i < List.length (map (fun u => sampleAction navigation u None)
                         ["A"; "B"; "A"]) /\
    urlAt (map (fun u => sampleAction navigation u None) ["A"; "B"; "A"]) j0
    = urlAt (map (fun u => sampleAction navigation u None) ["A"; "B"; "A"]) i.
Proof.
  apply (backForth_pattern_shape
           (map (fun u => sampleAction navigation u None) ["A"; "B"; "A"])
           {| indices := [0; 1; 2] |}).
  left. reflexivity.
Defined.

Lemma flat_map_nil_all {A B} (f : A -> list B) (l : list A) :
  (forall x, In x l -> f x = []) -> flat_map f l = [].
Proof.
  induction l as [|x l IH]; intros H; simpl; [reflexivity|].
  rewrite (H x (or_introl eq_refl)), IH; [reflexivity|].
  intros y Hy. apply H. now right.
Qed.

(** X21. When no URL occurs at two different indices, no pattern is
    reported. *)
Theorem backForth_distinct_urls_none (acts : list Action) :
  (forall i j, i < j -> j < List.length acts ->
     urlAt acts i <> urlAt acts j) ->
  detectBackForthPatterns acts = [].
Proof.
  intros Hdistinct. rewrite detectBackForthPatterns_emitted.
  apply flat_map_nil_all. intros i Hi. apply in_seq in Hi.
  unfold emittedAt.
  destruct (oldestQualifying acts i) as [j0|] eqn:E; [|reflexivity].
  exfalso. unfold oldestQualifying in E. apply find_some in E.
  destruct E as [Hin Hq]. apply in_seq in Hin. unfold qualifyingb in Hq.
  apply andb_true_iff in Hq. destruct Hq as [Hu Hlt].
  apply String.eqb_eq in Hu. apply Nat.ltb_lt in Hlt.
  apply (Hdistinct j0 i); [lia|lia|exact Hu].
Qed.

Lemma backForth_distinct_urls_none_witness :
  detectBackForthPatterns
    (map (fun u => sampleAction navigation u None) ["A"; "B"; "C"]) = [].
Proof.
  apply (backForth_distinct_urls_none
           (map (fun u => sampleAction navigation u None) ["A"; "B"; "C"])).
  intros i j Hij Hj. simpl in Hj.
  destruct j as [|[|[|j]]]; try lia;
    destruct i as [|[|i]]; try lia; discriminate.
Defined.

Lemma flat_map_singletons {A B} (f : A -> list B) (g : A -> B) (l : list A) :
  (forall x, In x l -> f x = [g x]) -> flat_map f l = map g l.
Proof.
  induction l as [|x l IH]; intros H; simpl; [reflexivity|].
  rewrite (H x (or_introl eq_refl)), IH; [reflexivity|].
  intros y Hy. apply H. now right.
Qed.

Lemma oldestQualifying_same_url acts u i :
  (forall a, In a acts -> url a = u) -> i < List.length acts ->
  oldestQualifying acts i = if 2 <=? i then Some (i - 10) else None.
Proof.
  intros Hall Hi.
  assert (Hu : forall j, j < List.length acts -> urlAt acts j = u).
  { intros j Hj. unfold urlAt.
    destruct (nth_error acts j) as [a|] eqn:E.
    - apply Hall. eapply nth_error_In, E.
    - apply nth_error_None in E. lia. }
  unfold oldestQualifying. destruct (Nat.leb_spec 2 i) as [H2|H2].
  - destruct (Nat.min i 10) as [|k] eqn:Ek; [lia|]. cbn [seq find].
    unfold qualifyingb at 1. rewrite !Hu by lia. rewrite String.eqb_refl.
    destruct (Nat.ltb_spec (i - 10 + 1) i); [reflexivity|lia].
  - destruct i as [|[|i]]; [reflexivity| |lia]. cbn. unfold qualifyingb.
    rewrite andb_false_r. reflexivity.
Qed.

(** X22. When all actions carry the same URL, a pattern is reported for
    every action from the third on: the one for index [i] starts at the
    oldest entry of the window, [i - 10] (or 0), and runs up to [i].
    Staying on one page counts as going back and forth. *)
Theorem backForth_same_url_every_index (acts : list Action) (u : string) :
  (forall a, In a acts -> url a = u) ->
  map indices (detectBackForthPatterns acts)
  = map (fun i => seq (i - 10) (S (Nat.min i 10)))
        (seq 2 (List.length acts - 2)).
Proof.
  intros Hall. rewrite detectBackForthPatterns_emitted.
  destruct (Nat.le_gt_cases 2 (List.length acts)) as [Hn|Hn].
  - replace (List.length acts) with (2 + (List.length acts - 2)) at 1 by lia.
    rewrite seq_app, flat_map_app.
    rewrite (flat_map_nil_all _ (seq 0 2)).
    + cbn [app]. rewrite (flat_map_singletons _
        (fun i => {| indices := seq (i - 10) (S (Nat.min i 10)) |})).
      * rewrite map_map. reflexivity.
      * intros i Hi. apply in_seq in Hi. unfold emittedAt.
        rewrite (oldestQualifying_same_url acts u i Hall) by lia.
        destruct (Nat.leb_spec 2 i); [|lia].
        do 3 f_equal. lia.
    + intros i Hi. apply in_seq in Hi. unfold emittedAt.
      rewrite (oldestQualifying_same_url acts u i Hall) by lia.
      destruct (Nat.leb_spec 2 i); [lia|reflexivity].
  - replace (List.length acts - 2) with 0 by lia. cbn [seq map].
    rewrite flat_map_nil_all; [reflexivity|].
    intros i Hi. apply in_seq in Hi. unfold emittedAt.
    rewrite (oldestQualifying_same_url acts u i Hall) by lia.
    destruct (Nat.leb_spec 2 i); [lia|reflexivity].
Qed.

Lemma backForth_same_url_every_index_witness :
  map indices
    (detectBackForthPatterns
       (map (fun t => sampleAction t "https://a.com/" None)
            [navigation; click; input; click]))
  = [[0; 1; 2]; [0; 1; 2; 3]].
Proof.
  apply (backForth_same_url_every_index
           (map (fun t => sampleAction t "https://a.com/" None)
                [navigation; click; input; click]) "https://a.com/").
  simpl. intros a [<-|[<-|[<-|[<-|[]]]]]; reflexivity.
Defined.

(** ** More on the pre-chunker *)

Lemma firstn_plus_skipn {A} : forall n m (l : list A),
  (firstn n l ++ firstn m (skipn n l))%list = firstn (n + m) l.
Proof.
  induction n as [|n IH]; intros m l; [reflexivity|].
  destruct l as [|x l]; simpl.
  - now rewrite firstn_nil.
  - now rewrite IH.
Qed.

Lemma slice_join {A} (l : list A) a b c :
  a <= b -> b <= c -> (slice l a b ++ slice l b c)%list = slice l a c.
Proof.
  intros Hab Hbc. unfold slice.
  replace (skipn b l) with (skipn (b - a) (skipn a l))
    by (rewrite skipn_skipn; f_equal; lia).
  rewrite firstn_plus_skipn. f_equal. lia.
Qed.

Lemma tiles_concat acts : forall cs from to,
  tiles acts from cs to ->
  from <= to /\ List.concat (map actions cs) = slice acts from to.
Proof.
  induction cs as [|c cs IH]; intros from to H.
  - simpl in H. subst. split; [lia|]. unfold slice.
    now rewrite Nat.sub_diag.
  - destruct H as (Hs & Hle & Ha & Ht). destruct (IH _ _ Ht) as [Hto Hc].
    split; [lia|]. cbn [map List.concat]. rewrite Ha, Hc, Hs.
    apply slice_join; lia.
Qed.

(** X23. The chunks of [preChunkActions], laid end to end, are the input:
    no action is lost, repeated or moved. *)
Theorem preChunkActions_concat
    (hostname : string -> option string) (acts : list Action) :
  List.concat (map actions (preChunkActions hostname acts)) = acts.
Proof.
  destruct (tiles_concat acts _ _ _ (preChunkActions_tiles hostname acts))
    as [_ H].
  rewrite H. unfold slice. rewrite Nat.sub_0_r. simpl. apply firstn_all.
Qed.

Lemma splitDecision_label hostname lastUrl_ lastMode_ a b :
  splitDecision hostname lastUrl_ lastMode_ a = (true, b) -> b <> start.
Proof.
  unfold splitDecision.
  destruct (_ <=? _)%Z; [intros [= <-]; discriminate|].
  destruct (negb (url a =? lastUrl_)%string).
  - destruct (hostname lastUrl_), (hostname (url a));
      try (intros [= <-]; discriminate).
    destruct (negb _); intros [= <-] || intros [=]; discriminate.
  - destruct (negb _); [intros [= <-]; discriminate|discriminate].
Qed.

Lemma preChunkLoop_labels hostname acts : forall rest i st,
  Forall (fun c => boundary c <> start) (chunks st) ->
  Forall (fun c => boundary c <> start)
         (chunks (preChunkLoop hostname acts i rest st)).
Proof.
  induction rest as [|a rest IH]; intros i st H; [exact H|].
  cbn [preChunkLoop].
  destruct (splitDecision hostname (lastUrl st) (lastMode st) a)
    as [split_ b] eqn:E.
  apply IH. cbn [chunks]. destruct split_; [|exact H].
  unfold createChunk. destruct (_ <=? _); [|exact H]. cbn [chunks].
  apply Forall_app. split; [exact H|]. constructor; [|constructor].
  simpl. eapply splitDecision_label, E.
Qed.

(** X24. For a non-empty action list the last chunk is the only one
    labelled [start]: every chunk closed at a boundary carries the label
    of the rule that closed it ([long_pause], [url_change] or
    [mode_change]), and the trailing chunk is always labelled [start]. *)
Theorem preChunkActions_labels
    (hostname : string -> option string) (acts : list Action) :
  acts <> [] ->
  exists closed final,
    preChunkActions hostname acts = (closed ++ [final])%list /\
    boundary final = start /\
    Forall (fun c => boundary c <> start) closed.
Proof.
  intros Hne. unfold preChunkActions.
  destruct acts as [|a0 rest] eqn:Ea; [congruence|]. rewrite <- Ea.
  set (st0 := {| chunks := []; currentChunkStart := 0;
                 lastUrl := url a0; lastMode := getActionMode (type a0) |}).
  destruct (preChunkLoop_tiles hostname acts rest 1 st0) as [_ Hlt];
    [lia | unfold st0; simpl; lia | reflexivity |].
  assert (Hn : List.length acts = 1 + List.length rest)
    by (rewrite Ea; reflexivity).
  destruct (Nat.ltb_spec
    (currentChunkStart (preChunkLoop hostname acts 1 rest st0))
    (List.length acts)) as [_|]; [|lia].
  unfold createChunk.
  destruct (Nat.leb_spec
    (currentChunkStart (preChunkLoop hostname acts 1 rest st0))
    (List.length acts - 1)) as [_|]; [|lia].
  cbn [chunks]. eexists _, _. split; [reflexivity|]. split; [reflexivity|].
  apply preChunkLoop_labels. constructor.
Qed.

Lemma preChunkActions_labels_witness :
  exists closed final,
    preChunkActions simpleHostname
      [sampleAction navigation "https://a.com/x" None;
       sampleAction click "https://b.org/" None]
    = (closed ++ [final])%list /\
    boundary final = start /\
    Forall (fun c => boundary c <> start) closed.
Proof.
  apply (preChunkActions_labels simpleHostname
           [sampleAction navigation "https://a.com/x" None;
            sampleAction click "https://b.org/" None]).
  discriminate.
Defined.

(** ** The chunk conversions of the generator *)

Lemma sliceZ_length {A} (l : list A) s e :
  List.length (sliceZ l s e) <= List.length l.
Proof.
  unfold sliceZ. rewrite length_firstn, length_skipn. lia.
Qed.

Lemma sliceZ_in_range {A} (l : list A) s e :
  (0 <= s)%Z -> (s <= e)%Z -> (e <= Z.of_nat (List.length l))%Z ->
  sliceZ l s e = slice l (Z.to_nat s) (Z.to_nat e).
Proof.
  intros Hs Hse He. unfold sliceZ, slice, relativeIndex.
  destruct (Z.ltb_spec s 0); [lia|]. destruct (Z.ltb_spec e 0); [lia|].
  rewrite !Z.min_l by lia. f_equal. lia.
Qed.

(** X25. The conversion of a segmenter chunk never fails and never yields
    more actions than the task has, whatever indices the response names.
    The summary sent to the next stage samples at most three actions and
    cuts each sampled text to 30 characters.  For indices within the task,
    [0 <= startIndex <= endIndex < actions.length], the chunk carries
    exactly the actions from [startIndex] through [endIndex]. *)
Theorem chunk_conversion_bounds (acts : list Action) (chunk : ChunkJson) :
  let c := toActionChunk acts chunk in
  let sm := toChunkSummary c in
  cs_actionCount sm <= List.length acts /\
  List.length (cs_sampleActions sm) = Nat.min 3 (cs_actionCount sm) /\
  Forall (fun sa => String.length (sa_text sa) <= 30) (cs_sampleActions sm) /\
  ((0 <= cj_startIndex chunk)%Z ->
   (cj_startIndex chunk <= cj_endIndex chunk)%Z ->
   (cj_endIndex chunk < Z.of_nat (List.length acts))%Z ->
   chunk_actions c
   = slice acts (Z.to_nat (cj_startIndex chunk))
           (Z.to_nat (cj_endIndex chunk) + 1) /\
   Z.of_nat (cs_actionCount sm)
   = (cj_endIndex chunk - cj_startIndex chunk + 1)%Z).
Proof.
  intros c sm. unfold sm, c, toChunkSummary, toActionChunk.
  cbn [cs_actionCount cs_sampleActions chunk_actions].
  split; [apply sliceZ_length|]. split; [|split].
  - rewrite length_map. unfold slice. rewrite length_firstn. simpl skipn.
    reflexivity.
  - apply Forall_forall. intros sa Hsa. apply in_map_iff in Hsa.
    destruct Hsa as (a & <- & _). cbn [sa_text].
    apply substring_length_le.
  - intros Hs Hse He. rewrite sliceZ_in_range by lia.
    replace (Z.to_nat (cj_endIndex chunk + 1))
      with (Z.to_nat (cj_endIndex chunk) + 1) by lia.
    split; [reflexivity|]. unfold slice.
    rewrite length_firstn, length_skipn. lia.
Qed.

Lemma chunk_conversion_bounds_witness :
  chunk_actions
    (toActionChunk
       [sampleAction click "u" None; sampleAction copy "u" None;
        sampleAction input "u" None]
       {| cj_phase := "p"; cj_startIndex := 1; cj_endIndex := 2;
          cj_patterns := []; cj_inferredIntent := "" |})
  = [sampleAction copy "u" None; sampleAction input "u" None].
Proof.
  apply (proj2 (proj2 (proj2 (chunk_conversion_bounds
           [sampleAction click "u" None; sampleAction copy "u" None;
            sampleAction input "u" None]
           {| cj_phase := "p"; cj_startIndex := 1; cj_endIndex := 2;
              cj_patterns := []; cj_inferredIntent := "" |}))));
    simpl; lia.
Defined.

(** ** Bounds on the metrics *)

Lemma longPausesLoop_length : forall rest i,
  List.length (longPausesLoop i rest []) <= List.length rest.
Proof.
  induction rest as [|a rest IH]; intros i; [simpl; lia|].
  cbn [longPausesLoop]. rewrite longPausesLoop_app, length_app.
  specialize (IH (S i)). cbn [List.length].
  destruct (idleTimeBefore (metadata a)) as [t|]; [|simpl; lia].
  destruct (negb _ && _); simpl; lia.
Qed.

Lemma flat_map_length_le {A B} (f : A -> list B) (l : list A) :
  (forall x, List.length (f x) <= 1) ->
  List.length (flat_map f l) <= List.length l.
Proof.
  intros H. induction l as [|x l IH]; simpl; [lia|].
  rewrite length_app. specialize (H x). lia.
Qed.

Lemma laterChanges_le : forall rest prevUrl,
  laterChanges prevUrl rest <= List.length rest.
Proof.
  induction rest as [|a rest IH]; intros prevUrl; simpl; [lia|].
  specialize (IH (url a)). destruct (url a =? prevUrl)%string; lia.
Qed.

Lemma runEntries_length : forall runs off,
  3 * List.length (runEntries off runs) <= List.length (expandRuns runs).
Proof.
  induction runs as [|[t n] runs IH]; intros off; [simpl; lia|].
  cbn [runEntries expandRuns].
  rewrite !length_app, repeat_length. specialize (IH (off + n)).
  destruct (Nat.leb_spec 3 n); cbn [List.length]; lia.
Qed.

(** X26. No metric outgrows the action list: the numbers of long pauses,
    of extraction actions, of back-and-forth patterns and of URL changes
    are each at most [totalActions], and so is three times the number of
    repeated-action entries. *)
Theorem metrics_within_total
    (hostname : string -> option string) (acts : list Action) :
  let m := calculateMetrics hostname acts in
  totalActions m = List.length acts /\
  List.length (longPauses m) <= totalActions m /\
  List.length (extractionActions m) <= totalActions m /\
  List.length (backForthPatterns m) <= totalActions m /\
  3 * List.length (repeatedActions m) <= totalActions m /\
  urlChanges m <= totalActions m.
Proof.
  intros m. unfold m, calculateMetrics.
  destruct acts as [|a0 rest] eqn:Ea; [simpl; lia|]. rewrite <- Ea.
  destruct (analyzeUrls hostname acts) as [n ds] eqn:Eu.
  cbn [totalActions longPauses extractionActions backForthPatterns
       repeatedActions urlChanges].
  split; [reflexivity|]. split; [apply longPausesLoop_length|].
  split; [|split; [|split]].
  - unfold detectExtractionActions, withIndex. rewrite length_map.
    etransitivity; [apply filter_length_le|].
    rewrite length_combine, length_seq. lia.
  - rewrite detectBackForthPatterns_emitted.
    etransitivity; [apply flat_map_length_le|rewrite length_seq; lia].
    intros i. unfold emittedAt. destruct (oldestQualifying acts i); simpl; lia.
  - destruct (runs_exist (map type acts)) as (runs & Hmax & Hty).
    rewrite (detectRepeatedActions_runs acts runs Hmax Hty).
    pose proof (runEntries_length runs 0) as H.
    rewrite <- Hty, length_map in H. exact H.
  - assert (E : n = fst (analyzeUrls hostname acts)) by now rewrite Eu.
    rewrite E. unfold analyzeUrls. rewrite analyzeUrlsLoop_count.
    pose proof (laterChanges_le acts ""). lia.
Qed.

(** ** The task routes *)

Lemma SessionStatus_eqb_spec a b : reflect (a = b) (SessionStatus_eqb a b).
Proof. destruct a, b; simpl; constructor; congruence. Qed.

(** X27. Stopping a task that is recording always leaves it either
    [completed] or [error], never [recording] or [processing]: when the
    generator returns, the stored task is [completed] and holds the
    generator's output and the metrics of its own actions; when the
    generator throws, the stored task is [error] with the thrown message,
    the reply status is 500 and the earlier output is kept.  The actions
    of the task and all other tasks stay as they were. *)
Theorem stopTask_outcome
    (hostname : string -> option string) (tx : Texts) (config : LLMConfig)
    (callModel : list ProviderCall -> ProviderCall -> Outcome string)
    (taskStore : JsMap TaskRecord) (id : string) (now : Z)
    (log : list ProviderCall) (task : TaskRecord) :
  mapGet id taskStore = Some task ->
  rec_status task = status_recording ->
  let run := stopTaskHandler hostname tx config callModel taskStore id now
               log in
  let reply := fst (fst run) in
  let store' := snd (fst run) in
  let log' := snd run in
  exists final,
    mapGet id store' = Some final /\
    rec_actions final = rec_actions task /\
    rec_endTs final = Some now /\
    (forall other, other <> id ->
       mapGet other store' = mapGet other taskStore) /\
    ((exists result,
        generateDocumentation hostname tx config callModel (sessionOf task)
          log = (Returned result, log') /\
        rec_status final = status_completed /\
        rec_output final = Some (result_output result) /\
        rec_metrics final
          = Some (calculateMetrics hostname (rec_actions task)) /\
        reply_status reply = None /\
        reply_result reply
          = Returned {| stop_status := status_completed;
                        stop_output := Some (result_output result);
                        stop_error := None |}) \/
     (exists message,
        generateDocumentation hostname tx config callModel (sessionOf task)
          log = (Thrown message, log') /\
        rec_status final = status_error /\
        rec_error final = Some message /\
        rec_output final = rec_output task /\
        reply_status reply = Some 500 /\
        reply_result reply
          = Returned {| stop_status := status_error;
                        stop_output := None;
                        stop_error := Some message |})).
Proof.
  intros Hget Hst run reply store' log'.
  unfold reply, store', log', run, stopTaskHandler.
  rewrite Hget, Hst. cbn [SessionStatus_eqb negb]. cbv zeta.
  change (sessionOf _) with (sessionOf task).
  destruct (generateDocumentation hostname tx config callModel (sessionOf task)
              log) as [[result|message] log1] eqn:E; cbn [fst snd].
  - eexists. split; [rewrite mapGet_mapSet, String.eqb_refl; reflexivity|].
    cbn [rec_actions rec_endTs rec_status rec_output rec_metrics].
    split; [reflexivity|]. split; [reflexivity|]. split.
    + intros other Hne. rewrite !mapGet_mapSet.
      destruct (String.eqb_spec id other); [congruence|reflexivity].
    + left. exists result. split; [reflexivity|].
      rewrite (generateDocumentation_returned _ _ _ _ _ _ _ _ E). repeat split; reflexivity.
  - eexists. split; [rewrite mapGet_mapSet, String.eqb_refl; reflexivity|].
    cbn [rec_actions rec_endTs rec_status rec_output rec_error].
    split; [reflexivity|]. split; [reflexivity|]. split.
    + intros other Hne. rewrite !mapGet_mapSet.
      destruct (String.eqb_spec id other); [congruence|reflexivity].
    + right. exists message. repeat split; reflexivity.
Qed.

Lemma stopTask_outcome_witness :
  let task := sampleRecord "t1" status_recording
                [sampleAction click "https://a.com/" None] in
  let run := stopTaskHandler simpleHostname sampleTexts sampleConfig
               failingProvider [("t1", task)] "t1" 2000 [] in
  exists final,
    mapGet "t1" (snd (fst run)) = Some final /\
    rec_actions final = rec_actions task /\
    rec_endTs final = Some 2000%Z /\
    (forall other, other <> "t1"%string ->
       mapGet other (snd (fst run)) = mapGet other [("t1", task)]) /\
    ((exists result,
        generateDocumentation simpleHostname sampleTexts sampleConfig
          failingProvider (sessionOf task) [] = (Returned result, snd run) /\
        rec_status final = status_completed /\
        rec_output final = Some (result_output result) /\
        rec_metrics final
          = Some (calculateMetrics simpleHostname (rec_actions task)) /\
        reply_status (fst (fst run)) = None /\
        reply_result (fst (fst run))
          = Returned {| stop_status := status_completed;
                        stop_output := Some (result_output result);
                        stop_error := None |}) \/
     (exists message,
        generateDocumentation simpleHostname sampleTexts sampleConfig
          failingProvider (sessionOf task) [] = (Thrown message, snd run) /\
        rec_status final = status_error /\
        rec_error final = Some message /\
        rec_output final = rec_output task /\
        reply_status (fst (fst run)) = Some 500 /\
        reply_result (fst (fst run))
          = Returned {| stop_status := status_error;
                        stop_output := None;
                        stop_error := Some message |})).
Proof.
  intros task run.
  apply (stopTask_outcome simpleHostname sampleTexts sampleConfig
           failingProvider [("t1", task)] "t1" 2000 [] task);
    reflexivity.
Defined.

(** X28. Once stopped, a task is closed: after a stop of a recording task
    (whatever the generator did), a second stop and a further batch of
    actions for the same id are both rejected with status 400, and they
    change neither the store nor the log of provider requests. *)
Theorem stopped_task_is_closed
    (hostname : string -> option string) (tx : Texts) (config : LLMConfig)
    (callModel : list ProviderCall -> ProviderCall -> Outcome string)
    (taskStore : JsMap TaskRecord) (id : string) (now later : Z)
    (log : list ProviderCall) (task : TaskRecord) (incoming : list Action) :
  mapGet id taskStore = Some task ->
  rec_status task = status_recording ->
  let run := stopTaskHandler hostname tx config callModel taskStore id now
               log in
  let store1 := snd (fst run) in
  let log1 := snd run in
  let again := stopTaskHandler hostname tx config callModel store1 id later
                 log1 in
  let more := addActionsHandler store1 id incoming in
  reply_status (fst (fst again)) = Some 400 /\
  (exists message, reply_result (fst (fst again)) = Thrown message) /\
  snd (fst again) = store1 /\ snd again = log1 /\
  reply_status (fst more) = Some 400 /\
  (exists message, reply_result (fst more) = Thrown message) /\
  snd more = store1.
Proof.
  intros Hget Hst run store1 log1 again more.
  assert (Hfinal : exists final,
            mapGet id store1 = Some final /\
            rec_status final <> status_recording).
  { unfold store1, run, stopTaskHandler.
    rewrite Hget, Hst. cbn [SessionStatus_eqb negb]. cbv zeta.
    destruct (generateDocumentation _ _ _ _ _ _) as [[result|message] l];
      cbn [fst snd]; eexists;
      (split; [rewrite mapGet_mapSet, String.eqb_refl; reflexivity|]);
      discriminate. }
  destruct Hfinal as (final & Hf & Hs).
  assert (Hb : negb (SessionStatus_eqb (rec_status final) status_recording)
               = true).
  { destruct (SessionStatus_eqb_spec (rec_status final) status_recording);
      [contradiction|reflexivity]. }
  unfold again, more, stopTaskHandler, addActionsHandler.
  rewrite Hf, Hb. cbn [fst snd reply_status reply_result].
  repeat split; eauto.
Qed.

Lemma stopped_task_is_closed_witness :
  let task := sampleRecord "t1" status_recording
                [sampleAction click "https://a.com/" None] in
  let run := stopTaskHandler simpleHostname sampleTexts sampleConfig
               sampleProvider [("t1", task)] "t1" 2000 [] in
  reply_status
    (fst (fst (stopTaskHandler simpleHostname sampleTexts sampleConfig
                 sampleProvider (snd (fst run)) "t1" 3000 (snd run))))
  = Some 400.
Proof.
  intros task run.
  apply (stopped_task_is_closed simpleHostname sampleTexts sampleConfig
           sampleProvider [("t1", task)] "t1" 2000 3000 [] task []);
    reflexivity.
Defined.



(** ** Finding a block that is there *)

Lemma cut_complete needle : forall a b,
  exists a' b',
    cut needle (a ++ needle ++ b) = Some (a', b') /\
    String.length a' <= String.length a.
Proof.
  induction a as [|c a IH]; intros b.
  - exists ""%string, b. split; [exact (cut_here needle b)|simpl; lia].
  - destruct (IH b) as (a' & b' & Hc & Hl).
    cbn [append]. destruct (prefix needle (String c (a ++ needle ++ b))) eqn:E.
    + eexists ""%string, _. cbn [cut]. rewrite E. split; [reflexivity|].
      simpl; lia.
    + exists (String c a'), b'. cbn [cut]. rewrite E, Hc.
      split; [reflexivity|simpl; lia].
Qed.

Lemma append_same_text : forall p q r t,
  (p ++ r = q ++ t)%string -> String.length p <= String.length q ->
  exists x, r = (x ++ t)%string.
Proof.
  induction p as [|c p IH]; intros q r t H Hl.
  - exists q. exact H.
  - destruct q as [|d q]; [simpl in Hl; lia|].
    simpl in H. injection H as _ H. apply (IH q r t H). simpl in Hl. lia.
Qed.

Lemma matchDelimited_complete open close a b c :
  exists body,
    matchDelimited open close (a ++ open ++ b ++ close ++ c) = Some body.
Proof.
  unfold matchDelimited.
  destruct (cut_complete open a (b ++ close ++ c)) as (a' & r & Hc & Hl).
  rewrite Hc. pose proof (cut_sound _ _ _ _ Hc) as Hs.
  assert (Hx : exists x, r = (x ++ b ++ close ++ c)%string).
  { apply (append_same_text (a' ++ open) (a ++ open)).
    - rewrite !append_assoc. symmetry. exact Hs.
    - rewrite !append_length. lia. }
  destruct Hx as (x & ->).
  destruct (cut_complete close (x ++ b) c) as (body & r' & Hc' & _).
  rewrite append_assoc in Hc'. rewrite Hc'. eauto.
Qed.

(** X30. When the response holds a [<chunks>] block anywhere, the parser
    does pick a block of the response, and the chunks it returns are what
    [JSON.parse] makes of that block's trimmed content (nothing, if that
    is not valid JSON): the chunk list is empty without a parse only when
    no block is there. *)
Theorem parseChunkerResponse_block_present
    (tx : Texts) (response : string) :
  (exists a b c,
     response = (a ++ "<chunks>" ++ b ++ "</chunks>" ++ c)%string) ->
  exists a body c,
    response = (a ++ "<chunks>" ++ body ++ "</chunks>" ++ c)%string /\
    chunker_chunks (parseChunkerResponse tx response)
    = match JSON_parse_chunks tx (trim body) with
      | Some parsed => parsed
      | None => json_array []
      end.
Proof.
  intros (a & b & c & ->).
  destruct (matchDelimited_complete "<chunks>" "</chunks>" a b c)
    as (body & Hm).
  destruct (matchDelimited_sound _ _ _ _ Hm) as (a' & c' & Hs).
  exists a', body, c'. split; [exact Hs|].
  unfold parseChunkerResponse. cbn [chunker_chunks]. now rewrite Hm.
Qed.

Lemma parseChunkerResponse_block_present_witness :
  exists a body c,
    ("x<chunks>1</chunks>y</chunks>")%string
      = (a ++ "<chunks>" ++ body ++ "</chunks>" ++ c)%string /\
    chunker_chunks
      (parseChunkerResponse parsingTexts "x<chunks>1</chunks>y</chunks>")
    = match JSON_parse_chunks parsingTexts (trim body) with
      | Some parsed => parsed
      | None => json_array []
      end.
Proof.
  apply (parseChunkerResponse_block_present parsingTexts
           "x<chunks>1</chunks>y</chunks>").
  exists "x"%string, "1</chunks>y"%string, ""%string. reflexivity.
Defined.
